(** * Beacon selection and propagation core of the PQA beaconing control plane

    A shallow embedding of
      - go/cs/beacon/beacon.go                 (the beacon entity),
      - go/pkg/storage/pqa/memory/db.go        (the beacon store),
      - go/pkg/storage/pqa/memory/pqa.go       (the PQA backend on top of it),
      - the propagation mechanism of package pqa (getPropagationBatch and
        its helpers),
    with the properties of the specification stated over it, and further
    properties of the code. *)

From Stdlib Require Import ZArith Lia Ascii.
From stdpp Require Import base option list sorting gmap sets strings.

Local Open Scope Z_scope.

(** * The model *)

(** ** Addresses, interfaces and time *)

(** [addr.IA]: the ISD and AS number of an autonomous system, both unsigned
    integers in the Go code. *)
Record IA : Type := mkIA { IA_I : Z; IA_A : Z }.

#[global] Instance IA_eq_dec : EqDecision IA.
Proof. solve_decision. Defined.

#[global] Instance IA_countable : Countable IA.
Proof.
  refine (inj_countable' (fun ia => (IA_I ia, IA_A ia))
                         (fun p => mkIA p.1 p.2) _).
  by intros [].
Defined.

(** Modelled from the spec: [IA.Equal] and [IA.IsZero] are declared in
    package addr, which is not embedded here. Section 4.1: links are
    compared "by exact pairwise equality"; section 4.3: a "zero-valued ISD
    or AS component", the zero IA having both. *)
Definition IA_Equal (ia other : IA) : bool :=
  (IA_I ia =? IA_I other) && (IA_A ia =? IA_A other).

Definition IA_IsZero (ia : IA) : bool := (IA_I ia =? 0) && (IA_A ia =? 0).

(** The zero value of [addr.IA]. *)
Definition IA_zero : IA := mkIA 0 0.

(** Interface identifiers are [uint16] in [beacon.Beacon]. *)
Definition uint16 (x : Z) : Z := x mod 65536.

(** [time.Time] as nanoseconds since the Unix epoch. *)
Definition Time : Type := Z.
Definition time_Unix (sec nsec : Z) : Time := sec * 1000000000 + nsec.
Definition Time_Unix (t : Time) : Z := t / 1000000000.
Definition Time_UnixNano (t : Time) : Z := t.
Definition Time_After (t u : Time) : bool := u <? t.

(** [Time.IsZero]: the zero [time.Time] is January 1 of the year 1, which
    is 62135596800 seconds before the Unix epoch. *)
Definition Time_IsZero (t : Time) : bool := t =? time_Unix (-62135596800) 0.

(** ** The beacon entity (go/cs/beacon/beacon.go) *)

Section Beacon.
(** The PQA extension carried by an AS entry is declared in package
    pqabeaconing; only its fields [Quality], [Direction] and [Uniquifier]
    are used here. *)
Context {Quality Direction : Type}.

Record PqaExtension : Type := mkPqaExtension {
  ext_Quality : Quality;
  ext_Direction : Direction;
  ext_Uniquifier : Z
}.

Record HopField : Type := mkHopField { ConsIngress : Z; ConsEgress : Z }.

Record ASEntry : Type := mkASEntry {
  Local : IA;
  HopEntry_HopField : HopField;
  Extensions_PqaExtension : option PqaExtension
}.

Record PathSegment : Type := mkPathSegment {
  Info_Timestamp : Time;
  ASEntries : list ASEntry
}.

(** [type Beacon struct]. [Segment] is a pointer in Go and may be nil;
    [EgIfId] is the field [getPropagationBatch] assigns. *)
Record Beacon : Type := mkBeacon {
  Segment : option PathSegment;
  InIfId : Z;
  EgIfId : Z
}.

(** [func link(entry seg.ASEntry) (addr.IA, uint16)] *)
Definition link (entry : ASEntry) : IA * Z :=
  (Local entry, ConsIngress (HopEntry_HopField entry)).

(** The inner loop of [Diversity]: scan the other beacon's entries until
    one has the same link. *)
Fixpoint Diversity_found (ia : IA) (ifid : Z) (others : list ASEntry) : bool :=
  match others with
  | [] => false
  | otherEntry :: rest =>
      let '(oia, oifid) := link otherEntry in
      if IA_Equal ia oia && (ifid =? oifid) then true
      else Diversity_found ia ifid rest
  end.

(** The outer loop of [Diversity], with its counter [diff]. *)
Fixpoint Diversity_loop (entries others : list ASEntry) (diff : Z) : Z :=
  match entries with
  | [] => diff
  | asEntry :: rest =>
      let '(ia, ifid) := link asEntry in
      let found := Diversity_found ia ifid others in
      Diversity_loop rest others (if found then diff else diff + 1)
  end.

(** [func (b Beacon) Diversity(other Beacon) int] *)
Definition Diversity (b other : Beacon) : Z :=
  match Segment b, Segment other with
  | Some s, Some o => Diversity_loop (ASEntries s) (ASEntries o) 0
  | _, _ => 0
  end.

(** The specification's reading of link diversity: the entries of this
    segment whose link is the link of no entry of the other segment. *)
Definition links (s : PathSegment) : list (IA * Z) := link <$> ASEntries s.

Definition links_absent_from (s o : PathSegment) : list (IA * Z) :=
  filter (fun l => l ∉ links o) (links s).

(** The specification's words for [Diversity] (section 4.1), written from
    the fields of the AS entries and not through [link]: the links of a
    segment are the pairs (local AS, ingress interface) of its entries, one
    per entry; the diversity of a beacon against another is the number of
    its links that are the link of no entry of the other's segment, and 0
    if either segment is unset. *)
Definition spec_links (s : PathSegment) : list (IA * Z) :=
  (fun entry => (Local entry, ConsIngress (HopEntry_HopField entry))) <$>
    ASEntries s.

Definition spec_Diversity (b other : Beacon) : Z :=
  match Segment b, Segment other with
  | Some s, Some o =>
      Z.of_nat (length (filter (fun l => l ∉ spec_links o) (spec_links s)))
  | _, _ => 0
  end.
End Beacon.

Arguments PqaExtension : clear implicits.
Arguments ASEntry : clear implicits.
Arguments PathSegment : clear implicits.
Arguments Beacon : clear implicits.

Section BeaconEq.
Context {Quality Direction : Type}.
Context `{!EqDecision Quality, !EqDecision Direction}.

#[global] Instance PqaExtension_eq_dec : EqDecision (PqaExtension Quality Direction).
Proof. solve_decision. Defined.

#[global] Instance HopField_eq_dec : EqDecision HopField.
Proof. solve_decision. Defined.

#[global] Instance ASEntry_eq_dec : EqDecision (ASEntry Quality Direction).
Proof. solve_decision. Defined.

#[global] Instance PathSegment_eq_dec : EqDecision (PathSegment Quality Direction).
Proof. solve_decision. Defined.

#[global] Instance Beacon_eq_dec : EqDecision (Beacon Quality Direction).
Proof. solve_decision. Defined.
End BeaconEq.

(** ** Errors, log output and panics *)

Definition RawBytes : Type := list Byte.byte.

#[global] Instance byte_eq_dec : EqDecision Byte.byte := Byte.byte_eq_dec.

(** A Go function that can hit a run-time panic (nil dereference, index out
    of range, negative capacity) either returns or panics. *)
Inductive Outcome (A : Type) : Type :=
| Ret (a : A)
| Panic.
Arguments Ret {A} a.
Arguments Panic {A}.

#[global] Instance Outcome_ret : MRet Outcome := fun A a => Ret a.

#[global] Instance Outcome_bind : MBind Outcome := fun A B k o =>
  match o with
  | Ret a => k a
  | Panic => Panic
  end.

Inductive Level : Type := LvlDebug | LvlInfo | LvlError.

Section Errors.
Context {Quality Direction : Type}.
Abbreviation PathSegment' := (PathSegment Quality Direction).

(** Values attached to an error or a log line as key/value context. *)
Inductive ctxval : Type :=
| CtxInt (z : Z)
| CtxBytes (b : RawBytes)
| CtxSeg (s : option PathSegment')
| CtxStr (s : string).

(** Errors: those built here with [serrors] and the [db] constructors, and
    those handed back by a collaborator (SQL driver, codec, extender). *)
Inductive error : Type :=
| ErrExternal (tag : string)
| serrors_New (msg : string) (ctx : list (string * ctxval))
| serrors_WrapStr (msg : string) (cause : error) (ctx : list (string * ctxval))
| db_NewReadError (msg : string) (cause : error)
| db_NewWriteError (msg : string) (cause : error)
| db_NewDataError (msg : string) (cause : error)
| db_NewInputDataError (msg : string) (cause : error).

Record LogEntry : Type := mkLogEntry {
  log_level : Level;
  log_msg : string;
  log_err : option error;
  log_ctx : list (string * ctxval)
}.
End Errors.

Arguments ctxval : clear implicits.
Arguments error : clear implicits.
Arguments LogEntry : clear implicits.

(** ** The beacon store (go/pkg/storage/pqa/memory/db.go) *)

(** One row of table [Beacons]; the columns are those named by the INSERT
    statement of [insertNewBeacon], plus SQLite's [RowID]. *)
Record Row : Type := mkRow {
  RowID : Z;
  SegID : RawBytes;
  FullID : RawBytes;
  StartIsd : Z;
  StartAs : Z;
  InIntfID : Z;
  HopsLength : Z;
  InfoTime : Z;
  ExpirationTime : Z;
  LastUpdated : Z;
  Usage : Z;
  Beacon_col : RawBytes
}.

#[global] Instance Row_eq_dec : EqDecision Row.
Proof. solve_decision. Defined.

(** The SQL statements the executor issues, and the two calls that read a
    result set ([rows.Scan], [rows.Err]). *)
Inductive Stmt : Type :=
| StmtSelectCandidates
| StmtSelectMeta
| StmtSelectById
| StmtUpdate
| StmtInsert
| StmtDelete
| StmtScanRow
| StmtRowsErr
| StmtSelectSources
| StmtSelectBeacons.

(** [type beaconMeta struct] *)
Record beaconMeta : Type := mkBeaconMeta {
  meta_RowID : Z;
  meta_InfoTime : Time;
  meta_LastUpdated : Time
}.

(** [beacon.InsertStats] *)
Record InsertStats : Type := mkInsertStats { Inserted : Z; Updated : Z }.

(** *** Result sets *)

(** What SELECT DISTINCT keeps of a result: the first occurrence of every
    element. SQL leaves the order of a result without ORDER BY to the
    engine; the order of the table is taken here. *)
Definition distinct {A : Type} `{!EqDecision A} (l : list A) : list A :=
  foldl (fun seen x => if bool_decide (x ∈ seen) then seen else seen ++ [x])
        [] l.

(** An integer column fits an unsigned Go integer of [bits] bits. *)
Definition fits_uint (bits : Z) (z : Z) : bool := (0 <=? z) && (z <? 2 ^ bits).

(** The columns [GetBeacons] selects of a row. *)
Record Selected : Type := mkSelected {
  sel_RowID : Z;
  sel_LastUpdated : Z;
  sel_Usage : Z;
  sel_Beacon : RawBytes;
  sel_InIntfID : Z
}.

#[global] Instance Selected_eq_dec : EqDecision Selected.
Proof. solve_decision. Defined.

Definition select (r : Row) : Selected :=
  {| sel_RowID := RowID r; sel_LastUpdated := LastUpdated r;
     sel_Usage := Usage r; sel_Beacon := Beacon_col r;
     sel_InIntfID := InIntfID r |}.

(** ORDER BY LastUpdated DESC *)
Definition newest_first (x y : Selected) : Prop :=
  sel_LastUpdated y ≤ sel_LastUpdated x.

#[global] Instance newest_first_dec : RelDecision newest_first.
Proof. intros x y. unfold newest_first. apply _. Defined.

(** *** The statement of [GetBeacons] *)

(** [storagebeacon.QueryParams]: the fields [buildQuery] reads, with the
    types it reads them at. *)
Record QueryParams : Type := mkQueryParams {
  SegIDs : list RawBytes;
  StartsAt : list IA;
  IngressInterfaces : list Z;
  Usages : list Z;
  ValidAt : Time
}.

(** A value bound to a placeholder of a statement. *)
Inductive Arg : Type :=
| ArgBytes (b : RawBytes)
| ArgInt (z : Z).

(** The line feed that Go writes as a backslash followed by n. *)
Definition newline : string := String "010"%char EmptyString.

(** [fmt.Sprintf("(%s)", strings.Join(subQ, " OR "))] *)
Definition any_of (subQ : list string) : string :=
  "(" +:+ String.concat " OR " subQ +:+ ")".

(** [func (e *executor) buildQuery]: the text of the statement and the
    values for its placeholders; [None] is the nil pointer. The method
    reads nothing of its receiver. *)
Definition buildQuery (params : option QueryParams) : string * list Arg :=
  let args : list Arg := [] in
  let query :=
    "SELECT DISTINCT RowID, LastUpdated, Usage, Beacon, InIntfID FROM Beacons" in
  match params with
  | None => (query, args)
  | Some params =>
      let where_ : list string := [] in
      let '(where_, args) :=
        if (0 <? length (SegIDs params))%nat then
          let '(subQ, args) :=
            foldl (fun '(subQ, args) segID =>
                     (subQ ++ ["hex(SegID) LIKE (hex(?) || '%')"],
                      args ++ [ArgBytes segID]))
                  ([], args) (SegIDs params) in
          (where_ ++ [any_of subQ], args)
        else (where_, args) in
      let '(where_, args) :=
        if (0 <? length (StartsAt params))%nat then
          let '(subQ, args) :=
            foldl (fun '(subQ, args) as_ =>
                     if IA_IsZero as_ then (subQ, args)
                     else if IA_I as_ =? 0 then
                       (subQ ++ ["StartAs=?"], args ++ [ArgInt (IA_A as_)])
                     else if IA_A as_ =? 0 then
                       (subQ ++ ["StartIsd=?"], args ++ [ArgInt (IA_I as_)])
                     else if negb (IA_I as_ =? 0) && negb (IA_A as_ =? 0) then
                       (subQ ++ ["(StartIsd=? AND StartAs=?)"],
                        args ++ [ArgInt (IA_I as_); ArgInt (IA_A as_)])
                     else (subQ, args))
                  ([], args) (StartsAt params) in
          if (0 <? length subQ)%nat then (where_ ++ [any_of subQ], args)
          else (where_, args)
        else (where_, args) in
      let '(where_, args) :=
        if (0 <? length (IngressInterfaces params))%nat then
          let '(subQ, args) :=
            foldl (fun '(subQ, args) intf =>
                     (subQ ++ ["InIntfID=?"], args ++ [ArgInt intf]))
                  ([], args) (IngressInterfaces params) in
          (where_ ++ [any_of subQ], args)
        else (where_, args) in
      let '(where_, args) :=
        if (0 <? length (Usages params))%nat then
          let '(subQ, args) :=
            foldl (fun '(subQ, args) u =>
                     if 0 <? u then
                       (subQ ++ ["(Usage & ? = ?)"],
                        args ++ [ArgInt u; ArgInt u])
                     else (subQ, args))
                  ([], args) (Usages params) in
          if (0 <? length subQ)%nat then (where_ ++ [any_of subQ], args)
          else (where_, args)
        else (where_, args) in
      let '(where_, args) :=
        if negb (Time_IsZero (ValidAt params)) then
          (where_ ++ ["(InfoTime <= ? AND ? <= ExpirationTime)"],
           (args ++ [ArgInt (Time_Unix (ValidAt params))])
             ++ [ArgInt (Time_Unix (ValidAt params))])
        else (where_, args) in
      (* Assemble the query. *)
      let query :=
        if (0 <? length where_)%nat then
          query +:+ newline +:+
            ("WHERE " +:+ String.concat (" AND" +:+ newline) where_)
        else query in
      let query := query +:+ newline +:+ "ORDER BY LastUpdated DESC" in
      (query, args)
  end.

(** The conditions [buildQuery] writes, each with the values bound to its
    placeholders, and what SQLite makes of them on a row. *)
Inductive Cond : Type :=
| SegIDLike (segID : RawBytes)
| StartAsIs (a : Z)
| StartIsdIs (i : Z)
| StartIs (i a : Z)
| InIntfIDIs (intf : Z)
| UsageHas (u : Z).

Definition Cond_text (c : Cond) : string :=
  match c with
  | SegIDLike _ => "hex(SegID) LIKE (hex(?) || '%')"
  | StartAsIs _ => "StartAs=?"
  | StartIsdIs _ => "StartIsd=?"
  | StartIs _ _ => "(StartIsd=? AND StartAs=?)"
  | InIntfIDIs _ => "InIntfID=?"
  | UsageHas _ => "(Usage & ? = ?)"
  end.

Definition Cond_args (c : Cond) : list Arg :=
  match c with
  | SegIDLike segID => [ArgBytes segID]
  | StartAsIs a => [ArgInt a]
  | StartIsdIs i => [ArgInt i]
  | StartIs i a => [ArgInt i; ArgInt a]
  | InIntfIDIs intf => [ArgInt intf]
  | UsageHas u => [ArgInt u; ArgInt u]
  end.

(** [hex(SegID) LIKE (hex(?) || '%')] holds when the hexadecimal form of
    the argument starts that of the column, two digits to the byte: when the
    argument is a prefix of the column. *)
Definition Cond_holds (c : Cond) (r : Row) : bool :=
  match c with
  | SegIDLike segID => bool_decide (segID `prefix_of` SegID r)
  | StartAsIs a => StartAs r =? a
  | StartIsdIs i => StartIsd r =? i
  | StartIs i a => (StartIsd r =? i) && (StartAs r =? a)
  | InIntfIDIs intf => InIntfID r =? intf
  | UsageHas u => Z.land (Usage r) u =? u
  end.

(** A member of the WHERE clause: conditions joined by OR, or the window
    of validity. *)
Inductive Clause : Type :=
| AnyOf (subQ : list Cond)
| ValidAtUnix (t : Z).

Definition Clause_text (c : Clause) : string :=
  match c with
  | AnyOf subQ => any_of (Cond_text <$> subQ)
  | ValidAtUnix _ => "(InfoTime <= ? AND ? <= ExpirationTime)"
  end.

Definition Clause_args (c : Clause) : list Arg :=
  match c with
  | AnyOf subQ => concat (Cond_args <$> subQ)
  | ValidAtUnix t => [ArgInt t; ArgInt t]
  end.

Definition Clause_holds (c : Clause) (r : Row) : bool :=
  match c with
  | AnyOf subQ => existsb (fun c => Cond_holds c r) subQ
  | ValidAtUnix t => (InfoTime r <=? t) && (t <=? ExpirationTime r)
  end.

(** The WHERE clause of [buildQuery], member by member: the walk of
    [buildQuery] through the parameters, keeping the conditions instead of
    their text. *)
Definition buildQuery_where (params : QueryParams) : list Clause :=
  let where_ : list Clause := [] in
  let where_ :=
    if (0 <? length (SegIDs params))%nat then
      where_ ++ [AnyOf (foldl (fun subQ segID => subQ ++ [SegIDLike segID])
                              [] (SegIDs params))]
    else where_ in
  let where_ :=
    if (0 <? length (StartsAt params))%nat then
      let subQ :=
        foldl (fun subQ as_ =>
                 if IA_IsZero as_ then subQ
                 else if IA_I as_ =? 0 then subQ ++ [StartAsIs (IA_A as_)]
                 else if IA_A as_ =? 0 then subQ ++ [StartIsdIs (IA_I as_)]
                 else if negb (IA_I as_ =? 0) && negb (IA_A as_ =? 0) then
                   subQ ++ [StartIs (IA_I as_) (IA_A as_)]
                 else subQ)
              [] (StartsAt params) in
      if (0 <? length subQ)%nat then where_ ++ [AnyOf subQ] else where_
    else where_ in
  let where_ :=
    if (0 <? length (IngressInterfaces params))%nat then
      where_ ++ [AnyOf (foldl (fun subQ intf => subQ ++ [InIntfIDIs intf])
                              [] (IngressInterfaces params))]
    else where_ in
  let where_ :=
    if (0 <? length (Usages params))%nat then
      let subQ :=
        foldl (fun subQ u => if 0 <? u then subQ ++ [UsageHas u] else subQ)
              [] (Usages params) in
      if (0 <? length subQ)%nat then where_ ++ [AnyOf subQ] else where_
    else where_ in
  if negb (Time_IsZero (ValidAt params))
  then where_ ++ [ValidAtUnix (Time_Unix (ValidAt params))]
  else where_.

(** The text and the values of a statement with the WHERE clause
    [where_]. *)
Definition statement (where_ : list Clause) : string * list Arg :=
  let query :=
    "SELECT DISTINCT RowID, LastUpdated, Usage, Beacon, InIntfID FROM Beacons" in
  let query :=
    if (0 <? length where_)%nat then
      query +:+ newline +:+
        ("WHERE " +:+ String.concat (" AND" +:+ newline) (Clause_text <$> where_))
    else query in
  (query +:+ newline +:+ "ORDER BY LastUpdated DESC",
   concat (Clause_args <$> where_)).

(** The number of placeholders in the text of a statement. *)
Fixpoint placeholders (s : string) : nat :=
  match s with
  | EmptyString => 0
  | String c s => (if Ascii.eqb c "?" then 1 else 0) + placeholders s
  end.

(** Collaborators of the store that live in packages [seg] and [beacon]:
    segment identities, expiry, and the codec of the packed form. *)
Class SegLib (Quality Direction : Type) : Type := {
  Segment_ID : PathSegment Quality Direction → RawBytes;
  Segment_FullID : PathSegment Quality Direction → RawBytes;
  Segment_MaxExpiry : PathSegment Quality Direction → Time;
  PackBeacon : PathSegment Quality Direction →
               error Quality Direction + RawBytes;
  UnpackBeacon : RawBytes →
                 error Quality Direction + PathSegment Quality Direction;
  ErrReadingRows : string;
  ErrParse : string
}.

Section Store.
Context {Quality Direction : Type} `{!SegLib Quality Direction}.
Abbreviation PathSegment' := (PathSegment Quality Direction).
Abbreviation error' := (error Quality Direction).

(** [type executor struct]: the table behind [db], the local [ia], and the
    failures of the SQL driver: [db_fault st = Some err] when the driver
    answers statement [st] with [err]. The [RWMutex] serialises the calls;
    each function below is one critical section. *)
Record executor : Type := mkExecutor {
  db_rows : list Row;
  db_fault : Stmt → option error';
  ia : IA
}.

Definition with_rows (e : executor) (rows : list Row) : executor :=
  {| db_rows := rows; db_fault := db_fault e; ia := ia e |}.

(** [storagebeacon.Beacon]: a beacon with the usage and the time of the
    last update of its record. *)
Record StoredBeacon : Type := mkStoredBeacon {
  sb_Beacon : Beacon Quality Direction;
  sb_Usage : Z;
  sb_LastUpdated : Time
}.

(** Modelled from the spec: [PathSegment.FirstIA] is declared in package
    seg, which is not embedded here. Sections 3 and 4.3: the StartIA of
    a record is the origin AS of its segment, the local AS of the first AS
    entry. A segment without entries has none: the index expression
    panics. *)
Definition FirstIA (s : PathSegment') : Outcome IA :=
  match ASEntries s with
  | [] => Panic
  | e :: _ => Ret (Local e)
  end.

(** [func (e *executor) getBeaconMeta]:
    SELECT RowID, InfoTime, LastUpdated FROM Beacons WHERE SegID=? *)
Definition getBeaconMeta (e : executor) (segID : RawBytes)
  : error' + option beaconMeta :=
  match db_fault e StmtSelectMeta with
  | Some err => inl (db_NewReadError "Failed to lookup beacon" err)
  | None =>
      match List.find (fun r => bool_decide (SegID r = segID)) (db_rows e) with
      | None => inr None
      | Some r =>
          inr (Some {| meta_RowID := RowID r;
                       meta_InfoTime := time_Unix (InfoTime r) 0;
                       meta_LastUpdated := time_Unix 0 (LastUpdated r) |})
      end
  end.

(** The row that UPDATE writes in place of [r]: the columns of the SET
    clause change, the others stay. *)
Definition updated_row (r : Row) (fullID : RawBytes) (inIfId hops infoTime
    expTime lastUpdated usage : Z) (packedSeg : RawBytes) : Row :=
  {| RowID := RowID r; SegID := SegID r; FullID := fullID;
     StartIsd := StartIsd r; StartAs := StartAs r; InIntfID := inIfId;
     HopsLength := hops; InfoTime := infoTime; ExpirationTime := expTime;
     LastUpdated := lastUpdated; Usage := usage; Beacon_col := packedSeg |}.

(** [func (e *executor) updateExistingBeacon] *)
Definition updateExistingBeacon (e : executor) (b : Beacon Quality Direction)
    (usage : Z) (rowID : Z) (now : Time) : Outcome (executor * option error') :=
  match Segment b with
  | None => Panic
  | Some seg =>
      let fullID := Segment_FullID seg in
      match PackBeacon seg with
      | inl err => Ret (e, Some err)
      | inr packedSeg =>
          let infoTime := Time_Unix (Info_Timestamp seg) in
          let lastUpdated := Time_UnixNano now in
          let expTime := Time_Unix (Segment_MaxExpiry seg) in
          match db_fault e StmtUpdate with
          | Some err => Ret (e, Some (db_NewWriteError "update segment" err))
          | None =>
              let upd r :=
                if bool_decide (RowID r = rowID)
                then updated_row r fullID (InIfId b)
                       (Z.of_nat (length (ASEntries seg))) infoTime expTime
                       lastUpdated usage packedSeg
                else r in
              Ret (with_rows e (upd <$> db_rows e), None)
          end
      end
  end.

(** Modelled from the spec: the schema of table [Beacons] is declared in
    a file that is not embedded here. Section 3: "RowID is the
    storage-assigned identity"; SQLite assigns a new row one more than the
    largest RowID in use. *)
Definition next_RowID (rows : list Row) : Z :=
  1 + foldr (fun r m => Z.max (RowID r) m) 0 rows.

(** Modelled from the spec: the schema of table [Beacons] is declared in
    a file that is not embedded here. Section 6: "SegID (unique key)"; the
    driver refuses an INSERT that repeats a SegID of the table. *)
Definition repeats_SegID (rows : list Row) (segID : RawBytes) : bool :=
  existsb (fun r => bool_decide (SegID r = segID)) rows.

(** [func insertNewBeacon]: the INSERT statement, run on the table of the
    open transaction. *)
Definition insertNewBeacon (e : executor) (b : Beacon Quality Direction)
    (usage : Z) (now : Time) : Outcome (list Row * option error') :=
  match Segment b with
  | None => Panic
  | Some seg =>
      let segID := Segment_ID seg in
      let fullID := Segment_FullID seg in
      match PackBeacon seg with
      | inl err => Ret (db_rows e, Some (db_NewInputDataError "pack segment" err))
      | inr packed =>
          start ← FirstIA seg;
          let infoTime := Time_Unix (Info_Timestamp seg) in
          let lastUpdated := Time_UnixNano now in
          let expTime := Time_Unix (Segment_MaxExpiry seg) in
          match db_fault e StmtInsert with
          | Some err =>
              Ret (db_rows e, Some (db_NewWriteError "insert beacon" err))
          | None =>
              if repeats_SegID (db_rows e) segID
              then Ret (db_rows e,
                        Some (db_NewWriteError "insert beacon"
                                (ErrExternal "UNIQUE constraint failed")))
              else
                Ret (db_rows e ++
                       [ {| RowID := next_RowID (db_rows e); SegID := segID;
                            FullID := fullID; StartIsd := IA_I start;
                            StartAs := IA_A start; InIntfID := InIfId b;
                            HopsLength := Z.of_nat (length (ASEntries seg));
                            InfoTime := infoTime; ExpirationTime := expTime;
                            LastUpdated := lastUpdated; Usage := usage;
                            Beacon_col := packed |} ], None)
          end
      end
  end.

(** [db.DoInTx]: the statements of [f] take effect together when [f]
    returns no error, and not at all otherwise. *)
Definition DoInTx (e : executor)
    (f : executor → Outcome (list Row * option error'))
  : Outcome (executor * option error') :=
  '(rows, err) ← f e;
  match err with
  | Some err => Ret (e, Some err)
  | None => Ret (with_rows e rows, None)
  end.

(** [func (e *executor) InsertBeacon] *)
Definition InsertBeacon (e : executor) (b : Beacon Quality Direction)
    (usage : Z) (now : Time)
  : Outcome (executor * InsertStats * option error') :=
  let ret := {| Inserted := 0; Updated := 0 |} in
  match Segment b with
  | None => Panic
  | Some seg =>
      let segID := Segment_ID seg in
      match getBeaconMeta e segID with
      | inl err => Ret (e, ret, Some err)
      | inr (Some meta) =>
          if Time_After (Info_Timestamp seg) (meta_InfoTime meta) then
            '(e', err) ← updateExistingBeacon e b usage (meta_RowID meta) now;
            match err with
            | Some err => Ret (e', ret, Some err)
            | None => Ret (e', {| Inserted := Inserted ret; Updated := 1 |}, None)
            end
          else Ret (e, ret, None)
      | inr None =>
          '(e', err) ← DoInTx e (fun tx => insertNewBeacon tx b usage now);
          match err with
          | Some err => Ret (e', ret, Some err)
          | None => Ret (e', {| Inserted := 1; Updated := Updated ret |}, None)
          end
      end
  end.

(** The rows selected by the query of [CandidateBeacons]:
    SELECT b.Beacon, b.InIntfID FROM Beacons b
    WHERE ( b.Usage & ?1 ) == ?1 [AND StartIsd == ?4 AND StartAs == ?5]
    ORDER BY b.HopsLength ASC LIMIT ?2
    The third argument bound to the statement, the current time, occurs
    nowhere in its text. A negative LIMIT does not limit. *)
Definition CandidateBeacons_where (usage : Z) (src : IA) (r : Row) : bool :=
  (Z.land (Usage r) usage =? usage) &&
  (if negb (IA_IsZero src)
   then (StartIsd r =? IA_I src) && (StartAs r =? IA_A src)
   else true).

Definition by_HopsLength (r1 r2 : Row) : Prop := HopsLength r1 ≤ HopsLength r2.

#[global] Instance by_HopsLength_dec : RelDecision by_HopsLength.
Proof. intros r1 r2. unfold by_HopsLength. apply _. Defined.

Definition CandidateBeacons_query (rows : list Row) (setSize usage : Z)
    (src : IA) : list Row :=
  let selected := List.filter (CandidateBeacons_where usage src) rows in
  let ordered := merge_sort by_HopsLength selected in
  if setSize <? 0 then ordered else take (Z.to_nat setSize) ordered.

(** The loop over the result set: scan a row, unpack the beacon, append. *)
Fixpoint CandidateBeacons_scan (e : executor) (rows : list Row)
    (beacons : list (Beacon Quality Direction))
  : error' + list (Beacon Quality Direction) :=
  match rows with
  | [] =>
      match db_fault e StmtRowsErr with
      | Some err => inl err
      | None => inr beacons
      end
  | r :: rest =>
      match db_fault e StmtScanRow with
      | Some err => inl (db_NewReadError ErrReadingRows err)
      | None =>
          match UnpackBeacon (Beacon_col r) with
          | inl err => inl (db_NewDataError ErrParse err)
          | inr s =>
              CandidateBeacons_scan e rest
                (beacons ++ [ {| Segment := Some s;
                                 InIfId := uint16 (InIntfID r);
                                 EgIfId := 0 |} ])
          end
      end
  end.

(** [func (e *executor) CandidateBeacons]; [now] is [time.Now()]. *)
Definition CandidateBeacons (e : executor) (setSize usage : Z) (src : IA)
    (now : Time) : Outcome (error' + list (Beacon Quality Direction)) :=
  match db_fault e StmtSelectCandidates with
  | Some err => Ret (inl (db_NewReadError "Error selecting beacons" err))
  | None =>
      let rows := CandidateBeacons_query (db_rows e) setSize usage src in
      (* make([]beacon.Beacon, 0, setSize) *)
      if setSize <? 0 then Panic
      else Ret (CandidateBeacons_scan e rows [])
  end.

(** [func (e *executor) getBeaconID] *)
Definition getBeaconID (e : executor) (beacon : Beacon Quality Direction)
  : Outcome (Z * option error') :=
  match Segment beacon with
  | None => Panic
  | Some seg =>
      let segID := Segment_ID seg in
      match getBeaconMeta e segID with
      | inl err => Ret (-1, Some err)
      | inr None =>
          Ret (-1, Some (serrors_New "beacon not found"
                           [("segID"%string, CtxBytes segID)]))
      | inr (Some meta) => Ret (meta_RowID meta, None)
      end
  end.

(** [func (e *executor) GetBeaconById]:
    SELECT b.Beacon, b.InIntfID FROM Beacons b WHERE b.RowID = ?1 *)
Definition GetBeaconById (e : executor) (id : Z)
  : error' + Beacon Quality Direction :=
  match db_fault e StmtSelectById with
  | Some err => inl err
  | None =>
      match List.find (fun r => bool_decide (RowID r = id)) (db_rows e) with
      | None => inl (serrors_New "no beacon found with id"
                       [("id"%string, CtxInt id)])
      | Some r =>
          match db_fault e StmtScanRow with
          | Some err => inl err
          | None =>
              match UnpackBeacon (Beacon_col r) with
              | inl err => inl (db_NewDataError ErrParse err)
              | inr s => inr {| Segment := Some s;
                                InIfId := uint16 (InIntfID r);
                                EgIfId := 0 |}
              end
          end
      end
  end.

(** [func (e *executor) DeleteExpiredBeacons]:
    DELETE FROM Beacons WHERE ExpirationTime < ? *)
Definition DeleteExpiredBeacons (e : executor) (now : Time)
  : executor * Z * option error' :=
  match db_fault e StmtDelete with
  | Some err => (e, 0, Some err)
  | None =>
      let kept :=
        List.filter (fun r => negb (ExpirationTime r <? Time_Unix now))
                    (db_rows e) in
      (with_rows e kept,
       Z.of_nat (length (db_rows e)) - Z.of_nat (length kept), None)
  end.

(** [func (e *executor) BeaconSources]:
    SELECT DISTINCT StartIsd, StartAs FROM BEACONS
    [rows.Scan] reads the two columns into an [addr.ISD], a [uint16], and
    an [addr.AS], a [uint64], and fails on a value outside their range. *)
Fixpoint BeaconSources_scan (e : executor) (rows : list (Z * Z))
    (ias : list IA) : error' + list IA :=
  match rows with
  | [] =>
      match db_fault e StmtRowsErr with
      | Some err => inl err
      | None => inr ias
      end
  | (isd, as_) :: rest =>
      match db_fault e StmtScanRow with
      | Some err => inl err
      | None =>
          if fits_uint 16 isd && fits_uint 64 as_
          then BeaconSources_scan e rest
                 (ias ++ [ {| IA_I := isd; IA_A := as_ |} ])
          else inl (ErrExternal "sql: Scan error: value out of range")
      end
  end.

Definition BeaconSources (e : executor) : error' + list IA :=
  match db_fault e StmtSelectSources with
  | Some err => inl (db_NewReadError "Error selecting source IAs" err)
  | None =>
      BeaconSources_scan e
        (distinct ((fun r => (StartIsd r, StartAs r)) <$> db_rows e)) []
  end.

(** The result set of the statement of [buildQuery] on the table: the
    selected columns of the rows that satisfy every member of the WHERE
    clause, each combination once, by descending LastUpdated. For nil
    parameters there is neither a WHERE clause nor an ORDER BY. The WHERE
    clause is taken as [buildQuery_where] has it, of which the text of
    [buildQuery] is the rendering (lemma [buildQuery_statement]). *)
Definition GetBeacons_query (rows : list Row) (params : option QueryParams)
  : list Selected :=
  match params with
  | None => distinct (select <$> rows)
  | Some params =>
      let where_ := buildQuery_where params in
      merge_sort newest_first
        (distinct (select <$>
           List.filter (fun r => forallb (fun c => Clause_holds c r) where_) rows))
  end.

(** The loop of [GetBeacons] over the result set. [rows.Scan] reads
    InIntfID into a [uint16] and fails on a value outside its range. *)
Fixpoint GetBeacons_scan (e : executor) (rows : list Selected)
    (res : list StoredBeacon) : error' + list StoredBeacon :=
  match rows with
  | [] =>
      match db_fault e StmtRowsErr with
      | Some err => inl err
      | None => inr res
      end
  | row :: rest =>
      let scanned :=
        match db_fault e StmtScanRow with
        | Some err => Some err
        | None =>
            if fits_uint 16 (sel_InIntfID row) then None
            else Some (ErrExternal "sql: Scan error: value out of range")
        end in
      match scanned with
      | Some err => inl (serrors_WrapStr "reading row" err [])
      | None =>
          match UnpackBeacon (sel_Beacon row) with
          | inl err => inl (serrors_WrapStr "parsing beacon" err [])
          | inr seg =>
              GetBeacons_scan e rest
                (res ++ [ {| sb_Beacon := {| Segment := Some seg;
                                             InIfId := sel_InIntfID row;
                                             EgIfId := 0 |};
                             sb_Usage := sel_Usage row;
                             sb_LastUpdated :=
                               time_Unix 0 (sel_LastUpdated row) |} ])
          end
      end
  end.

(** [func (e *executor) GetBeacons] *)
Definition GetBeacons (e : executor) (params : option QueryParams)
  : error' + list StoredBeacon :=
  let '(stmt, args) := buildQuery params in
  match db_fault e StmtSelectBeacons with
  | Some err =>
      inl (serrors_WrapStr "looking up beacons" err
             [("query"%string, CtxStr stmt)])
  | None => GetBeacons_scan e (GetBeacons_query (db_rows e) params) []
  end.
End Store.

Arguments executor : clear implicits.
Arguments StoredBeacon : clear implicits.

(** ** Targets, interfaces and the collaborators of the PQA backend *)

(** [pqa.Target] *)
Record Target (Quality Direction : Type) : Type := mkTarget {
  Target_Quality : Quality;
  Target_Direction : Direction;
  Target_Uniquifier : Z;
  Target_IA : IA
}.
Arguments mkTarget {Quality Direction} _ _ _ _.
Arguments Target_Quality {Quality Direction} _.
Arguments Target_Direction {Quality Direction} _.
Arguments Target_Uniquifier {Quality Direction} _.
Arguments Target_IA {Quality Direction} _.

(** What this code reads of an [ifstate.Interface]: [TopoInfo().ID] and
    [TopoInfo().IA], the interface identifier and the remote AS. *)
Record Interface : Type := mkInterface { TopoInfo_ID : Z; TopoInfo_IA : IA }.

(** The ranking policy of a target: [Quality.Less] of the extension
    package, [Target.GetMetric] and [Target.ShouldConsider] of package pqa,
    and the constant [pqa_extension.N]. The metric is a [float64] in Go and
    is kept abstract. *)
Class TargetPolicy (Quality Direction Metric : Type) : Type := {
  Quality_Less : Quality → Metric → Metric → bool;
  GetMetric : Target Quality Direction → Beacon Quality Direction → Metric;
  ShouldConsider : Target Quality Direction → Beacon Quality Direction → bool;
  pqa_extension_N : nat
}.

(** The target index of package targetstore. *)
Class TargetStore (Quality Direction : Type) : Type := {
  Targets : Type;
  AssociateBeacon : Targets → Z → Target Quality Direction → Targets;
  GetBeaconIdsForTarget : Targets → Target Quality Direction → list Z
}.

(** [GetBeaconsById] of the beacon store, whose body is not embedded here:
    like every Go function of its type it hands back a slice and an
    error. *)
Class BeaconsById (Quality Direction : Type) : Type :=
  GetBeaconsById : executor Quality Direction → list Z →
                   list (Beacon Quality Direction) *
                   option (error Quality Direction).

(** The extender and the interface grouping the propagation mechanism is
    configured with. [Extender_Extend seg ingress egress] is the segment
    after the call, which extends it in place, and the error returned. *)
Class Collaborators (Quality Direction : Type) : Type := {
  Extender_Extend : option (PathSegment Quality Direction) → Z → Z →
                    option (PathSegment Quality Direction) *
                    option (error Quality Direction);
  GetInterfaceGroups : Quality → Direction → list (list Interface)
}.

(** [sort.Slice] of the Go standard library. The closure it is given
    compares the elements at two indices of the slice as it currently is. *)
Class SortLib : Type := {
  sort_Slice : ∀ {A : Type}, list A → (list A → nat → nat → bool) → list A
}.

(** The closure [less] of [GetNBestsForGroup] and [getNBest] is of this
    shape: it reads the two elements and compares them by value. An index
    outside the slice would panic; [sort.Slice] passes none. *)
Definition index_less {A : Type} (lt : A → A → bool) (s : list A) (l r : nat)
  : bool :=
  match s !! l, s !! r with
  | Some x, Some y => lt x y
  | _, _ => false
  end.

(** What the documentation of [sort.Slice] promises: the slice is
    rearranged, and it is sorted whenever [less] is a transitive ordering
    of its elements (both [less] and its complement transitive). Nothing is
    promised about the order of elements that compare equal. *)
Definition StrictWeakOrderOn {A : Type} (l : list A) (lt : A → A → bool) : Prop :=
  (∀ x, x ∈ l → lt x x = false) ∧
  (∀ x y z, x ∈ l → y ∈ l → z ∈ l →
     lt x y = true → lt y z = true → lt x z = true) ∧
  (∀ x y z, x ∈ l → y ∈ l → z ∈ l →
     lt x y = false → lt y z = false → lt x z = false).

(** [x] is placed before [y] in a sorted slice only if [y] is not less
    than [x]. *)
Definition not_after {A : Type} (lt : A → A → bool) (x y : A) : Prop :=
  lt y x = false.

Definition sort_Slice_permutes (S : SortLib) : Prop :=
  ∀ (A : Type) (x : list A) (less : list A → nat → nat → bool),
    sort_Slice x less ≡ₚ x.

Definition sort_Slice_sorts (S : SortLib) : Prop :=
  ∀ (A : Type) (x : list A) (lt : A → A → bool),
    StrictWeakOrderOn x lt →
    StronglySorted (not_after lt) (sort_Slice x (index_less lt)).

(** *** [sort.Slice] on short slices

    [sort.Slice] runs [quickSort_func] on the whole slice. Go releases up
    to 1.18 finish every range of at most 12 elements with one pass of gap
    6 followed by an insertion sort; that branch is embedded below. Applied
    to a slice of any length it is a sort that meets the contract above,
    and on slices of up to 12 elements it is what those releases compute. *)

Module GoSort.
Section GoSort.
Context {A : Type}.
Local Open Scope nat_scope.
Implicit Types (data : list A) (less : list A → nat → nat → bool).

(** [data.Swap(i, j)] of the swapper [sort.Slice] builds for a slice. *)
Definition Swap (data : list A) (i j : nat) : list A :=
  match data !! i, data !! j with
  | Some x, Some y => <[j := x]> (<[i := y]> data)
  | _, _ => data
  end.

(** The inner loop of [insertionSort_func]:
    [for j := i; j > a && data.Less(j, j-1); j-- { data.Swap(j, j-1) }] *)
Fixpoint insertionSort_inner less (a j : nat) (data : list A) : list A :=
  match j with
  | O => data
  | S j' =>
      if (a <? j)%nat && less data j j'
      then insertionSort_inner less a j' (Swap data j j')
      else data
  end.

(** The outer loop, [for i := a + 1; i < b; i++], with the number of
    iterations left. *)
Fixpoint insertionSort_outer less (a i left : nat) (data : list A) : list A :=
  match left with
  | O => data
  | S left' =>
      insertionSort_outer less a (S i) left' (insertionSort_inner less a i data)
  end.

(** [func insertionSort_func(data lessSwap, a, b int)] *)
Definition insertionSort_func less (data : list A) (a b : nat) : list A :=
  insertionSort_outer less a (a + 1) (b - (a + 1)) data.

(** The pass with gap 6 of [quickSort_func]:
    [for i := a + 6; i < b; i++ { if data.Less(i, i-6) { data.Swap(i, i-6) } }] *)
Fixpoint shellPass less (i left : nat) (data : list A) : list A :=
  match left with
  | O => data
  | S left' =>
      shellPass less (S i) left'
        (if less data i (i - 6) then Swap data i (i - 6) else data)
  end.

(** What [quickSort_func] does to a range of at most 12 elements. *)
Definition quickSort_func_small less (data : list A) (a b : nat) : list A :=
  if (1 <? b - a)%nat
  then insertionSort_func less (shellPass less (a + 6) (b - (a + 6)) data) a b
  else data.

(** [func Slice(x interface{}, less func(i, j int) bool)] *)
Definition Slice (x : list A) less : list A :=
  quickSort_func_small less x 0 (length x).
End GoSort.
End GoSort.

Section FilterLoop.
Context {Quality Direction : Type}.

(** Modelled from the spec: [beacon.FilterLoop] is declared in a file of
    package beacon that is not embedded here. Section 4.6, step 4: "reject
    any beacon whose segment already traverses that AS". The result is the
    error of the rejection, or nil. *)
Definition FilterLoop (b : Beacon Quality Direction) (next : IA)
    (allowIsdLoop : bool) : option (error Quality Direction) :=
  match Segment b with
  | None => None
  | Some s =>
      if existsb (fun e => IA_Equal (Local e) next) (ASEntries s)
      then Some (serrors_New "AS loop" [])
      else None
  end.

(** The segment of [b] traverses the AS [x]. *)
Definition traverses (b : Beacon Quality Direction) (x : IA) : Prop :=
  ∃ s, Segment b = Some s ∧ x ∈ Local <$> ASEntries s.
End FilterLoop.

(** ** The PQA backend (go/pkg/storage/pqa/memory/pqa.go) *)

Module PqaMemoryBackend.
Section PqaMemoryBackend.
Context {Quality Direction Metric : Type}.
Context `{!SegLib Quality Direction}.
Context `{!TargetPolicy Quality Direction Metric}.
Context `{!TargetStore Quality Direction}.
Context `{!BeaconsById Quality Direction}.
Context `{!SortLib}.
Abbreviation Beacon' := (Beacon Quality Direction).
Abbreviation error' := (error Quality Direction).
Abbreviation LogEntry' := (LogEntry Quality Direction).
Abbreviation Target' := (Target Quality Direction).
Abbreviation executor' := (executor Quality Direction).

(** [type PqaMemoryBackend struct { *Beacons; *targetstore.Targets }] *)
Record t : Type := mk { Beacons : executor'; Targets_ : Targets }.

(** [b.Beacons.InsertBeacon]: the method of the embedded store. *)
Abbreviation Beacons_InsertBeacon := InsertBeacon.

(** [func (b *PqaMemoryBackend) InsertBeacon]: the new backend, the stats,
    the error and the lines logged. *)
Definition InsertBeacon (b : t) (bcn : Beacon') (usage : Z) (now : Time)
  : Outcome (t * InsertStats * option error' * list LogEntry') :=
  (* Store beacon in normal beacon storage *)
  '(beacons, stats, err) ← Beacons_InsertBeacon (Beacons b) bcn usage now;
  let b := {| Beacons := beacons; Targets_ := Targets_ b |} in
  match err with
  | Some err => Ret (b, stats, Some err, [])
  | None =>
      (* bcn.Segment.ASEntries[0].Extensions.PqaExtension *)
      match Segment bcn with
      | None => Panic
      | Some seg =>
          match ASEntries seg with
          | [] => Panic
          | asEntry0 :: _ =>
              match Extensions_PqaExtension asEntry0 with
              | None =>
                  Ret (b, stats, None,
                       [mkLogEntry LvlDebug "Inserted beacon without extension."
                                   None []])
              | Some pqaExtension0 =>
                  let log := [mkLogEntry LvlDebug "Got beacon with extension"
                                         None []] in
                  firstIA ← FirstIA seg;
                  let target :=
                    {| Target_Quality := ext_Quality pqaExtension0;
                       Target_Direction := ext_Direction pqaExtension0;
                       Target_Uniquifier :=
                         ext_Uniquifier pqaExtension0 mod 2 ^ 32;
                       Target_IA := firstIA |} in
                  '(beaconID, err) ← getBeaconID (Beacons b) bcn;
                  match err with
                  | Some err => Ret (b, stats, Some err, log)
                  | None =>
                      Ret ({| Beacons := Beacons b;
                              Targets_ := AssociateBeacon (Targets_ b)
                                            beaconID target |},
                           stats, None, log)
                  end
              end
          end
      end
  end.

(** [applyFilter] of [GetNBestsForGroup]. *)
Definition applyFilter (bcns : list Beacon') (filter : Beacon' → bool)
  : list Beacon' :=
  foldl (fun filtered bcn => if filter bcn then filtered ++ [bcn] else filtered)
        [] bcns.

(** The closure [less] of [GetNBestsForGroup] and of [getNBest]. *)
Definition less (target : Target') : list Beacon' → nat → nat → bool :=
  index_less (fun lBcn rBcn =>
    let lMet := GetMetric target lBcn in
    let rMet := GetMetric target rBcn in
    Quality_Less (Target_Quality target) lMet rMet).

(** The three filters of [GetNBestsForGroup]. *)
Definition entered_through (ingressIntfs : list Interface) (bcn : Beacon') : bool :=
  existsb (fun ingressIntf => TopoInfo_ID ingressIntf =? InIfId bcn) ingressIntfs.

Definition would_not_loop (excludeLooping : IA) (bcn : Beacon') : bool :=
  match FilterLoop bcn excludeLooping true with
  | Some _ => false
  | None => true
  end.

(** [func (b *PqaMemoryBackend) GetNBestsForGroup]: the beacons, the error
    and the lines logged. *)
Definition GetNBestsForGroup (b : t) (src : IA) (target : Target')
    (ingressIntfs : list Interface) (excludeLooping : IA)
  : list Beacon' * option error' * list LogEntry' :=
  (* Get beaconIds that are associated with the target *)
  let bcnIds := GetBeaconIdsForTarget (Targets_ b) target in
  if (length bcnIds =? 0)%nat then ([], None, [])
  else
    (* Get beacons from beacon ids *)
    let '(bcnCandidates, err) := GetBeaconsById (Beacons b) bcnIds in
    let log :=
      match err with
      | Some err => [mkLogEntry LvlError "Fetching beacons" (Some err) []]
      | None => []
      end in
    let bcnCandidates := applyFilter bcnCandidates (entered_through ingressIntfs) in
    let bcnCandidates := applyFilter bcnCandidates (would_not_loop excludeLooping) in
    let bcnCandidates := applyFilter bcnCandidates (ShouldConsider target) in
    (* Sort beacons by quality metric *)
    let bcnCandidates := sort_Slice bcnCandidates (less target) in
    (* Return up to the first n beacons *)
    let bcnCandidates :=
      if (pqa_extension_N <? length bcnCandidates)%nat
      then take pqa_extension_N bcnCandidates
      else bcnCandidates in
    (bcnCandidates, None, log).
End PqaMemoryBackend.
End PqaMemoryBackend.

Arguments PqaMemoryBackend.t Quality Direction {_}.

(** ** The propagation mechanism (package pqa) *)

Module Mechanism.
Section Mechanism.
Context {Quality Direction Metric : Type}.
Context `{!SegLib Quality Direction}.
Context `{!TargetPolicy Quality Direction Metric}.
Context `{!TargetStore Quality Direction}.
Context `{!BeaconsById Quality Direction}.
Context `{!Collaborators Quality Direction}.
Context `{!SortLib}.
Abbreviation Beacon' := (Beacon Quality Direction).
Abbreviation error' := (error Quality Direction).
Abbreviation LogEntry' := (LogEntry Quality Direction).
Abbreviation Target' := (Target Quality Direction).

(** What the functions below use of [type Mechanism struct]: the backend
    behind [GetNBestsForGroup] and the interfaces of [AllInterfaces.All()]. *)
Record t : Type := mk {
  DB : PqaMemoryBackend.t Quality Direction;
  AllInterfaces_All : list Interface
}.

(** [func (m Mechanism) getIntfGroups] *)
Definition getIntfGroups (m : t) (target : Target') : list (list Interface) :=
  GetInterfaceGroups (Target_Quality target) (Target_Direction target).

(** [func (m Mechanism) getIntfSubgroups] *)
Definition getIntfSubgroups (m : t) (target : Target') (to : IA)
  : list (list Interface) :=
  foldl (fun res intfG =>
           let intfSubg :=
             foldl (fun intfSubg intf =>
                      if bool_decide (TopoInfo_IA intf = to)
                      then intfSubg ++ [intf] else intfSubg) [] intfG in
           res ++ [intfSubg])
        [] (getIntfGroups m target).

(** [func (m Mechanism) getNBestFor]: the beacons and the lines logged. *)
Definition getNBestFor (m : t) (src : IA) (target : Target')
    (egIntfG : list Interface) (neigh : IA) : list Beacon' * list LogEntry' :=
  let '(bcns, err, log) :=
    PqaMemoryBackend.GetNBestsForGroup (DB m) src target egIntfG neigh in
  match err with
  | Some err =>
      ([], log ++ [mkLogEntry LvlError "getting n-best beacons" (Some err) []])
  | None => (bcns, log)
  end.

(** [func (m Mechanism) getNBest] *)
Definition getNBest (m : t) (target : Target') (bcn : list Beacon')
  : list Beacon' :=
  let bcn := sort_Slice bcn (PqaMemoryBackend.less target) in
  if (pqa_extension_N <? length bcn)%nat then take pqa_extension_N bcn
  else bcn.

(** The innermost loop of [getPropagationBatch], over the beacons of
    [getNBestFor]: the error that ends the call, or the batch so far. *)
Fixpoint getPropagationBatch_bcns (target : Target') (egIntf : Interface)
    (bcns : list Beacon') (batch : list Beacon') (log : list LogEntry')
  : (error' + list Beacon') * list LogEntry' :=
  match bcns with
  | [] => (inr batch, log)
  | bcn :: rest =>
      let ingress := InIfId bcn in
      let egress := TopoInfo_ID egIntf in
      let log :=
        if egress =? 0
        then log ++ [mkLogEntry LvlError "egress interface ID is 0" None
                       [("ingress"%string, CtxInt ingress);
                        ("egress"%string, CtxInt egress)]]
        else log in
      let '(seg, err) := Extender_Extend (Segment bcn) ingress egress in
      let bcn := {| Segment := seg; InIfId := InIfId bcn; EgIfId := egress |} in
      match err with
      | Some err =>
          (inl (serrors_WrapStr "extending beacons" err
                  [("ingress"%string, CtxInt ingress);
                   ("egress"%string, CtxInt egress);
                   ("seg"%string, CtxSeg (Segment bcn))]), log)
      | None =>
          getPropagationBatch_bcns target egIntf rest
            (if ShouldConsider target bcn then batch ++ [bcn] else batch) log
      end
  end.

(** The loop over the egress interfaces. *)
Fixpoint getPropagationBatch_egIntfs (m : t) (target : Target')
    (igIntfG : list Interface) (neigh src : IA) (egIntfG : list Interface)
    (batch : list Beacon') (log : list LogEntry')
  : (error' + list Beacon') * list LogEntry' :=
  match egIntfG with
  | [] => (inr batch, log)
  | egIntf :: rest =>
      let '(bcns, log') := getNBestFor m src target igIntfG neigh in
      match getPropagationBatch_bcns target egIntf bcns batch (log ++ log') with
      | (inl err, log) => (inl err, log)
      | (inr batch, log) =>
          getPropagationBatch_egIntfs m target igIntfG neigh src rest batch log
      end
  end.

(** The loop over the interface groups. *)
Fixpoint getPropagationBatch_igIntfGs (m : t) (target : Target')
    (egIntfG : list Interface) (neigh src : IA)
    (igIntfGs : list (list Interface))
    (batch : list Beacon') (log : list LogEntry')
  : (error' + list Beacon') * list LogEntry' :=
  match igIntfGs with
  | [] => (inr batch, log)
  | igIntfG :: rest =>
      match getPropagationBatch_egIntfs m target igIntfG neigh src egIntfG
              batch log with
      | (inl err, log) => (inl err, log)
      | (inr batch, log) =>
          getPropagationBatch_igIntfGs m target egIntfG neigh src rest batch log
      end
  end.

(** [func (m Mechanism) getPropagationBatch]: the batch, the error and the
    lines logged. *)
Definition getPropagationBatch (m : t) (target : Target')
    (egIntfG : list Interface) (neigh src : IA)
  : list Beacon' * option error' * list LogEntry' :=
  match getPropagationBatch_igIntfGs m target egIntfG neigh src
          (getIntfGroups m target) [] [] with
  | (inl err, log) => ([], Some err, log)
  | (inr batch, log) => (getNBest m target batch, None, log)
  end.

(** [func (m Mechanism) getSourceIAs]: the sources and the lines logged.
    [BeaconSources] is the method of the beacon store behind [m]. *)
Definition getSourceIAs (m : t) : list IA * list LogEntry' :=
  match BeaconSources (PqaMemoryBackend.Beacons (DB m)) with
  | inl err =>
      ([], [mkLogEntry LvlError "getting beacon sources" (Some err) []])
  | inr addrs => (addrs, [])
  end.

(** [func (m Mechanism) getNeighbouringASs]. Go ranges over a map in an
    order of its choosing; [map_to_list] fixes one. *)
Definition getNeighbouringASs (m : t) : list IA :=
  (* Find set of all IAs contained in AllInterfaces *)
  let set : gmap IA bool :=
    foldl (fun set neigh => <[TopoInfo_IA neigh := true]> set) ∅
          (AllInterfaces_All m) in
  (* Turn to list *)
  let res := replicate (size set) IA_zero in
  foldl (fun res neigh => res ++ [neigh]) res (map_to_list set).*1.
End Mechanism.
End Mechanism.

(** * The vocabulary of the properties *)

Section StoreVocabulary.
Context {Quality Direction : Type} `{!SegLib Quality Direction}.
Abbreviation Beacon' := (Beacon Quality Direction).
Abbreviation PathSegment' := (PathSegment Quality Direction).
Abbreviation executor' := (executor Quality Direction).

(** The record of [InsertBeacon]'s lookup: the first row with the segment's
    identity. *)
Definition record_of (e : executor') (seg : PathSegment') : option Row :=
  List.find (fun r => bool_decide (SegID r = Segment_ID seg)) (db_rows e).

(** The row a first insert of [b] adds. *)
Definition inserted_row (e : executor') (b : Beacon') (seg : PathSegment')
    (start : IA) (usage : Z) (now : Time) (packed : RawBytes) : Row :=
  {| RowID := next_RowID (db_rows e); SegID := Segment_ID seg;
     FullID := Segment_FullID seg; StartIsd := IA_I start;
     StartAs := IA_A start; InIntfID := InIfId b;
     HopsLength := Z.of_nat (length (ASEntries seg));
     InfoTime := Time_Unix (Info_Timestamp seg);
     ExpirationTime := Time_Unix (Segment_MaxExpiry seg);
     LastUpdated := Time_UnixNano now; Usage := usage;
     Beacon_col := packed |}.

(** The table after a newer beacon [b] has replaced the mutable fields of
    the rows with identifier [rowID]. *)
Definition refreshed_rows (e : executor') (b : Beacon') (seg : PathSegment')
    (rowID : Z) (usage : Z) (now : Time) (packed : RawBytes) : list Row :=
  (fun r0 =>
     if bool_decide (RowID r0 = rowID)
     then updated_row r0 (Segment_FullID seg) (InIfId b)
            (Z.of_nat (length (ASEntries seg)))
            (Time_Unix (Info_Timestamp seg))
            (Time_Unix (Segment_MaxExpiry seg))
            (Time_UnixNano now) usage packed
     else r0) <$> db_rows e.

(** The invariant of the data model: no two records have the same
    identity. *)
Definition SegID_unique (e : executor') : Prop := NoDup (SegID <$> db_rows e).

(** The beacon [CandidateBeacons] makes of a selected row. *)
Definition decodes_to (r : Row) (b : Beacon') : Prop :=
  ∃ s, UnpackBeacon (Beacon_col r) = inr s ∧
       b = {| Segment := Some s; InIfId := uint16 (InIntfID r); EgIfId := 0 |}.

(** The stored beacon [GetBeacons] makes of a row of its result set. *)
Definition scans_to (s : Selected) (sb : StoredBeacon Quality Direction) : Prop :=
  ∃ seg, UnpackBeacon (sel_Beacon s) = inr seg ∧
    sb = {| sb_Beacon := {| Segment := Some seg; InIfId := sel_InIntfID s;
                            EgIfId := 0 |};
            sb_Usage := sel_Usage s;
            sb_LastUpdated := time_Unix 0 (sel_LastUpdated s) |}.
End StoreVocabulary.

Section QueryVocabulary.

(** The conditions one origin of [StartsAt] and one usage of [Usages]
    contribute. *)
Definition StartsAt_cond (as_ : IA) : list Cond :=
  if IA_IsZero as_ then []
  else if IA_I as_ =? 0 then [StartAsIs (IA_A as_)]
  else if IA_A as_ =? 0 then [StartIsdIs (IA_I as_)]
  else [StartIs (IA_I as_) (IA_A as_)].

Definition Usages_cond (u : Z) : list Cond :=
  if 0 <? u then [UsageHas u] else [].

(** What the parameters ask of a record. *)
Definition matches (params : QueryParams) (r : Row) : Prop :=
  (SegIDs params = [] ∨
   ∃ segID, segID ∈ SegIDs params ∧ segID `prefix_of` SegID r) ∧
  ((∀ ia, ia ∈ StartsAt params → IA_IsZero ia = true) ∨
   ∃ ia, ia ∈ StartsAt params ∧ IA_IsZero ia = false ∧
         (IA_I ia = 0 ∨ IA_I ia = StartIsd r) ∧
         (IA_A ia = 0 ∨ IA_A ia = StartAs r)) ∧
  (IngressInterfaces params = [] ∨ InIntfID r ∈ IngressInterfaces params) ∧
  ((∀ u, u ∈ Usages params → u ≤ 0) ∨
   ∃ u, u ∈ Usages params ∧ 0 < u ∧ Z.land (Usage r) u = u) ∧
  (Time_IsZero (ValidAt params) = true ∨
   InfoTime r ≤ Time_Unix (ValidAt params) ≤ ExpirationTime r).
End QueryVocabulary.

Section OrderVocabulary.
Context {A : Type} (lt : A → A → bool).

(** In [out], an element that is less than another comes before it. *)
Definition less_first (out : list A) : Prop :=
  ∀ i j x y, out !! i = Some x → out !! j = Some y → lt x y = true → (i < j)%nat.

(** Stability: two elements of [l] of which neither is less than the other
    are in [out] in the order they had in [l]. *)
Definition keeps_tie_order (l out : list A) : Prop :=
  ∀ i j x y,
    (i < j)%nat → l !! i = Some x → l !! j = Some y →
    lt x y = false → lt y x = false →
    ∃ i' j', (i' < j')%nat ∧ out !! i' = Some x ∧ out !! j' = Some y.

(** [out], which repeats no element, has swapped two tied elements of [l]. *)
Definition swaps_a_tie (l out : list A) : Prop :=
  ∃ i j i' j' x y,
    (i < j)%nat ∧ l !! i = Some x ∧ l !! j = Some y ∧
    lt x y = false ∧ lt y x = false ∧
    NoDup out ∧ out !! i' = Some x ∧ out !! j' = Some y ∧ (j' < i')%nat.
End OrderVocabulary.

Section BackendVocabulary.
Context {Quality Direction Metric : Type}.
Context `{!TargetPolicy Quality Direction Metric}.
Abbreviation Beacon' := (Beacon Quality Direction).
Abbreviation Target' := (Target Quality Direction).

(** [x] is better than [y] for [target]: what the closure [less] computes
    on two beacons. *)
Definition better (target : Target') (x y : Beacon') : bool :=
  Quality_Less (Target_Quality target) (GetMetric target x) (GetMetric target y).

(** The candidates [GetNBestsForGroup] sorts: the fetched beacons that pass
    its three filters. *)
Definition passing (target : Target') (ingressIntfs : list Interface)
    (excludeLooping : IA) (fetched : list Beacon') : list Beacon' :=
  List.filter (ShouldConsider target)
    (List.filter (PqaMemoryBackend.would_not_loop excludeLooping)
       (List.filter (PqaMemoryBackend.entered_through ingressIntfs) fetched)).
End BackendVocabulary.

Section MechanismVocabulary.
Context {Quality Direction Metric : Type}.
Context `{!SegLib Quality Direction}.
Context `{!TargetPolicy Quality Direction Metric}.
Context `{!TargetStore Quality Direction}.
Context `{!BeaconsById Quality Direction}.
Context `{!Collaborators Quality Direction}.
Context `{!SortLib}.
Abbreviation Beacon' := (Beacon Quality Direction).
Abbreviation error' := (error Quality Direction).
Abbreviation Target' := (Target Quality Direction).
Abbreviation Mech := (@Mechanism.t Quality Direction _).

(** The beacon [getPropagationBatch] makes of a candidate for an egress
    interface, and the error of the extender on it. *)
Definition extended (cand : Beacon') (egIntf : Interface) : Beacon' :=
  {| Segment := (Extender_Extend (Segment cand) (InIfId cand)
                   (TopoInfo_ID egIntf)).1;
     InIfId := InIfId cand;
     EgIfId := TopoInfo_ID egIntf |}.

Definition Extend_error (cand : Beacon') (egIntf : Interface) : option error' :=
  (Extender_Extend (Segment cand) (InIfId cand) (TopoInfo_ID egIntf)).2.

(** [cand] is one of the candidates [getPropagationBatch] extends towards
    the egress interface [egIntf]. *)
Definition candidate (m : Mech) (target : Target') (egIntfG : list Interface)
    (neigh src : IA) (cand : Beacon') (egIntf : Interface) : Prop :=
  ∃ igIntfG, igIntfG ∈ Mechanism.getIntfGroups m target ∧ egIntf ∈ egIntfG ∧
             cand ∈ (Mechanism.getNBestFor m src target igIntfG neigh).1.

(** The error [getPropagationBatch] returns when the extender fails with
    [err] on [cand]. *)
Definition extension_error (cand : Beacon') (egIntf : Interface) (err : error')
  : error' :=
  serrors_WrapStr "extending beacons" err
    [("ingress"%string, CtxInt (InIfId cand));
     ("egress"%string, CtxInt (TopoInfo_ID egIntf));
     ("seg"%string, CtxSeg (Segment (extended cand egIntf)))].

(** The line [getPropagationBatch] logs for a beacon it extends towards an
    egress interface with identifier 0. *)
Definition egress_zero_line (cand : Beacon')
  : LogEntry Quality Direction :=
  mkLogEntry LvlError "egress interface ID is 0" None
    [("ingress"%string, CtxInt (InIfId cand)); ("egress"%string, CtxInt 0)].
End MechanismVocabulary.

(** * The test bed

    Concrete collaborators on which the functions above run: a codec and
    identities for segments, a ranking policy, a target index, a fetch by
    identifiers, an extender, and [sort.Slice] as Go runs it on short
    slices. *)

Module TestBed.

(** One quality and one direction. *)
Definition Quality : Type := unit.
Definition Direction : Type := unit.
Definition Beacon' : Type := Beacon Quality Direction.
Definition PathSegment' : Type := PathSegment Quality Direction.
Definition ASEntry' : Type := ASEntry Quality Direction.
Definition error' : Type := error Quality Direction.
Definition Target' : Type := Target Quality Direction.

Definition byte_of_Z (z : Z) : Byte.byte :=
  default Byte.x00 (Byte.of_N (Z.to_N (z mod 256))).
Definition Z_of_byte (b : Byte.byte) : Z := Z.of_N (Byte.to_N b).

(** The packed form: the timestamp in seconds, then five bytes per AS
    entry (ISD, AS, ingress, egress, extension). Numbers are below 256. *)
Definition pack_entry (e : ASEntry') : RawBytes :=
  [byte_of_Z (IA_I (Local e)); byte_of_Z (IA_A (Local e));
   byte_of_Z (ConsIngress (HopEntry_HopField e));
   byte_of_Z (ConsEgress (HopEntry_HopField e));
   match Extensions_PqaExtension e with
   | None => Byte.x00
   | Some ext => byte_of_Z (1 + ext_Uniquifier ext)
   end].

Definition pack (seg : PathSegment') : RawBytes :=
  byte_of_Z (Time_Unix (Info_Timestamp seg)) ::
  concat (pack_entry <$> ASEntries seg).

Fixpoint unpack_entries (raw : RawBytes) : option (list ASEntry') :=
  match raw with
  | [] => Some []
  | i :: a :: ci :: ce :: x :: rest =>
      entries ← unpack_entries rest;
      Some ({| Local := mkIA (Z_of_byte i) (Z_of_byte a);
               HopEntry_HopField := mkHopField (Z_of_byte ci) (Z_of_byte ce);
               Extensions_PqaExtension :=
                 if Z_of_byte x =? 0 then None
                 else Some (mkPqaExtension tt tt (Z_of_byte x - 1)) |}
            :: entries)
  | _ => None
  end.

Definition unpack (raw : RawBytes) : error' + PathSegment' :=
  match raw with
  | [] => inl (ErrExternal "empty beacon")
  | t :: rest =>
      match unpack_entries rest with
      | None => inl (ErrExternal "truncated beacon")
      | Some entries => inr (mkPathSegment (time_Unix (Z_of_byte t) 0) entries)
      end
  end.

(** The identity of a segment is made of its hops; the full identity also
    of its timestamp. A segment lives for six hours. *)
Definition hop_bytes (e : ASEntry') : RawBytes :=
  [byte_of_Z (IA_I (Local e)); byte_of_Z (IA_A (Local e));
   byte_of_Z (ConsIngress (HopEntry_HopField e));
   byte_of_Z (ConsEgress (HopEntry_HopField e))].

#[global] Instance segLib : SegLib Quality Direction := {|
  Segment_ID seg := concat (hop_bytes <$> ASEntries seg);
  Segment_FullID seg := pack seg;
  Segment_MaxExpiry seg := Info_Timestamp seg + time_Unix 21600 0;
  PackBeacon seg := inr (pack seg);
  UnpackBeacon := unpack;
  ErrReadingRows := "Failed to read rows";
  ErrParse := "Failed to parse entry"
|}.

(** The lower metric is the better one; the metric of a beacon is its
    number of hops. Every beacon is considered. *)
Definition policy (n : nat) : TargetPolicy Quality Direction Z := {|
  Quality_Less _ a b := a <? b;
  GetMetric _ bcn :=
    match Segment bcn with
    | Some seg => Z.of_nat (length (ASEntries seg))
    | None => 0
    end;
  ShouldConsider _ _ := true;
  pqa_extension_N := n
|}.

#[global] Instance Target_eq_dec : EqDecision Target'.
Proof. solve_decision. Defined.

(** Modelled from the spec: the target index of package targetstore is
    not embedded here. Section 4.4: associations of a stored
    identity with a target accumulate, associating a pair again changes
    nothing, and the identities of a target are those associated with
    exactly this target, none if there is no association. *)
#[global] Instance targetStore : TargetStore Quality Direction := {|
  Targets := list (Z * Target');
  AssociateBeacon ts rowID target :=
    if decide ((rowID, target) ∈ ts) then ts else ts ++ [(rowID, target)];
  GetBeaconIdsForTarget ts target :=
    (List.filter (fun p => bool_decide (p.2 = target)) ts).*1
|}.

(** A fetch by identifiers that asks [GetBeaconById] for one after the
    other and gives up, with no beacons, at the first error. *)
Fixpoint GetBeaconsById_from (e : executor Quality Direction) (ids : list Z)
    (acc : list Beacon') : list Beacon' * option error' :=
  match ids with
  | [] => (acc, None)
  | id :: rest =>
      match GetBeaconById e id with
      | inl err => ([], Some err)
      | inr b => GetBeaconsById_from e rest (acc ++ [b])
      end
  end.

#[global] Instance beaconsById : BeaconsById Quality Direction :=
  fun e ids => GetBeaconsById_from e ids [].

(** The local AS and an extender that appends its hop; it fails on the
    egress interface 12, which is down. *)
Definition localIA : IA := mkIA 1 110.

#[global] Instance extender : Collaborators Quality Direction := {|
  Extender_Extend seg ingress egress :=
    match seg with
    | None => (None, Some (ErrExternal "no segment"))
    | Some s =>
        if egress =? 12 then (seg, Some (ErrExternal "interface is down"))
        else (Some (mkPathSegment (Info_Timestamp s)
                      (ASEntries s ++
                         [mkASEntry localIA (mkHopField ingress egress) None])),
              None)
    end;
  GetInterfaceGroups _ _ := [[mkInterface 1 (mkIA 1 101)];
                             [mkInterface 2 (mkIA 1 102)]]
|}.

#[global] Instance goSort : SortLib := {| sort_Slice A := GoSort.Slice |}.

(** ** Beacons and stores of the test bed *)

Definition origin : IA := mkIA 1 100.

(** The hop of the origin AS, with the PQA extension of uniquifier 7, and a
    hop of a transit AS. *)
Definition first_hop : ASEntry' :=
  mkASEntry origin (mkHopField 0 1) (Some (mkPqaExtension tt tt 7)).
Definition hop (a : Z) : ASEntry' := mkASEntry (mkIA 1 a) (mkHopField 1 2) None.

(** The segment originated at second [t] that runs through the ASes of
    [path], and the beacon received with it on interface [inIfId]. *)
Definition seg_via (t : Z) (path : list Z) : PathSegment' :=
  mkPathSegment (time_Unix t 0) (first_hop :: (hop <$> path)).
Definition beacon_via (t : Z) (path : list Z) (inIfId : Z) : Beacon' :=
  mkBeacon (Some (seg_via t path)) inIfId 0.

Definition target7 : Target' := mkTarget tt tt 7 origin.

Definition Backend : Type := PqaMemoryBackend.t Quality Direction.

Definition no_fault : Stmt → option error' := fun _ => None.

Definition empty : Backend :=
  PqaMemoryBackend.mk (mkExecutor [] no_fault localIA) ([] : list (Z * Target')).

(** The backend after the beacons of [bcns] have been inserted into [b], one
    after the other, with usage 1. *)
Fixpoint insert_all (b : Backend) (bcns : list Beacon') (now : Time)
  : Outcome Backend :=
  match bcns with
  | [] => Ret b
  | bcn :: rest =>
      '(b', _, _, _) ← PqaMemoryBackend.InsertBeacon b bcn 1 now;
      insert_all b' rest now
  end.

Definition backend_of (bcns : list Beacon') : Backend :=
  match insert_all empty bcns (time_Unix 60 0) with
  | Ret b => b
  | Panic => empty
  end.

(** Five beacons of 5, 1, 4, 2 and 3 hops. *)
Definition hops5 : Beacon' := beacon_via 50 [121; 122; 123; 124] 1.
Definition hops1 : Beacon' := beacon_via 50 [] 1.
Definition hops4 : Beacon' := beacon_via 50 [131; 132; 133] 1.
Definition hops2 : Beacon' := beacon_via 50 [141] 1.
Definition hops3 : Beacon' := beacon_via 50 [151; 152] 1.
Definition five : list Beacon' := [hops5; hops1; hops4; hops2; hops3].

(** Seven beacons: six of 2 hops, then one of 1 hop. *)
Definition tied (a : Z) : Beacon' := beacon_via 50 [a] 1.
Definition seven : list Beacon' :=
  [tied 161; tied 162; tied 163; tied 164; tied 165; tied 166; hops1].

Definition if1 : Interface := mkInterface 1 (mkIA 1 101).
Definition if11 : Interface := mkInterface 11 (mkIA 1 200).
Definition if12 : Interface := mkInterface 12 (mkIA 1 200).
Definition neighbour : IA := mkIA 1 200.

(** Two beacons with links {(1-1,5),(1-2,7)} and {(1-1,5)}. *)
Definition beaconA : Beacon' :=
  mkBeacon (Some (mkPathSegment 0 [mkASEntry (mkIA 1 1) (mkHopField 5 0) None;
                                   mkASEntry (mkIA 1 2) (mkHopField 7 0) None]))
           0 0.
Definition beaconB : Beacon' :=
  mkBeacon (Some (mkPathSegment 0 [mkASEntry (mkIA 1 1) (mkHopField 5 0) None]))
           0 0.

(** Two beacons with links {(1-1,5),(1-1,7),(1-2,5)} and {(1-1,5)}: two
    links of the first are of one AS and differ in the ingress interface,
    two are on one ingress interface and differ in the AS. The egress
    interfaces of the four entries are 1, 2, 3 and 9. *)
Definition beaconC : Beacon' :=
  mkBeacon (Some (mkPathSegment 0 [mkASEntry (mkIA 1 1) (mkHopField 5 1) None;
                                   mkASEntry (mkIA 1 1) (mkHopField 7 2) None;
                                   mkASEntry (mkIA 1 2) (mkHopField 5 3) None]))
           0 0.
Definition beaconD : Beacon' :=
  mkBeacon (Some (mkPathSegment 0 [mkASEntry (mkIA 1 1) (mkHopField 5 9) None]))
           0 0.

(** A beacon without a segment. *)
Definition no_segment : Beacon' := mkBeacon None 0 0.

(** The store that holds the beacon of two hops, and the store that holds
    the five beacons. *)
Definition store1 : executor Quality Direction :=
  PqaMemoryBackend.Beacons (backend_of [hops2]).
Definition store5 : executor Quality Direction :=
  PqaMemoryBackend.Beacons (backend_of five).

(** A beacon whose first AS entry has no PQA extension and whose second
    has one; a segment without AS entries, and a store with a record of
    its identity. *)
Definition late_extension : Beacon' :=
  mkBeacon (Some (mkPathSegment (time_Unix 50 0)
                    [mkASEntry origin (mkHopField 0 1) None;
                     mkASEntry (mkIA 1 141) (mkHopField 1 2)
                       (Some (mkPqaExtension tt tt 7))])) 1 0.
Definition no_entries : Beacon' :=
  mkBeacon (Some (mkPathSegment (time_Unix 50 0) [])) 1 0.
Definition with_empty_identity : Backend :=
  PqaMemoryBackend.mk
    (mkExecutor [mkRow 1 [] [] 1 100 1 0 50 21650 60 1 []] no_fault localIA)
    ([] : list (Z * Target')).

(** The three best, and the ten best. *)
Definition policy3 : TargetPolicy Quality Direction Z := policy 3.
Definition policy10 : TargetPolicy Quality Direction Z := policy 10.

(** The mechanisms over the backends of the five and of the seven beacons. *)
Definition m5 : Mechanism.t := Mechanism.mk (backend_of five) [if1; if11; if12].
Definition m7 : Mechanism.t := Mechanism.mk (backend_of seven) [if1; if11; if12].



(** A fetch by identifiers that asks [GetBeaconById] for one after the
    other and, at the first error, hands back the beacons read so far
    together with the error. *)
Fixpoint GetBeaconsById_so_far (e : executor Quality Direction) (ids : list Z)
    (acc : list Beacon') : list Beacon' * option error' :=
  match ids with
  | [] => (acc, None)
  | id :: rest =>
      match GetBeaconById e id with
      | inl err => (acc, Some err)
      | inr b => GetBeaconsById_so_far e rest (acc ++ [b])
      end
  end.

Definition beaconsById_so_far : BeaconsById Quality Direction :=
  fun e ids => GetBeaconsById_so_far e ids [].



(** ** Stores and parameters for the queries *)

(** A store whose driver refuses every INSERT. *)
Definition refusing_inserts : executor Quality Direction :=
  mkExecutor []
    (fun st => match st with
               | StmtInsert => Some (ErrExternal "disk full")
               | _ => None
               end) localIA.

(** The store of the beacon of 2 hops, originated at second 50, and of a
    beacon originated at second 200: the records expire at seconds 21650
    and 21800. *)
Definition late : Beacon' := beacon_via 200 [151; 152] 1.
Definition early_and_late : executor Quality Direction :=
  PqaMemoryBackend.Beacons (backend_of [hops2; late]).

(** The store of the beacon of 2 hops and of a record whose packed beacon
    is empty. *)
Definition corrupt : executor Quality Direction :=
  mkExecutor (db_rows store1 ++
                [mkRow 2 [Byte.x01] [] 1 100 1 1 50 21650 60000000000 1 []])
             no_fault localIA.

(** Beacons of ISD 1 that came in on interface 1, with usage 1, valid at
    second 100; the zero origin and the usage 0 ask for nothing. *)
Definition valid_at_100 : QueryParams :=
  mkQueryParams [] [mkIA 0 0; mkIA 1 0] [1] [0; 1] (time_Unix 100 0).

(** The store of the five beacons after the beacon of 2 hops has come in
    again, originated at second 70, on interface 2 and with usage 3. *)
Definition hops2_again : Beacon' := beacon_via 70 [141] 2.
Definition store5_updated : executor Quality Direction :=
  match InsertBeacon store5 hops2_again 3 (time_Unix 80 0) with
  | Ret (e', _, _) => e'
  | Panic => store5
  end.

(** The store [early_and_late] after a sweep at second 21700. *)
Definition swept : executor Quality Direction :=
  (DeleteExpiredBeacons early_and_late (time_Unix 21700 0)).1.1.

(** An egress interface with identifier 0. *)
Definition if0 : Interface := mkInterface 0 (mkIA 1 200).
End TestBed.

(** * Properties *)

(** ** The beacon entity *)

Section BeaconFacts.
Context {Quality Direction : Type}.
Abbreviation ASEntry := (ASEntry Quality Direction).
Abbreviation PathSegment := (PathSegment Quality Direction).
Abbreviation Beacon := (Beacon Quality Direction).

Lemma IA_Equal_spec (ia other : IA) : IA_Equal ia other = true ↔ ia = other.
Proof.
  unfold IA_Equal. destruct ia as [i a], other as [i' a']; simpl.
  rewrite andb_true_iff, !Z.eqb_eq. split; [intros [-> ->]; done | ].
  intros [= -> ->]; done.
Qed.

Lemma Diversity_found_spec (ia : IA) (ifid : Z) (others : list ASEntry) :
  Diversity_found ia ifid others = true ↔ (ia, ifid) ∈ link <$> others.
Proof.
  induction others as [|o rest IH].
  - split; [discriminate | by intros ?%elem_of_nil].
  - rewrite fmap_cons, elem_of_cons. cbn [Diversity_found]. unfold link at 1 2.
    destruct (IA_Equal ia (Local o)) eqn:Hia; cbn [andb].
    + apply IA_Equal_spec in Hia as ->.
      destruct (Z.eqb_spec ifid (ConsIngress (HopEntry_HopField o))) as [-> | Hne].
      * split; [intros _; by left | done].
      * rewrite IH. split; [intros ?; by right | ].
        intros [[= ?] | ?]; done.
    + rewrite IH. split; [intros ?; by right | ].
      intros [[= -> ?] | ?]; [ | done].
      assert (IA_Equal (Local o) (Local o) = true) by by apply IA_Equal_spec.
      congruence.
Qed.

Lemma Diversity_loop_spec (entries others : list ASEntry) (diff : Z) :
  Diversity_loop entries others diff =
    diff + Z.of_nat (length (filter (fun l => l ∉ link <$> others)
                                    (link <$> entries))).
Proof.
  revert diff. induction entries as [|e rest IH]; intros diff.
  - cbn. lia.
  - cbn [Diversity_loop]. unfold link at 1. rewrite IH.
    rewrite fmap_cons, filter_cons.
    destruct (Diversity_found _ _ others) eqn:Hf.
    + apply Diversity_found_spec in Hf.
      rewrite decide_False by (intros Hn; by apply Hn). done.
    + rewrite decide_True.
      * cbn [length]. lia.
      * intros Hin%Diversity_found_spec. congruence.
Qed.
End BeaconFacts.

Section BeaconClaims.
Context {Quality Direction : Type}.
Abbreviation Beacon' := (Beacon Quality Direction).
Abbreviation PathSegment' := (PathSegment Quality Direction).

(** C9. [Diversity] returns the number of links (local AS, ingress
    interface) of this beacon's segment entries that are the link of no
    entry of the other's segment, and 0 when either segment is unset: it is
    [spec_Diversity], in which a link is the pair of an entry's local AS
    and of the ingress interface of its hop field, and links are compared
    by equality of both components. For links {(IA1,5),(IA2,7)} against
    {(IA1,5)} it is 1 one way and 0 the other, whether IA1 and IA2 are one
    AS or two. *)
Theorem Diversity_counts_links_absent_from_other (b other : Beacon') :
  Diversity b other = spec_Diversity b other ∧
  (∀ s o, Segment b = Some s → Segment other = Some o →
     Diversity b other =
       Z.of_nat (length (filter (fun l => l ∉ spec_links o) (spec_links s)))) ∧
  (Segment b = None ∨ Segment other = None → Diversity b other = 0) ∧
  (∀ s o IA1 IA2, Segment b = Some s → Segment other = Some o →
     spec_links s = [(IA1, 5); (IA2, 7)] → spec_links o = [(IA1, 5)] →
     Diversity b other = 1 ∧ Diversity other b = 0).
Proof.
  assert (Hgen : ∀ (x y : Beacon') s o, Segment x = Some s → Segment y = Some o →
            Diversity x y =
              Z.of_nat (length (filter (fun l => l ∉ spec_links o)
                                       (spec_links s)))).
  { intros x y s o Hx Hy. unfold Diversity. rewrite Hx, Hy.
    rewrite Diversity_loop_spec. unfold spec_links, link. lia. }
  split; [ | split; [ | split]].
  - unfold spec_Diversity.
    destruct (Segment b) as [s|] eqn:Hs, (Segment other) as [o|] eqn:Ho;
      [by apply Hgen | | | ]; unfold Diversity; by rewrite Hs, ?Ho.
  - intros s o. apply Hgen.
  - unfold Diversity. intros [-> | Ho]; [done | ].
    rewrite Ho. by destruct (Segment b).
  - intros s o IA1 IA2 Hs Ho Hls Hlo.
    rewrite (Hgen b other s o Hs Ho), (Hgen other b o s Ho Hs).
    rewrite Hls, Hlo.
    rewrite !filter_cons, filter_nil.
    rewrite decide_False by (intros Hn; apply Hn; set_solver).
    rewrite decide_True by (rewrite list_elem_of_singleton; intros [= _ ?]; lia).
    rewrite decide_False by (intros Hn; apply Hn; set_solver).
    done.
Qed.
End BeaconClaims.

Section BeaconProperties.
Context {Quality Direction : Type}.
Abbreviation Beacon' := (Beacon Quality Direction).
Abbreviation PathSegment' := (PathSegment Quality Direction).

Lemma Diversity_links (b other : Beacon') (s o : PathSegment') :
  Segment b = Some s → Segment other = Some o →
  Diversity b other = Z.of_nat (length (links_absent_from s o)).
Proof.
  intros Hb Ho. unfold Diversity. rewrite Hb, Ho, Diversity_loop_spec.
  unfold links_absent_from, links. lia.
Qed.

(** X1. [Diversity] is never negative and never more than the number of AS
    entries of this beacon's segment. *)
Theorem Diversity_between_zero_and_entries (b other : Beacon') :
  0 ≤ Diversity b other ∧
  ∀ s, Segment b = Some s → Diversity b other ≤ Z.of_nat (length (ASEntries s)).
Proof.
  assert (∀ s o, Segment b = Some s → Segment other = Some o →
            0 ≤ Diversity b other ≤ Z.of_nat (length (ASEntries s))) as Hboth.
  { intros s o Hb Ho. rewrite (Diversity_links b other s o Hb Ho).
    unfold links_absent_from, links.
    pose proof (length_filter (fun l => l ∉ link <$> ASEntries o)
                  (link <$> ASEntries s)) as Hle.
    rewrite length_fmap in Hle. lia. }
  destruct (Segment other) as [o|] eqn:Ho.
  - split.
    + destruct (Segment b) as [s|] eqn:Hb; [by apply (Hboth s o) | ].
      unfold Diversity. by rewrite Hb.
    + intros s Hb. by apply (Hboth s o).
  - assert (Diversity b other = 0) as ->.
    { unfold Diversity. rewrite Ho. by destruct (Segment b). }
    split; [done | ]. intros s _. lia.
Qed.

(** X2. With both segments set, [Diversity] is 0 exactly when every link of
    this beacon's segment is a link of the other's; the diversity of a
    beacon with itself is 0. *)
Theorem Diversity_zero_iff_links_covered (b other : Beacon') :
  Diversity b b = 0 ∧
  ∀ s o, Segment b = Some s → Segment other = Some o →
    (Diversity b other = 0 ↔ ∀ l, l ∈ links s → l ∈ links o).
Proof.
  assert (Hiff : ∀ (x y : Beacon') s o, Segment x = Some s → Segment y = Some o →
            (Diversity x y = 0 ↔ ∀ l, l ∈ links s → l ∈ links o)).
  { intros x y s o Hx Hy. rewrite (Diversity_links x y s o Hx Hy).
    unfold links_absent_from. split.
    - intros Hz l Hl. destruct (decide (l ∈ links o)) as [ | Hn]; [done | ].
      assert (l ∈ filter (fun l => l ∉ links o) (links s)) as Hin
        by by apply list_elem_of_filter.
      destruct (filter _ _); [by apply elem_of_nil in Hin | simpl in Hz; lia].
    - intros Hall.
      assert (filter (fun l => l ∉ links o) (links s) = []) as ->; [ | done].
      revert Hall. generalize (links s). intros ls.
      induction ls as [|l ls IH]; intros Hall; [done | ].
      rewrite filter_cons, decide_False.
      * apply IH. intros l' Hl'. apply Hall. by right.
      * intros Hn. apply Hn, Hall. by left. }
  split; [ | intros s o; apply Hiff].
  destruct (Segment b) as [s|] eqn:Hb.
  - by apply (Hiff b b s s).
  - unfold Diversity. by rewrite Hb.
Qed.

(** X3. [Diversity] reads the other beacon only through the set of its
    links: against a beacon with more links it is no larger. *)
Theorem Diversity_shrinks_as_other_grows (b other other' : Beacon') :
  ∀ s o o',
    Segment b = Some s → Segment other = Some o → Segment other' = Some o' →
    (∀ l, l ∈ links o → l ∈ links o') →
    Diversity b other' ≤ Diversity b other.
Proof.
  intros s o o' Hb Ho Ho' Hsub.
  rewrite (Diversity_links b other s o Hb Ho), (Diversity_links b other' s o' Hb Ho').
  unfold links_absent_from. apply inj_le.
  induction (links s) as [|l ls IH]; [done | ].
  rewrite !filter_cons.
  destruct (decide (l ∉ links o')) as [Hn' | Hin'].
  - rewrite decide_True by (intros Hin; apply Hn'; by apply Hsub). simpl. lia.
  - destruct (decide (l ∉ links o)); simpl; lia.
Qed.
End BeaconProperties.

(** ** The beacon store *)

Section StoreClaims.
Context {Quality Direction : Type} `{!SegLib Quality Direction}.
Abbreviation Beacon' := (Beacon Quality Direction).
Abbreviation PathSegment' := (PathSegment Quality Direction).
Abbreviation executor' := (executor Quality Direction).

Lemma getBeaconMeta_record_of (e : executor') (seg : PathSegment') :
  db_fault e StmtSelectMeta = None →
  getBeaconMeta e (Segment_ID seg) =
    inr ((fun r => {| meta_RowID := RowID r;
                      meta_InfoTime := time_Unix (InfoTime r) 0;
                      meta_LastUpdated := time_Unix 0 (LastUpdated r) |})
         <$> record_of e seg).
Proof.
  intros Hf. unfold getBeaconMeta, record_of. rewrite Hf.
  by destruct (List.find _ _).
Qed.

Lemma record_of_None_repeats_SegID (e : executor') (seg : PathSegment') :
  record_of e seg = None →
  repeats_SegID (db_rows e) (Segment_ID seg) = false.
Proof.
  unfold record_of, repeats_SegID. induction (db_rows e) as [|r rows IH]; [done | ].
  simpl. destruct (bool_decide _); [done | ]. exact IH.
Qed.

(** The three branches of [InsertBeacon], with the store each leaves. *)
Lemma InsertBeacon_branches (e : executor') (b : Beacon')
    (usage : Z) (now : Time) (seg : PathSegment') :
  Segment b = Some seg →
  db_fault e StmtSelectMeta = None →
  match record_of e seg with
  | None =>
      ∀ packed start,
        PackBeacon seg = inr packed → FirstIA seg = Ret start →
        db_fault e StmtInsert = None →
        InsertBeacon e b usage now =
          Ret (with_rows e (db_rows e ++
                 [inserted_row e b seg start usage now packed]),
               {| Inserted := 1; Updated := 0 |}, None)
  | Some r =>
      if Time_After (Info_Timestamp seg) (time_Unix (InfoTime r) 0)
      then
        ∀ packed,
          PackBeacon seg = inr packed → db_fault e StmtUpdate = None →
          InsertBeacon e b usage now =
            Ret (with_rows e (refreshed_rows e b seg (RowID r) usage now packed),
                 {| Inserted := 0; Updated := 1 |}, None)
      else
        InsertBeacon e b usage now =
          Ret (e, {| Inserted := 0; Updated := 0 |}, None)
  end.
Proof.
  intros Hseg Hmeta. unfold InsertBeacon. rewrite Hseg.
  rewrite (getBeaconMeta_record_of e seg Hmeta).
  destruct (record_of e seg) as [r|] eqn:Hrec; simpl.
  - destruct (Time_After _ _); [ | done].
    intros packed Hpack Hupd. unfold updateExistingBeacon.
    rewrite Hseg, Hpack, Hupd. done.
  - intros packed start Hpack Hstart Hins.
    unfold DoInTx, insertNewBeacon. rewrite Hseg, Hpack, Hstart. simpl.
    rewrite Hins, (record_of_None_repeats_SegID e seg Hrec). done.
Qed.

Lemma find_app_None_r {A : Type} (f : A → bool) (l : list A) (x : A) :
  List.find f l = None → f x = true → List.find f (l ++ [x]) = Some x.
Proof.
  induction l as [|y l IH]; simpl; intros Hl Hx.
  - by rewrite Hx.
  - destruct (f y); [done | by apply IH].
Qed.

Lemma find_fmap_keeps {A : Type} (f : A → bool) (g : A → A) (l : list A) (r : A) :
  (∀ x, f (g x) = f x) →
  List.find f l = Some r → List.find f (g <$> l) = Some (g r).
Proof.
  intros Hfg. induction l as [|y l IH]; simpl; [done | ].
  rewrite Hfg. destruct (f y); [by intros [= ->] | exact IH].
Qed.

Lemma find_Some_holds {A : Type} (f : A → bool) (l : list A) (r : A) :
  List.find f l = Some r → r ∈ l ∧ f r = true.
Proof.
  induction l as [|y l IH]; simpl; [done | ].
  destruct (f y) eqn:Hy.
  - intros [= ->]. split; [by left | done].
  - intros [? ?]%IH. split; [by right | done].
Qed.

(** C3. [InsertBeacon] on a store whose driver answers the statements of
    the call: without a record of the segment's identity a new record is
    added and the stats say inserted=1; with a record and an Info timestamp
    strictly after the stored InfoTime, the record keeps its place and
    identity, takes the mutable fields of the incoming beacon, and the
    stats say updated=1; with a record and a timestamp that is not newer
    the store stays as it is and the stats say neither. *)
Theorem InsertBeacon_inserts_updates_or_leaves (e : executor') (b : Beacon')
    (usage : Z) (now : Time) (seg : PathSegment') :
  Segment b = Some seg →
  db_fault e StmtSelectMeta = None →
  match record_of e seg with
  | None =>
      ∀ packed start,
        PackBeacon seg = inr packed → FirstIA seg = Ret start →
        db_fault e StmtInsert = None →
        ∃ e' row,
          InsertBeacon e b usage now =
            Ret (e', {| Inserted := 1; Updated := 0 |}, None) ∧
          db_rows e' = db_rows e ++ [row] ∧
          record_of e' seg = Some row ∧
          row = inserted_row e b seg start usage now packed
  | Some r =>
      if Time_After (Info_Timestamp seg) (time_Unix (InfoTime r) 0)
      then
        ∀ packed,
          PackBeacon seg = inr packed → db_fault e StmtUpdate = None →
          ∃ e' r',
            InsertBeacon e b usage now =
              Ret (e', {| Inserted := 0; Updated := 1 |}, None) ∧
            record_of e' seg = Some r' ∧
            (RowID r', SegID r', StartIsd r', StartAs r') =
              (RowID r, SegID r, StartIsd r, StartAs r) ∧
            (FullID r', InIntfID r', HopsLength r', InfoTime r') =
              (Segment_FullID seg, InIfId b,
               Z.of_nat (length (ASEntries seg)),
               Time_Unix (Info_Timestamp seg)) ∧
            (ExpirationTime r', LastUpdated r', Usage r', Beacon_col r') =
              (Time_Unix (Segment_MaxExpiry seg), Time_UnixNano now, usage,
               packed) ∧
            length (db_rows e') = length (db_rows e) ∧
            (∀ i r0, db_rows e !! i = Some r0 →
               db_rows e' !! i = Some (if bool_decide (RowID r0 = RowID r)
                                       then updated_row r0 (FullID r')
                                              (InIntfID r') (HopsLength r')
                                              (InfoTime r') (ExpirationTime r')
                                              (LastUpdated r') (Usage r')
                                              (Beacon_col r')
                                       else r0))
      else
        InsertBeacon e b usage now =
          Ret (e, {| Inserted := 0; Updated := 0 |}, None)
  end.
Proof.
  intros Hseg Hmeta.
  pose proof (InsertBeacon_branches e b usage now seg Hseg Hmeta) as Hb.
  destruct (record_of e seg) as [r|] eqn:Hrec.
  - destruct (Time_After _ _); [ | exact Hb].
    intros packed Hpack Hupd.
    exists (with_rows e (refreshed_rows e b seg (RowID r) usage now packed)),
      (updated_row r (Segment_FullID seg) (InIfId b)
         (Z.of_nat (length (ASEntries seg))) (Time_Unix (Info_Timestamp seg))
         (Time_Unix (Segment_MaxExpiry seg)) (Time_UnixNano now) usage packed).
    split; [exact (Hb packed Hpack Hupd) | ].
    split; [ | split; [ | split; [ | split; [ | split]]]].
    + unfold record_of in *. simpl. unfold refreshed_rows.
      erewrite find_fmap_keeps; [ | | exact Hrec].
      * by rewrite bool_decide_true by done.
      * intros x. by destruct (bool_decide (RowID x = RowID r)).
    + reflexivity.
    + reflexivity.
    + reflexivity.
    + simpl. unfold refreshed_rows. by rewrite length_fmap.
    + intros i r0 Hi. simpl. unfold refreshed_rows.
      by rewrite list_lookup_fmap, Hi.
  - intros packed start Hpack Hstart Hins.
    eexists _, _. split; [exact (Hb packed start Hpack Hstart Hins) | ].
    split; [done | ]. split; [ | done].
    unfold record_of in *. simpl. apply find_app_None_r; [done | ].
    by apply bool_decide_eq_true.
Qed.

(** X4. Whenever [InsertBeacon] returns an error, the stats are zero and
    the store is the one it was called on. *)
Lemma InsertBeacon_error_leaves_store (e e' : executor') (b : Beacon')
    (usage : Z) (now : Time) (stats : InsertStats) (err : error Quality Direction) :
  InsertBeacon e b usage now = Ret (e', stats, Some err) →
  e' = e ∧ stats = {| Inserted := 0; Updated := 0 |}.
Proof.
  unfold InsertBeacon. destruct (Segment b) as [seg|] eqn:Hseg; [ | done].
  destruct (getBeaconMeta e (Segment_ID seg)) as [err0 | [meta|]].
  - by intros [= <- <- _].
  - destruct (Time_After _ _); [ | done].
    unfold updateExistingBeacon. rewrite Hseg.
    destruct (PackBeacon seg); simpl.
    + by intros [= <- <- _].
    + destruct (db_fault e StmtUpdate); simpl; [by intros [= <- <- _] | done].
  - unfold DoInTx, insertNewBeacon. rewrite Hseg.
    destruct (PackBeacon seg); simpl; [by intros [= <- <- _] | ].
    destruct (FirstIA seg); simpl; [ | done].
    destruct (db_fault e StmtInsert); simpl; [by intros [= <- <- _] | ].
    destruct (repeats_SegID _ _); simpl; [by intros [= <- <- _] | done].
Qed.

(** X5. [InsertBeacon] keeps the identities of the records distinct: on a
    table in which no two records have the same SegID it leaves such a
    table. *)
Lemma InsertBeacon_keeps_SegID_unique (e e' : executor') (b : Beacon')
    (usage : Z) (now : Time) (stats : InsertStats)
    (err : option (error Quality Direction)) :
  SegID_unique e →
  InsertBeacon e b usage now = Ret (e', stats, err) →
  SegID_unique e'.
Proof.
  unfold SegID_unique, InsertBeacon. intros Hu.
  destruct (Segment b) as [seg|] eqn:Hseg; [ | done].
  destruct (getBeaconMeta e (Segment_ID seg)) as [err0 | [meta|]].
  - by intros [= <- _ _].
  - destruct (Time_After _ _); [ | by intros [= <- _ _]].
    unfold updateExistingBeacon. rewrite Hseg.
    destruct (PackBeacon seg); simpl; [by intros [= <- _ _] | ].
    destruct (db_fault e StmtUpdate); simpl; intros [= <- _ _]; [done | ].
    simpl. rewrite <- list_fmap_compose.
    erewrite list_fmap_ext; [exact Hu | ].
    intros i r0 _. simpl. by destruct (bool_decide _).
  - unfold DoInTx, insertNewBeacon. rewrite Hseg.
    destruct (PackBeacon seg); simpl; [by intros [= <- _ _] | ].
    destruct (FirstIA seg); simpl; [ | done].
    destruct (db_fault e StmtInsert); simpl; [by intros [= <- _ _] | ].
    destruct (repeats_SegID _ _) eqn:Hrep; simpl; intros [= <- _ _]; [done | ].
    simpl. rewrite fmap_app. apply NoDup_app. split; [done | ].
    split; [ | apply NoDup_singleton].
    intros x Hx ->%list_elem_of_singleton.
    apply list_elem_of_fmap in Hx as (r0 & Heq & Hr).
    assert (repeats_SegID (db_rows e) (Segment_ID seg) = true); [ | congruence].
    apply existsb_exists. exists r0. split; [by apply list_elem_of_In | ].
    by apply bool_decide_eq_true.
Qed.

(** What the sweep leaves: the records that have not expired. *)
Lemma DeleteExpiredBeacons_leaves_unexpired (e e' : executor') (now : Time)
    (deleted : Z) (r : Row) :
  DeleteExpiredBeacons e now = (e', deleted, None) →
  r ∈ db_rows e' ↔ r ∈ db_rows e ∧ Time_Unix now ≤ ExpirationTime r.
Proof.
  unfold DeleteExpiredBeacons. destruct (db_fault e StmtDelete); [done | ].
  intros [= <- _]. simpl. rewrite !list_elem_of_In, filter_In.
  rewrite negb_true_iff, Z.ltb_ge. done.
Qed.

#[global] Instance by_HopsLength_trans : Transitive by_HopsLength.
Proof. unfold by_HopsLength. intros r1 r2 r3. lia. Qed.

#[global] Instance by_HopsLength_total : Total by_HopsLength.
Proof. unfold by_HopsLength. intros r1 r2. lia. Qed.

Lemma CandidateBeacons_scan_decodes (e : executor') (rows : list Row)
    (acc beacons : list Beacon') :
  CandidateBeacons_scan e rows acc = inr beacons →
  ∃ decoded, beacons = acc ++ decoded ∧ Forall2 decodes_to rows decoded.
Proof.
  revert acc. induction rows as [|r rows IH]; intros acc; simpl.
  - destruct (db_fault e StmtRowsErr); [done | ].
    intros [= <-]. exists []. by rewrite app_nil_r.
  - destruct (db_fault e StmtScanRow); [done | ].
    destruct (UnpackBeacon (Beacon_col r)) as [err | s] eqn:Hs; [done | ].
    intros (decoded & -> & Hdec)%IH.
    eexists (_ :: decoded). split; [by rewrite <- app_assoc | ].
    constructor; [ | done]. by exists s.
Qed.

Lemma CandidateBeacons_query_selected (rows : list Row) (setSize usage : Z)
    (src : IA) (r : Row) :
  r ∈ CandidateBeacons_query rows setSize usage src →
  r ∈ rows ∧ CandidateBeacons_where usage src r = true.
Proof.
  unfold CandidateBeacons_query. intros Hr.
  assert (r ∈ merge_sort by_HopsLength
                (List.filter (CandidateBeacons_where usage src) rows)) as Hm.
  { destruct (setSize <? 0); [done | ]. by eapply (subseteq_take (Z.to_nat setSize)). }
  rewrite merge_sort_Permutation in Hm.
  apply list_elem_of_In, filter_In in Hm as [Hin Hw].
  split; [by apply list_elem_of_In | done].
Qed.

Lemma CandidateBeacons_query_sorted (rows : list Row) (setSize usage : Z)
    (src : IA) :
  StronglySorted by_HopsLength (CandidateBeacons_query rows setSize usage src).
Proof.
  unfold CandidateBeacons_query.
  pose proof (StronglySorted_merge_sort by_HopsLength
                (List.filter (CandidateBeacons_where usage src) rows)) as Hs.
  destruct (setSize <? 0); [done | ].
  rewrite <- (take_drop (Z.to_nat setSize)) in Hs.
  by apply StronglySorted_app_1_l in Hs.
Qed.

(** C4, as the code has it. A successful [CandidateBeacons] returns at
    most [setSize] beacons, each unpacked from a row of the table whose
    usage contains the mask and, for a non-zero [src], whose origin is
    [src], in ascending order of hop count. The expiration time of a row
    and the current time take no part in the selection. *)
Theorem CandidateBeacons_selects_by_usage_and_source (e : executor')
    (setSize usage : Z) (src : IA) (now : Time) (beacons : list Beacon') :
  CandidateBeacons e setSize usage src now = Ret (inr beacons) →
  ∃ rows,
    Forall2 decodes_to rows beacons ∧
    Z.of_nat (length beacons) ≤ setSize ∧
    (∀ r, r ∈ rows →
       r ∈ db_rows e ∧ Z.land (Usage r) usage = usage ∧
       (IA_IsZero src = false → StartIsd r = IA_I src ∧ StartAs r = IA_A src)) ∧
    StronglySorted by_HopsLength rows ∧
    (∀ now', CandidateBeacons e setSize usage src now' = Ret (inr beacons)).
Proof.
  unfold CandidateBeacons.
  destruct (db_fault e StmtSelectCandidates); [done | ].
  destruct (setSize <? 0) eqn:Hneg; [done | ]. apply Z.ltb_ge in Hneg.
  intros [= Hscan].
  destruct (CandidateBeacons_scan_decodes _ _ _ _ Hscan) as (decoded & -> & Hdec).
  exists (CandidateBeacons_query (db_rows e) setSize usage src).
  split; [done | ]. split; [ | split; [ | split]].
  - apply Forall2_length in Hdec. simpl. rewrite <- Hdec.
    unfold CandidateBeacons_query.
    destruct (setSize <? 0) eqn:Hneg'; [apply Z.ltb_lt in Hneg'; lia | ].
    rewrite length_take. lia.
  - intros r [Hin Hw]%CandidateBeacons_query_selected.
    split; [done | ]. unfold CandidateBeacons_where in Hw.
    apply andb_true_iff in Hw as [Hu Hs]. apply Z.eqb_eq in Hu.
    split; [done | ]. intros Hz. rewrite Hz in Hs. simpl in Hs.
    apply andb_true_iff in Hs as [?%Z.eqb_eq ?%Z.eqb_eq]. done.
  - apply CandidateBeacons_query_sorted.
  - intros now'. by rewrite Hscan.
Qed.
End StoreClaims.

(** ** The statement of [GetBeacons] *)

Section QueryFacts.

Lemma foldl_emit {A B : Type} (step : list B → A → list B) (g : A → list B)
    (acc : list B) (l : list A) :
  (∀ acc x, step acc x = acc ++ g x) →
  foldl step acc l = acc ++ (l ≫= g).
Proof.
  intros Hstep. revert acc. induction l as [|x l IH]; intros acc; simpl.
  - by rewrite app_nil_r.
  - rewrite IH, Hstep, <- app_assoc. done.
Qed.

Lemma foldl_emit_text {A : Type}
    (step : list string * list Arg → A → list string * list Arg)
    (g : A → list Cond) (subQ : list string) (args : list Arg) (l : list A) :
  (∀ subQ args x, step (subQ, args) x =
     (subQ ++ (Cond_text <$> g x), args ++ concat (Cond_args <$> g x))) →
  foldl step (subQ, args) l =
    (subQ ++ (Cond_text <$> (l ≫= g)), args ++ concat (Cond_args <$> (l ≫= g))).
Proof.
  intros Hstep. revert subQ args. induction l as [|x l IH]; intros subQ args; simpl.
  - by rewrite !app_nil_r.
  - rewrite Hstep, IH. rewrite !fmap_app, concat_app, <- !app_assoc. done.
Qed.

Lemma buildQuery_where_eq (params : QueryParams) :
  buildQuery_where params =
    (if (0 <? length (SegIDs params))%nat
     then [AnyOf (SegIDs params ≫= (fun segID => [SegIDLike segID]))] else []) ++
    (if (0 <? length (StartsAt params ≫= StartsAt_cond))%nat
     then [AnyOf (StartsAt params ≫= StartsAt_cond)] else []) ++
    (if (0 <? length (IngressInterfaces params))%nat
     then [AnyOf (IngressInterfaces params ≫= (fun intf => [InIntfIDIs intf]))]
     else []) ++
    (if (0 <? length (Usages params ≫= Usages_cond))%nat
     then [AnyOf (Usages params ≫= Usages_cond)] else []) ++
    (if negb (Time_IsZero (ValidAt params))
     then [ValidAtUnix (Time_Unix (ValidAt params))] else []).
Proof.
  unfold buildQuery_where.
  rewrite (foldl_emit _ (fun segID => [SegIDLike segID]) [] (SegIDs params))
    by done.
  rewrite (foldl_emit _ StartsAt_cond [] (StartsAt params)).
  2:{ intros acc x. unfold StartsAt_cond.
      destruct (IA_IsZero x); [by rewrite app_nil_r | ].
      destruct (IA_I x =? 0); [done | ]. destruct (IA_A x =? 0); done. }
  rewrite (foldl_emit _ (fun intf => [InIntfIDIs intf]) []
             (IngressInterfaces params)) by done.
  rewrite (foldl_emit _ Usages_cond [] (Usages params)).
  2:{ intros acc x. unfold Usages_cond.
      destruct (0 <? x); [done | by rewrite app_nil_r]. }
  simpl.
  assert (Hnil : ∀ {A} (l : list A) (g : A → list Cond),
            (0 <? length l)%nat = false → (0 <? length (l ≫= g))%nat = false).
  { intros A l g Hl. destruct l; [done | simpl in Hl; done]. }
  destruct (0 <? length (SegIDs params))%nat;
  destruct (0 <? length (StartsAt params))%nat eqn:H2;
  try rewrite (Hnil _ _ StartsAt_cond H2);
  destruct (0 <? length (StartsAt params ≫= StartsAt_cond))%nat;
  destruct (0 <? length (IngressInterfaces params))%nat;
  destruct (0 <? length (Usages params))%nat eqn:H4;
  try rewrite (Hnil _ _ Usages_cond H4);
  destruct (0 <? length (Usages params ≫= Usages_cond))%nat;
  destruct (negb (Time_IsZero (ValidAt params))); try done.
Qed.

Lemma bind_of_none {A B : Type} (l : list A) (g : A → list B) :
  (0 <? length l)%nat = false → l ≫= g = [].
Proof. intros Hl. destruct l; [done | simpl in Hl; done]. Qed.

Lemma nil_of_none {A : Type} (l : list A) :
  (0 <? length l)%nat = false → l = [].
Proof. intros Hl. destruct l; [done | simpl in Hl; done]. Qed.

(** The text and the values [buildQuery] returns are those of the
    statement whose WHERE clause is [buildQuery_where]. *)
Lemma buildQuery_statement (params : QueryParams) :
  buildQuery (Some params) = statement (buildQuery_where params).
Proof.
  rewrite buildQuery_where_eq. unfold buildQuery, statement. cbv zeta.
  destruct (0 <? length (SegIDs params))%nat eqn:H1;
    [rewrite (foldl_emit_text _ (fun segID => [SegIDLike segID]) _ _
                (SegIDs params)) by done | ];
    cbn beta iota;
  (destruct (0 <? length (StartsAt params))%nat eqn:H2;
    [rewrite (foldl_emit_text _ StartsAt_cond _ _ (StartsAt params))
       by (intros subQ args x; unfold StartsAt_cond;
           destruct (IA_IsZero x); [by rewrite !app_nil_r | ];
           destruct (IA_I x =? 0); [done | ]; by destruct (IA_A x =? 0));
     cbn beta iota; cbn [app]; rewrite length_fmap;
     destruct (0 <? length (StartsAt params ≫= StartsAt_cond))%nat eqn:H2';
     [ | rewrite (nil_of_none _ H2')]
    | rewrite (bind_of_none _ StartsAt_cond H2)];
    cbn beta iota);
  (destruct (0 <? length (IngressInterfaces params))%nat eqn:H3;
    [rewrite (foldl_emit_text _ (fun intf => [InIntfIDIs intf]) _ _
                (IngressInterfaces params)) by done | ];
    cbn beta iota);
  (destruct (0 <? length (Usages params))%nat eqn:H4;
    [rewrite (foldl_emit_text _ Usages_cond _ _ (Usages params))
       by (intros subQ args x; unfold Usages_cond;
           destruct (0 <? x); [done | by rewrite !app_nil_r]);
     cbn beta iota; cbn [app]; rewrite length_fmap;
     destruct (0 <? length (Usages params ≫= Usages_cond))%nat eqn:H4';
     [ | rewrite (nil_of_none _ H4')]
    | rewrite (bind_of_none _ Usages_cond H4)];
    cbn beta iota);
  destruct (negb (Time_IsZero (ValidAt params)));
  cbn [app length Nat.ltb Nat.leb fmap list_fmap concat Clause_text Clause_args];
  rewrite ?app_nil_r, <- ?app_assoc; reflexivity.
Qed.

Lemma placeholders_app (s1 s2 : string) :
  placeholders (s1 +:+ s2) = (placeholders s1 + placeholders s2)%nat.
Proof.
  induction s1 as [|c s1 IH]; [done | ]. simpl. rewrite IH. lia.
Qed.

Lemma placeholders_concat (sep : string) (l : list string) :
  placeholders sep = 0%nat →
  placeholders (String.concat sep l) = sum_list (placeholders <$> l).
Proof.
  intros Hsep. induction l as [|x l IH]; [done | ].
  destruct l as [|y l].
  - simpl. lia.
  - change (String.concat sep (x :: y :: l))
      with (x +:+ sep +:+ String.concat sep (y :: l)).
    rewrite !placeholders_app, Hsep, IH. simpl. lia.
Qed.

Lemma placeholders_Cond (c : Cond) :
  placeholders (Cond_text c) = length (Cond_args c).
Proof. by destruct c. Qed.

Lemma placeholders_Clause (c : Clause) :
  placeholders (Clause_text c) = length (Clause_args c).
Proof.
  destruct c as [subQ | t]; [ | done]. cbn [Clause_text Clause_args].
  unfold any_of. rewrite !placeholders_app, placeholders_concat by done.
  assert (sum_list (placeholders <$> (Cond_text <$> subQ)) =
          length (concat (Cond_args <$> subQ))) as ->.
  { induction subQ as [|c subQ IH]; [done | ].
    rewrite !fmap_cons. cbn [sum_list concat].
    rewrite length_app, placeholders_Cond, IH. done. }
  cbn [placeholders]. simpl. lia.
Qed.

(** X19. Every placeholder of the statement [buildQuery] writes has its
    value: the text has as many question marks as there are values. *)
Theorem buildQuery_binds_every_placeholder (params : option QueryParams) :
  placeholders (buildQuery params).1 = length (buildQuery params).2.
Proof.
  destruct params as [params|]; [ | done].
  rewrite buildQuery_statement. unfold statement.
  generalize (buildQuery_where params). intros where_. cbn [fst snd].
  assert (sum_list (placeholders <$> (Clause_text <$> where_)) =
          length (concat (Clause_args <$> where_))) as Hsum.
  { induction where_ as [|c where_ IH]; [done | ].
    rewrite !fmap_cons. cbn [sum_list concat].
    rewrite length_app, placeholders_Clause, IH. done. }
  destruct (0 <? length where_)%nat eqn:Hlen.
  - rewrite !placeholders_app, placeholders_concat by done.
    rewrite Hsum. simpl. lia.
  - apply nil_of_none in Hlen as ->. done.
Qed.

Lemma AnyOf_holds {A : Type} (l : list A) (g : A → list Cond) (r : Row) :
  existsb (fun c => Cond_holds c r) (l ≫= g) = true ↔
  ∃ x c, x ∈ l ∧ c ∈ g x ∧ Cond_holds c r = true.
Proof.
  rewrite existsb_exists. split.
  - intros (c & Hin & Hc). apply list_elem_of_In, list_elem_of_bind in Hin
      as (x & Hc' & Hx). by exists x, c.
  - intros (x & c & Hx & Hc & Hh). exists c. split; [ | done].
    apply list_elem_of_In, list_elem_of_bind. by exists x.
Qed.

Lemma bind_nil_iff {A B : Type} (l : list A) (g : A → list B) :
  (0 <? length (l ≫= g))%nat = false ↔ ∀ x, x ∈ l → g x = [].
Proof.
  split.
  - intros Hn%nil_of_none x Hx. destruct (g x) as [|c cs] eqn:Hg; [done | ].
    assert (c ∈ l ≫= g) as Hin.
    { apply list_elem_of_bind. exists x. rewrite Hg. split; [by left | done]. }
    rewrite Hn in Hin. by apply elem_of_nil in Hin.
  - intros Hall. induction l as [|x l IH]; [done | ].
    simpl. rewrite (Hall x) by by left. apply IH. intros y Hy. apply Hall. by right.
Qed.

(** The WHERE clause of [buildQuery] holds of the records the parameters
    ask for. *)
Lemma buildQuery_where_matches (params : QueryParams) (r : Row) :
  forallb (fun c => Clause_holds c r) (buildQuery_where params) = true ↔
  matches params r.
Proof.
  rewrite buildQuery_where_eq, !forallb_app, !andb_true_iff. unfold matches.
  assert (Hif : ∀ (b : bool) (c : Clause),
            forallb (fun c => Clause_holds c r) (if b then [c] else []) = true ↔
            (b = false ∨ Clause_holds c r = true)).
  { intros [] c; simpl; rewrite ?andb_true_r; split; auto.
    by intros [? | ?]. }
  rewrite !Hif.
  assert (Hboth : ∀ A B C D : Prop, (A ↔ C) → (B ↔ D) → (A ∧ B ↔ C ∧ D))
    by (intros; tauto).
  apply Hboth; [ | apply Hboth; [ | apply Hboth; [ | apply Hboth]]].
  - cbn [Clause_holds]. rewrite AnyOf_holds. split.
    + intros [Hn%nil_of_none | (x & c & Hx & ->%list_elem_of_singleton & Hc)];
        [by left | right].
      exists x. split; [done | ]. by apply bool_decide_eq_true in Hc.
    + intros [-> | (x & Hx & Hp)]; [by left | right].
      exists x, (SegIDLike x). split; [done | ]. split; [by left | ].
      by apply bool_decide_eq_true.
  - cbn [Clause_holds]. rewrite AnyOf_holds, bind_nil_iff. split.
    + intros [Hall | (x & c & Hx & Hc & Hh)].
      * left. intros ia Hia. specialize (Hall ia Hia). unfold StartsAt_cond in Hall.
        destruct (IA_IsZero ia); [done | ].
        destruct (IA_I ia =? 0); [done | ]. by destruct (IA_A ia =? 0).
      * right. exists x. split; [done | ]. unfold StartsAt_cond in Hc.
        destruct (IA_IsZero x); [by apply elem_of_nil in Hc | ].
        split; [done | ].
        destruct (Z.eqb_spec (IA_I x) 0) as [HI | HI].
        { apply list_elem_of_singleton in Hc as ->. simpl in Hh.
          apply Z.eqb_eq in Hh. auto. }
        destruct (Z.eqb_spec (IA_A x) 0) as [HA | HA];
          apply list_elem_of_singleton in Hc as ->; simpl in Hh.
        { apply Z.eqb_eq in Hh. auto. }
        apply andb_true_iff in Hh as [?%Z.eqb_eq ?%Z.eqb_eq]. auto.
    + intros [Hall | (x & Hx & Hnz & HI & HA)].
      * left. intros ia Hia. unfold StartsAt_cond. by rewrite (Hall ia Hia).
      * right. unfold StartsAt_cond. exists x.
        rewrite Hnz. unfold IA_IsZero in Hnz.
        destruct (Z.eqb_spec (IA_I x) 0) as [HI0 | HI0].
        { eexists. split; [done | ]. split; [by left | ]. simpl.
          destruct (Z.eqb_spec (IA_A x) 0) as [HA0 | HA0]; [done | ].
          apply Z.eqb_eq. by destruct HA. }
        destruct (Z.eqb_spec (IA_A x) 0) as [HA0 | HA0].
        { eexists. split; [done | ]. split; [by left | ]. simpl.
          apply Z.eqb_eq. by destruct HI. }
        eexists. split; [done | ]. split; [by left | ]. simpl.
        apply andb_true_iff. split; apply Z.eqb_eq; [by destruct HI | by destruct HA].
  - cbn [Clause_holds]. rewrite AnyOf_holds. split.
    + intros [Hn%nil_of_none | (x & c & Hx & ->%list_elem_of_singleton & Hc)];
        [by left | right].
      simpl in Hc. apply Z.eqb_eq in Hc. by rewrite Hc.
    + intros [-> | Hin]; [by left | right].
      exists (InIntfID r), (InIntfIDIs (InIntfID r)). split; [done | ].
      split; [by left | ]. simpl. apply Z.eqb_refl.
  - cbn [Clause_holds]. rewrite AnyOf_holds, bind_nil_iff. split.
    + intros [Hall | (x & c & Hx & Hc & Hh)].
      * left. intros u Hu. specialize (Hall u Hu). unfold Usages_cond in Hall.
        destruct (Z.ltb_spec 0 u); [done | lia].
      * right. exists x. split; [done | ]. unfold Usages_cond in Hc.
        destruct (Z.ltb_spec 0 x); [ | by apply elem_of_nil in Hc].
        apply list_elem_of_singleton in Hc as ->. simpl in Hh.
        apply Z.eqb_eq in Hh. done.
    + intros [Hall | (x & Hx & Hpos & Hu)].
      * left. intros u Hu. unfold Usages_cond.
        specialize (Hall u Hu). destruct (Z.ltb_spec 0 u); [lia | done].
      * right. exists x, (UsageHas x). split; [done | ]. unfold Usages_cond.
        destruct (Z.ltb_spec 0 x); [ | lia]. split; [by left | ].
        simpl. by apply Z.eqb_eq.
  - cbn [Clause_holds]. rewrite negb_false_iff, andb_true_iff, !Z.leb_le. done.
Qed.
End QueryFacts.

Section DistinctFacts.
Context {A : Type} `{!EqDecision A}.
Implicit Types (l seen : list A) (x : A).

Lemma distinct_from seen l :
  NoDup seen →
  let out := foldl (fun seen x => if bool_decide (x ∈ seen) then seen
                                  else seen ++ [x]) seen l in
  NoDup out ∧ (∀ x, x ∈ out ↔ x ∈ seen ∨ x ∈ l) ∧
  (NoDup (seen ++ l) → out = seen ++ l).
Proof.
  revert seen. induction l as [|x l IH]; intros seen Hnd; simpl.
  - split; [done | ]. split; [ | by rewrite app_nil_r].
    intros x. rewrite elem_of_nil. tauto.
  - destruct (bool_decide_reflect (x ∈ seen)) as [Hin | Hnin].
    + destruct (IH seen Hnd) as (Hnd' & Hmem & Heq).
      split; [done | ]. split.
      * intros y. rewrite Hmem, elem_of_cons.
        split; [tauto | ]. intros [? | [-> | ?]]; auto.
      * intros Hnd2. apply NoDup_app in Hnd2 as (_ & Hdisj & _).
        exfalso. apply (Hdisj x Hin). by left.
    + assert (NoDup (seen ++ [x])) as Hnd1.
      { apply NoDup_app. split; [done | ]. split; [ | apply NoDup_singleton].
        by intros y Hy ->%list_elem_of_singleton. }
      destruct (IH (seen ++ [x]) Hnd1) as (Hnd' & Hmem & Heq).
      split; [done | ]. split.
      * intros y. rewrite Hmem, elem_of_app, list_elem_of_singleton, elem_of_cons.
        tauto.
      * intros Hnd2. rewrite Heq; rewrite <- app_assoc; done.
Qed.

Lemma NoDup_distinct l : NoDup (distinct l).
Proof. apply (distinct_from [] l). constructor. Qed.

Lemma elem_of_distinct l x : x ∈ distinct l ↔ x ∈ l.
Proof.
  destruct (distinct_from [] l) as (_ & Hmem & _); [constructor | ].
  rewrite (Hmem x), elem_of_nil. tauto.
Qed.

Lemma distinct_NoDup l : NoDup l → distinct l = l.
Proof.
  intros Hnd. destruct (distinct_from [] l) as (_ & _ & Heq); [constructor | ].
  by apply Heq.
Qed.
End DistinctFacts.

(** ** The beacon store, continued *)

Section StoreProperties.
Context {Quality Direction : Type} `{!SegLib Quality Direction}.
Abbreviation Beacon' := (Beacon Quality Direction).
Abbreviation PathSegment' := (PathSegment Quality Direction).
Abbreviation executor' := (executor Quality Direction).
Abbreviation error' := (error Quality Direction).
Abbreviation StoredBeacon' := (StoredBeacon Quality Direction).

(** The outcomes of [InsertBeacon], one per path through its body. *)
Lemma InsertBeacon_cases (e e' : executor') (b : Beacon') (usage : Z)
    (now : Time) (stats : InsertStats) (err : option error') :
  InsertBeacon e b usage now = Ret (e', stats, err) →
  ∃ seg, Segment b = Some seg ∧
    ((e' = e ∧ stats = {| Inserted := 0; Updated := 0 |} ∧ is_Some err) ∨
     (∃ r, db_fault e StmtSelectMeta = None ∧ record_of e seg = Some r ∧
           Time_After (Info_Timestamp seg) (time_Unix (InfoTime r) 0) = false ∧
           e' = e ∧ stats = {| Inserted := 0; Updated := 0 |} ∧ err = None) ∨
     (∃ r packed, db_fault e StmtSelectMeta = None ∧ record_of e seg = Some r ∧
           Time_After (Info_Timestamp seg) (time_Unix (InfoTime r) 0) = true ∧
           PackBeacon seg = inr packed ∧
           e' = with_rows e (refreshed_rows e b seg (RowID r) usage now packed) ∧
           stats = {| Inserted := 0; Updated := 1 |} ∧ err = None) ∨
     (∃ packed start, db_fault e StmtSelectMeta = None ∧ record_of e seg = None ∧
           PackBeacon seg = inr packed ∧ FirstIA seg = Ret start ∧
           e' = with_rows e (db_rows e ++
                  [inserted_row e b seg start usage now packed]) ∧
           stats = {| Inserted := 1; Updated := 0 |} ∧ err = None)).
Proof.
  unfold InsertBeacon. destruct (Segment b) as [seg|] eqn:Hseg; [ | done].
  intros H. exists seg. split; [done | ]. revert H.
  destruct (db_fault e StmtSelectMeta) as [err0|] eqn:Hmeta.
  { unfold getBeaconMeta. rewrite Hmeta. intros [= <- <- <-]. left. eauto. }
  rewrite (getBeaconMeta_record_of e seg Hmeta).
  destruct (record_of e seg) as [r|] eqn:Hrec; simpl.
  - destruct (Time_After _ _) eqn:Hafter.
    + unfold updateExistingBeacon. rewrite Hseg.
      destruct (PackBeacon seg) as [err0 | packed] eqn:Hpack; simpl.
      { intros [= <- <- <-]. left. eauto. }
      destruct (db_fault e StmtUpdate) as [err0|]; simpl.
      { intros [= <- <- <-]. left. eauto. }
      intros [= <- <- <-]. right. right. left. exists r, packed. done.
    + intros [= <- <- <-]. right. left. exists r. done.
  - unfold DoInTx, insertNewBeacon. rewrite Hseg.
    destruct (PackBeacon seg) as [err0 | packed] eqn:Hpack; simpl.
    { intros [= <- <- <-]. left. eauto. }
    destruct (FirstIA seg) as [start|] eqn:Hstart; simpl; [ | done].
    destruct (db_fault e StmtInsert) as [err0|]; simpl.
    { intros [= <- <- <-]. left. eauto. }
    rewrite (record_of_None_repeats_SegID e seg Hrec). simpl.
    intros [= <- <- <-]. right. right. right. exists packed, start. done.
Qed.

(** X6. [InsertBeacon] never removes a record and never changes the
    identity columns of one: the table grows by [stats.Inserted] records,
    at most one record is inserted or updated, and every record keeps its
    place, its RowID, its SegID and its origin. *)
Theorem InsertBeacon_keeps_every_record (e e' : executor') (b : Beacon')
    (usage : Z) (now : Time) (stats : InsertStats) (err : option error') :
  InsertBeacon e b usage now = Ret (e', stats, err) →
  Z.of_nat (length (db_rows e')) = Z.of_nat (length (db_rows e)) + Inserted stats ∧
  (stats = {| Inserted := 0; Updated := 0 |} ∨
   stats = {| Inserted := 0; Updated := 1 |} ∨
   stats = {| Inserted := 1; Updated := 0 |}) ∧
  (∀ i r, db_rows e !! i = Some r →
     ∃ r', db_rows e' !! i = Some r' ∧
           (RowID r', SegID r', StartIsd r', StartAs r') =
             (RowID r, SegID r, StartIsd r, StartAs r)).
Proof.
  intros (seg & Hseg & Hcases)%InsertBeacon_cases.
  destruct Hcases as [(-> & -> & _) | [(r & _ & _ & _ & -> & -> & _) |
    [(r & packed & _ & _ & _ & _ & -> & -> & _) |
     (packed & start & _ & _ & _ & _ & -> & -> & _)]]]; simpl.
  - split; [lia | ]. split; [by left | eauto].
  - split; [lia | ]. split; [by left | eauto].
  - unfold refreshed_rows. rewrite length_fmap. split; [lia | ].
    split; [right; by left | ]. intros i r0 Hi. rewrite list_lookup_fmap, Hi. simpl.
    eexists. split; [done | ]. by destruct (bool_decide _).
  - rewrite length_app. simpl. split; [lia | ]. split; [right; by right | ].
    intros i r0 Hi. exists r0. split; [ | done].
    by apply lookup_app_l_Some.
Qed.

Lemma lookup_same_RowID (rows : list Row) (i j : nat) (r r0 : Row) :
  NoDup (RowID <$> rows) → rows !! i = Some r → rows !! j = Some r0 →
  RowID r = RowID r0 → r = r0.
Proof.
  intros Hnd Hi Hj Heq.
  assert (i = j) as ->.
  { eapply NoDup_lookup; [exact Hnd | | ].
    - rewrite list_lookup_fmap, Hi. done.
    - rewrite list_lookup_fmap, Hj. simpl. by rewrite Heq. }
  congruence.
Qed.

(** X7. On a table whose RowIDs are distinct, [InsertBeacon] touches the
    record of the segment's identity only: every record with another SegID
    is afterwards what and where it was. *)
Theorem InsertBeacon_leaves_other_records (e e' : executor') (b : Beacon')
    (usage : Z) (now : Time) (stats : InsertStats) (err : option error')
    (seg : PathSegment') :
  NoDup (RowID <$> db_rows e) →
  Segment b = Some seg →
  InsertBeacon e b usage now = Ret (e', stats, err) →
  ∀ i r, db_rows e !! i = Some r → SegID r ≠ Segment_ID seg →
         db_rows e' !! i = Some r.
Proof.
  intros Hnd Hseg (seg' & Hseg' & Hcases)%InsertBeacon_cases i r Hi Hne.
  assert (seg' = seg) as -> by congruence.
  destruct Hcases as [(-> & _) | [(r0 & _ & _ & _ & -> & _) |
    [(r0 & packed & _ & Hrec & _ & _ & -> & _) |
     (packed & start & _ & _ & _ & _ & -> & _)]]]; simpl; try done.
  - unfold refreshed_rows. rewrite list_lookup_fmap, Hi. simpl.
    rewrite bool_decide_false; [done | ]. intros Heq.
    apply find_Some_holds in Hrec as [Hin Hid].
    apply bool_decide_eq_true in Hid.
    apply list_elem_of_lookup in Hin as [j Hj].
    assert (r = r0) by by eapply lookup_same_RowID. congruence.
  - by apply lookup_app_l_Some.
Qed.

Lemma whole_seconds_not_After (t : Time) :
  t mod 1000000000 = 0 → Time_After t (time_Unix (Time_Unix t) 0) = false.
Proof.
  intros Hmod. unfold Time_After, time_Unix, Time_Unix. apply Z.ltb_ge.
  pose proof (Z.div_mod t 1000000000). lia.
Qed.

Lemma record_of_refreshed (e : executor') (b : Beacon') (seg : PathSegment')
    (r : Row) (usage : Z) (now : Time) (packed : RawBytes) :
  record_of e seg = Some r →
  record_of (with_rows e (refreshed_rows e b seg (RowID r) usage now packed)) seg =
    Some (updated_row r (Segment_FullID seg) (InIfId b)
            (Z.of_nat (length (ASEntries seg))) (Time_Unix (Info_Timestamp seg))
            (Time_Unix (Segment_MaxExpiry seg)) (Time_UnixNano now) usage packed).
Proof.
  intros Hrec. unfold record_of in *. simpl. unfold refreshed_rows.
  erewrite find_fmap_keeps; [ | | exact Hrec].
  - by rewrite bool_decide_true by done.
  - intros x. by destruct (bool_decide (RowID x = RowID r)).
Qed.

Lemma record_of_inserted (e : executor') (b : Beacon') (seg : PathSegment')
    (start : IA) (usage : Z) (now : Time) (packed : RawBytes) :
  record_of e seg = None →
  record_of (with_rows e (db_rows e ++
               [inserted_row e b seg start usage now packed])) seg =
    Some (inserted_row e b seg start usage now packed).
Proof.
  intros Hrec. unfold record_of in *. simpl.
  apply find_app_None_r; [done | ]. by apply bool_decide_eq_true.
Qed.

(** The record of the segment's identity after a call of [InsertBeacon]
    that returned no error. *)
Lemma InsertBeacon_record (e e' : executor') (b : Beacon') (usage : Z)
    (now : Time) (stats : InsertStats) (seg : PathSegment') :
  Segment b = Some seg →
  InsertBeacon e b usage now = Ret (e', stats, None) →
  ∃ r, record_of e' seg = Some r ∧
       (stats ≠ {| Inserted := 0; Updated := 0 |} →
        InfoTime r = Time_Unix (Info_Timestamp seg) ∧
        InIntfID r = InIfId b ∧ PackBeacon seg = inr (Beacon_col r)).
Proof.
  intros Hseg (seg' & Hseg' & Hcases)%InsertBeacon_cases.
  assert (seg' = seg) as -> by congruence.
  destruct Hcases as [(_ & _ & [? [=]]) | [(r & _ & Hrec & _ & -> & -> & _) |
    [(r & packed & _ & Hrec & _ & Hpack & -> & -> & _) |
     (packed & start & _ & Hrec & Hpack & _ & -> & -> & _)]]].
  - exists r. done.
  - eexists. split; [by apply record_of_refreshed | done].
  - eexists. split; [by apply record_of_inserted | done].
Qed.

(** X8. Replaying a beacon is a no-op. After a call of [InsertBeacon] that
    returned no error, a second call with the same beacon changes nothing
    and reports neither an insert nor an update, whatever usage and time it
    is given. The store keeps InfoTime in seconds: the beacon's Info
    timestamp has to be a whole number of seconds, as a later timestamp
    within the same second counts as newer than the record. *)
Theorem InsertBeacon_again_changes_nothing (e e' : executor') (b : Beacon')
    (usage usage' : Z) (now now' : Time) (stats : InsertStats)
    (seg : PathSegment') :
  Segment b = Some seg →
  Info_Timestamp seg mod 1000000000 = 0 →
  InsertBeacon e b usage now = Ret (e', stats, None) →
  InsertBeacon e' b usage' now' =
    Ret (e', {| Inserted := 0; Updated := 0 |}, None).
Proof.
  intros Hseg Hwhole Hfirst.
  pose proof Hfirst as (seg' & Hseg' & Hcases)%InsertBeacon_cases.
  assert (seg' = seg) as -> by congruence.
  assert (db_fault e' StmtSelectMeta = None) as Hmeta.
  { destruct Hcases as [(_ & _ & [? [=]]) | [(r & ? & _ & _ & -> & _) |
      [(r & packed & ? & _ & _ & _ & -> & _) |
       (packed & start & ? & _ & _ & _ & -> & _)]]]; done. }
  pose proof (InsertBeacon_branches e' b usage' now' seg Hseg Hmeta) as Hb.
  assert (∃ r, record_of e' seg = Some r ∧
               Time_After (Info_Timestamp seg) (time_Unix (InfoTime r) 0) = false)
    as (r & Hrec & Hafter).
  { destruct Hcases as [(_ & _ & [? [=]]) | [(r & _ & Hrec & Hafter & -> & _) |
      [(r & packed & _ & Hrec & _ & _ & -> & _) |
       (packed & start & _ & Hrec & _ & _ & -> & _)]]].
    - by exists r.
    - eexists. split; [by apply record_of_refreshed | ].
      by apply whole_seconds_not_After.
    - eexists. split; [by apply record_of_inserted | ].
      by apply whole_seconds_not_After. }
  rewrite Hrec, Hafter in Hb. exact Hb.
Qed.

(** X9. A beacon that [InsertBeacon] has accepted can be looked up:
    on the table the call leaves, [getBeaconID] returns without error the
    RowID of a record with the segment's identity, whenever its own lookup
    statement does not fail. *)
Theorem getBeaconID_finds_inserted_beacon (e e' e'' : executor') (b : Beacon')
    (usage : Z) (now : Time) (stats : InsertStats) (seg : PathSegment') :
  Segment b = Some seg →
  InsertBeacon e b usage now = Ret (e', stats, None) →
  db_rows e'' = db_rows e' → db_fault e'' StmtSelectMeta = None →
  ∃ r, getBeaconID e'' b = Ret (RowID r, None) ∧
       r ∈ db_rows e' ∧ SegID r = Segment_ID seg.
Proof.
  intros Hseg Hins Hrows Hmeta.
  destruct (InsertBeacon_record e e' b usage now stats seg Hseg Hins)
    as (r & Hrec & _).
  exists r. split.
  - unfold getBeaconID. rewrite Hseg.
    rewrite (getBeaconMeta_record_of e'' seg Hmeta).
    assert (record_of e'' seg = Some r) as ->
      by (unfold record_of in *; by rewrite Hrows).
    done.
  - apply find_Some_holds in Hrec as [Hin Hid].
    split; [done | by apply bool_decide_eq_true in Hid].
Qed.

Lemma RowID_below_next (rows : list Row) (r : Row) :
  r ∈ rows → RowID r < next_RowID rows.
Proof.
  unfold next_RowID. induction rows as [|x rows IH]; [by intros ?%elem_of_nil | ].
  intros [-> | Hin]%elem_of_cons; simpl; [lia | ].
  specialize (IH Hin). lia.
Qed.

Lemma find_app_r_None {A : Type} (f : A → bool) (l : list A) (x : A) :
  (∀ y, y ∈ l → f y = false) → f x = true → List.find f (l ++ [x]) = Some x.
Proof.
  intros Hl Hx. apply find_app_None_r; [ | done].
  induction l as [|y l IH]; [done | ]. simpl.
  rewrite Hl by by left. apply IH. intros z Hz. apply Hl. by right.
Qed.

Lemma find_is_Some {A : Type} (f : A → bool) (l : list A) (x : A) :
  x ∈ l → f x = true → is_Some (List.find f l).
Proof.
  induction l as [|y l IH]; [by intros ?%elem_of_nil | ].
  intros Hin Hx. simpl. destruct (f y) eqn:Hy; [by eexists | ].
  apply IH; [ | done]. apply elem_of_cons in Hin as [-> | ?]; [congruence | done].
Qed.

(** X10. Store and fetch. After [InsertBeacon] has inserted or updated a
    beacon, [GetBeaconById] of the identifier [getBeaconID] returns for it
    hands back what the codec makes of the packed segment, with the ingress
    interface the beacon came in on: the beacon itself when unpacking
    inverts packing. *)
Theorem GetBeaconById_returns_inserted_beacon (e e' : executor') (b : Beacon')
    (usage : Z) (now : Time) (stats : InsertStats) (seg : PathSegment') :
  Segment b = Some seg →
  InsertBeacon e b usage now = Ret (e', stats, None) →
  stats ≠ {| Inserted := 0; Updated := 0 |} →
  db_fault e' StmtSelectById = None → db_fault e' StmtScanRow = None →
  ∃ id packed,
    getBeaconID e' b = Ret (id, None) ∧ PackBeacon seg = inr packed ∧
    ∀ seg', UnpackBeacon packed = inr seg' →
      GetBeaconById e' id =
        inr {| Segment := Some seg'; InIfId := uint16 (InIfId b); EgIfId := 0 |}.
Proof.
  intros Hseg (seg' & Hseg' & Hcases)%InsertBeacon_cases Hstats Hbyid Hscan.
  assert (seg' = seg) as -> by congruence.
  destruct Hcases as [(_ & _ & [? [=]]) | [(r & _ & _ & _ & _ & -> & _) |
    [(r & packed & Hmeta & Hrec & _ & Hpack & -> & _ & _) |
     (packed & start & Hmeta & Hrec & Hpack & _ & -> & _ & _)]]]; [done | | ].
  - exists (RowID r), packed. split; [ | split; [done | ]].
    + unfold getBeaconID. rewrite Hseg, getBeaconMeta_record_of by done.
      by rewrite record_of_refreshed.
    + intros seg' Hun. unfold GetBeaconById. rewrite Hbyid, Hscan. simpl.
      unfold refreshed_rows.
      apply find_Some_holds in Hrec as [Hin _].
      destruct (find_is_Some (fun r0 => bool_decide (RowID r0 = RowID r))
                  (db_rows e) r Hin) as [r1 Hr1]; [by apply bool_decide_eq_true | ].
      erewrite find_fmap_keeps; [ | | exact Hr1].
      2:{ intros x. destruct (bool_decide (RowID x = RowID r)) eqn:E; simpl;
          by rewrite ?E. }
      apply find_Some_holds in Hr1 as [_ Hid]. rewrite Hid. simpl.
      by rewrite Hun.
  - exists (next_RowID (db_rows e)), packed. split; [ | split; [done | ]].
    + unfold getBeaconID. rewrite Hseg, getBeaconMeta_record_of by done.
      by rewrite record_of_inserted.
    + intros seg' Hun. unfold GetBeaconById. rewrite Hbyid, Hscan. simpl.
      rewrite find_app_r_None.
      * simpl. by rewrite Hun.
      * intros y Hy%RowID_below_next. apply bool_decide_eq_false. lia.
      * by apply bool_decide_eq_true.
Qed.
Lemma length_filter_negb {A : Type} (f : A → bool) (l : list A) :
  (length (List.filter f l) + length (List.filter (fun x => negb (f x)) l))%nat =
    length l.
Proof.
  induction l as [|x l IH]; [done | ]. simpl.
  destruct (f x); simpl; lia.
Qed.

Lemma filter_sublist {A : Type} (f : A → bool) (l : list A) :
  List.filter f l `sublist_of` l.
Proof.
  induction l as [|x l IH]; [done | ]. simpl.
  destruct (f x); [by apply sublist_skip | by apply sublist_cons].
Qed.

Lemma filter_all {A : Type} (f : A → bool) (l : list A) :
  (∀ x, x ∈ l → f x = true) → List.filter f l = l.
Proof.
  induction l as [|x l IH]; [done | ]. intros Hall. simpl.
  rewrite Hall by by left. f_equal. apply IH. intros y Hy. apply Hall. by right.
Qed.

(** X11. A sweep that succeeds removes the records with an expiration time
    before [now.Unix()] and no other, leaves the rest in their order, and
    returns the number of records it removed; a record that expires in the
    very second of the sweep stays. *)
Theorem DeleteExpiredBeacons_removes_the_expired (e e' : executor')
    (now : Time) (deleted : Z) :
  DeleteExpiredBeacons e now = (e', deleted, None) →
  db_rows e' `sublist_of` db_rows e ∧
  (∀ r, r ∈ db_rows e' ↔ r ∈ db_rows e ∧ Time_Unix now ≤ ExpirationTime r) ∧
  deleted = Z.of_nat (length (List.filter
                               (fun r => ExpirationTime r <? Time_Unix now)
                               (db_rows e))) ∧
  Z.of_nat (length (db_rows e')) + deleted = Z.of_nat (length (db_rows e)).
Proof.
  unfold DeleteExpiredBeacons. destruct (db_fault e StmtDelete); [done | ].
  intros [= <- <-]. simpl.
  pose proof (length_filter_negb (fun r => ExpirationTime r <? Time_Unix now)
                (db_rows e)) as Hlen.
  split; [apply filter_sublist | ]. split; [ | split; lia].
  intros r. rewrite !list_elem_of_In, filter_In, negb_true_iff, Z.ltb_ge. done.
Qed.

(** X12. Sweeping twice is sweeping once: after a sweep at [now], a sweep at
    the same or an earlier time removes nothing and leaves the store as it
    is. *)
Theorem DeleteExpiredBeacons_again_removes_nothing (e e' : executor')
    (now now' : Time) (deleted : Z) :
  DeleteExpiredBeacons e now = (e', deleted, None) →
  Time_Unix now' ≤ Time_Unix now →
  DeleteExpiredBeacons e' now' = (e', 0, None).
Proof.
  unfold DeleteExpiredBeacons.
  destruct (db_fault e StmtDelete) eqn:Hf; [done | ].
  intros [= <- _] Hle. simpl. rewrite Hf.
  rewrite (filter_all _ (List.filter _ _)).
  - unfold with_rows. simpl. f_equal. f_equal. lia.
  - intros r [_ Hr]%list_elem_of_In%filter_In.
    apply negb_true_iff, Z.ltb_ge in Hr. apply negb_true_iff, Z.ltb_ge. lia.
Qed.

(** X13. After a sweep, [CandidateBeacons] returns live beacons only: each
    beacon it returns is unpacked from a record that has not expired at the
    time of the sweep. *)
Theorem CandidateBeacons_after_sweep_are_live (e e' : executor')
    (now now' : Time) (deleted setSize usage : Z) (src : IA)
    (beacons : list Beacon') :
  DeleteExpiredBeacons e now = (e', deleted, None) →
  CandidateBeacons e' setSize usage src now' = Ret (inr beacons) →
  ∃ rows,
    Forall2 decodes_to rows beacons ∧
    ∀ r, r ∈ rows → r ∈ db_rows e ∧ Time_Unix now ≤ ExpirationTime r.
Proof.
  intros Hsweep. unfold CandidateBeacons.
  destruct (db_fault e' StmtSelectCandidates); [done | ].
  destruct (setSize <? 0); [done | ]. intros [= Hscan].
  destruct (CandidateBeacons_scan_decodes _ _ _ _ Hscan) as (decoded & -> & Hdec).
  eexists. split; [exact Hdec | ].
  intros r [Hin _]%CandidateBeacons_query_selected.
  by apply (DeleteExpiredBeacons_leaves_unexpired e e' now deleted r Hsweep).
Qed.

(** X14. Once the sweep has removed the records of a segment's identity,
    the beacon is gone: [getBeaconID] answers "beacon not found" with the
    identifier -1. *)
Theorem getBeaconID_after_sweep_finds_nothing (e e' : executor') (b : Beacon')
    (now : Time) (deleted : Z) (seg : PathSegment') :
  Segment b = Some seg →
  DeleteExpiredBeacons e now = (e', deleted, None) →
  db_fault e StmtSelectMeta = None →
  (∀ r, r ∈ db_rows e → SegID r = Segment_ID seg →
        ExpirationTime r < Time_Unix now) →
  getBeaconID e' b =
    Ret (-1, Some (serrors_New "beacon not found"
                     [("segID"%string, CtxBytes (Segment_ID seg))])).
Proof.
  intros Hseg Hsweep Hmeta Hexp.
  assert (db_fault e' StmtSelectMeta = None) as Hmeta'.
  { revert Hsweep. unfold DeleteExpiredBeacons.
    destruct (db_fault e StmtDelete); [done | ]. by intros [= <- _]. }
  unfold getBeaconID. rewrite Hseg, (getBeaconMeta_record_of e' seg Hmeta').
  destruct (record_of e' seg) as [r|] eqn:Hrec; [exfalso | done].
  apply find_Some_holds in Hrec as [Hin Hid]. apply bool_decide_eq_true in Hid.
  apply (DeleteExpiredBeacons_leaves_unexpired e e' now deleted r Hsweep) in Hin
    as [Hin Hlive].
  specialize (Hexp r Hin Hid). lia.
Qed.

(** X15. [CandidateBeacons] returns as many beacons as [setSize] allows: a
    successful call returns min(setSize, number of records that match the
    usage mask and the source) beacons. *)
Theorem CandidateBeacons_returns_as_many_as_setSize_allows (e : executor')
    (setSize usage : Z) (src : IA) (now : Time) (beacons : list Beacon') :
  CandidateBeacons e setSize usage src now = Ret (inr beacons) →
  Z.of_nat (length beacons) =
    Z.min setSize
      (Z.of_nat (length (List.filter (CandidateBeacons_where usage src)
                           (db_rows e)))).
Proof.
  unfold CandidateBeacons.
  destruct (db_fault e StmtSelectCandidates); [done | ].
  destruct (setSize <? 0) eqn:Hn; [done | ]. apply Z.ltb_ge in Hn.
  intros [= Hscan].
  destruct (CandidateBeacons_scan_decodes _ _ _ _ Hscan) as (decoded & -> & Hdec).
  apply Forall2_length in Hdec. simpl. rewrite <- Hdec.
  unfold CandidateBeacons_query.
  destruct (setSize <? 0) eqn:Hn'; [apply Z.ltb_lt in Hn'; lia | ].
  rewrite length_take, merge_sort_Permutation. lia.
Qed.

(** X16. One record that cannot be unpacked fails the whole call: when a
    record selected by [CandidateBeacons] does not unpack, the call returns
    a data error and no beacons, although the statement itself and the
    reading of the rows succeeded. *)
Theorem CandidateBeacons_fails_on_a_corrupt_record (e : executor')
    (setSize usage : Z) (src : IA) (now : Time) (r : Row) (cause : error') :
  db_fault e StmtSelectCandidates = None →
  db_fault e StmtScanRow = None →
  0 ≤ setSize →
  r ∈ CandidateBeacons_query (db_rows e) setSize usage src →
  UnpackBeacon (Beacon_col r) = inl cause →
  ∃ r' cause',
    r' ∈ CandidateBeacons_query (db_rows e) setSize usage src ∧
    UnpackBeacon (Beacon_col r') = inl cause' ∧
    CandidateBeacons e setSize usage src now =
      Ret (inl (db_NewDataError ErrParse cause')).
Proof.
  intros Hsel Hscan Hsize Hin Hbad. unfold CandidateBeacons.
  rewrite Hsel. destruct (setSize <? 0) eqn:Hn; [apply Z.ltb_lt in Hn; lia | ].
  generalize dependent (CandidateBeacons_query (db_rows e) setSize usage src).
  intros rows Hin. generalize (@nil Beacon').
  induction rows as [|x rows IH]; intros acc; [by apply elem_of_nil in Hin | ].
  simpl. rewrite Hscan.
  destruct (UnpackBeacon (Beacon_col x)) as [err | s] eqn:Hx.
  - exists x, err. split; [by left | done].
  - apply elem_of_cons in Hin as [-> | Hin]; [congruence | ].
    destruct (IH Hin (acc ++ [mkBeacon (Some s) (uint16 (InIntfID x)) 0]))
      as (r' & cause' & Hr' & Hbad' & Hrun).
    exists r', cause'. split; [by right | done].
Qed.
Lemma BeaconSources_scan_reads (e : executor') (rows : list (Z * Z))
    (acc ias : list IA) :
  BeaconSources_scan e rows acc = inr ias →
  ias = acc ++ ((fun p => mkIA p.1 p.2) <$> rows).
Proof.
  revert acc. induction rows as [|[isd as_] rows IH]; intros acc; simpl.
  - destruct (db_fault e StmtRowsErr); [done | ].
    intros [= <-]. by rewrite app_nil_r.
  - destruct (db_fault e StmtScanRow); [done | ].
    destruct (fits_uint 16 isd && fits_uint 64 as_); [ | done].
    intros ->%IH. by rewrite <- app_assoc.
Qed.

Lemma BeaconSources_are_the_distinct_origins_aux (e : executor') (ias : list IA) :
  BeaconSources e = inr ias →
  NoDup ias ∧
  (∀ ia, ia ∈ ias ↔
         ∃ r, r ∈ db_rows e ∧ StartIsd r = IA_I ia ∧ StartAs r = IA_A ia).
Proof.
  unfold BeaconSources. destruct (db_fault e StmtSelectSources); [done | ].
  intros ->%BeaconSources_scan_reads. simpl. split.
  - assert (Inj eq eq (fun p : Z * Z => mkIA p.1 p.2))
      by (intros [a b] [c d] [= -> ->]; done).
    apply (NoDup_fmap_2 _), NoDup_distinct.
  - intros ia. rewrite list_elem_of_fmap. split.
    + intros ([isd as_] & -> & Hin). rewrite elem_of_distinct in Hin.
      apply list_elem_of_fmap in Hin as (r & [= -> ->] & Hr). by exists r.
    + intros (r & Hr & HI & HA). exists (StartIsd r, StartAs r). split.
      * destruct ia. simpl in *. by subst.
      * rewrite elem_of_distinct. apply list_elem_of_fmap. by exists r.
Qed.

(** X17. [BeaconSources] names every origin once: when it succeeds, the
    result has no duplicates and holds exactly the origin ASes (StartIsd,
    StartAs) of the records of the table; for an empty table it is
    empty. *)
Theorem BeaconSources_are_the_distinct_origins (e : executor') (ias : list IA) :
  BeaconSources e = inr ias →
  NoDup ias ∧
  (∀ ia, ia ∈ ias ↔
         ∃ r, r ∈ db_rows e ∧ StartIsd r = IA_I ia ∧ StartAs r = IA_A ia) ∧
  (db_rows e = [] → ias = []).
Proof.
  intros Hsrc.
  destruct (BeaconSources_are_the_distinct_origins_aux e ias Hsrc) as [Hnd Hmem].
  split; [done | ]. split; [done | ].
  intros Hrows. destruct ias as [|ia ias]; [done | exfalso].
  destruct (Hmem ia) as [Hex _]. destruct Hex as (r & Hr & _); [by left | ].
  rewrite Hrows in Hr. by apply elem_of_nil in Hr.
Qed.

(** X18. [InsertBeacon] only adds to the sources: an origin [BeaconSources]
    names before the call is named after it, and so is the origin of a
    beacon the call has inserted. *)
Theorem BeaconSources_grow_with_InsertBeacon (e e' : executor') (b : Beacon')
    (usage : Z) (now : Time) (stats : InsertStats) (err : option error')
    (ias ias' : list IA) :
  InsertBeacon e b usage now = Ret (e', stats, err) →
  BeaconSources e = inr ias → BeaconSources e' = inr ias' →
  (∀ ia, ia ∈ ias → ia ∈ ias') ∧
  (Inserted stats = 1 →
   ∀ seg start, Segment b = Some seg → FirstIA seg = Ret start → start ∈ ias').
Proof.
  intros Hins Hsrc Hsrc'.
  destruct (BeaconSources_are_the_distinct_origins_aux e ias Hsrc) as (_ & Hmem).
  destruct (BeaconSources_are_the_distinct_origins_aux e' ias' Hsrc') as (_ & Hmem').
  apply InsertBeacon_cases in Hins as (seg & Hseg & Hcases).
  split.
  - intros ia (r & Hr & HI & HA)%Hmem. apply Hmem'.
    destruct Hcases as [(-> & _) | [(r0 & _ & _ & _ & -> & _) |
      [(r0 & packed & _ & _ & _ & _ & -> & _) |
       (packed & start & _ & _ & _ & _ & -> & _)]]]; simpl.
    + by exists r.
    + by exists r.
    + eexists. split.
      * unfold refreshed_rows. apply list_elem_of_fmap. by exists r.
      * by destruct (bool_decide _).
    + exists r. split; [ | done]. apply elem_of_app. by left.
  - intros Hone seg' start Hseg' Hstart.
    assert (seg' = seg) as -> by congruence.
    destruct Hcases as [(_ & -> & _) | [(r0 & _ & _ & _ & _ & -> & _) |
      [(r0 & packed & _ & _ & _ & _ & _ & -> & _) |
       (packed & start' & _ & _ & _ & Hstart' & -> & _)]]]; try done.
    assert (start' = start) as -> by congruence.
    apply Hmem'. eexists. split.
    + simpl. apply elem_of_app. right. by left.
    + done.
Qed.

Lemma GetBeacons_scan_reads (e : executor') (rows : list Selected)
    (acc res : list StoredBeacon') :
  GetBeacons_scan e rows acc = inr res →
  ∃ read, res = acc ++ read ∧ Forall2 scans_to rows read.
Proof.
  revert acc. induction rows as [|row rows IH]; intros acc; simpl.
  - destruct (db_fault e StmtRowsErr); [done | ].
    intros [= <-]. exists []. by rewrite app_nil_r.
  - destruct (db_fault e StmtScanRow); [done | ].
    destruct (fits_uint 16 (sel_InIntfID row)); [ | done].
    destruct (UnpackBeacon (sel_Beacon row)) as [err | seg] eqn:Hseg; [done | ].
    intros (read & -> & Hread)%IH.
    eexists (_ :: read). split; [by rewrite <- app_assoc | ].
    constructor; [ | done]. by exists seg.
Qed.

#[global] Instance newest_first_trans : Transitive newest_first.
Proof. unfold newest_first. intros x y z. lia. Qed.

#[global] Instance newest_first_total : Total newest_first.
Proof. unfold newest_first. intros x y. lia. Qed.

(** X20. [GetBeacons] with parameters returns the records the parameters
    ask for, newest first: when it succeeds, its result is read row by row
    from the selected columns of the records that satisfy every group of
    the parameters, each combination of columns once, in descending order
    of LastUpdated. An empty group does not constrain, nor does a group of
    zero origins or of usages that are not positive. *)
Theorem GetBeacons_returns_the_records_asked_for (e : executor')
    (params : QueryParams) (res : list StoredBeacon') :
  GetBeacons e (Some params) = inr res →
  ∃ rows,
    Forall2 scans_to rows res ∧ NoDup rows ∧
    (∀ s, s ∈ rows ↔ ∃ r, r ∈ db_rows e ∧ matches params r ∧ s = select r) ∧
    StronglySorted newest_first rows.
Proof.
  unfold GetBeacons. destruct (buildQuery (Some params)) as [stmt args].
  destruct (db_fault e StmtSelectBeacons); [done | ].
  intros (read & -> & Hread)%GetBeacons_scan_reads.
  eexists. split; [exact Hread | ]. unfold GetBeacons_query.
  split; [ | split].
  - rewrite merge_sort_Permutation. apply NoDup_distinct.
  - intros s. rewrite merge_sort_Permutation, elem_of_distinct, list_elem_of_fmap.
    split.
    + intros (r & -> & [Hr Hw]%list_elem_of_In%filter_In). exists r.
      split; [by apply list_elem_of_In | ]. split; [ | done].
      by apply buildQuery_where_matches.
    + intros (r & Hr & Hm & ->). exists r. split; [done | ].
      apply list_elem_of_In, filter_In. split; [by apply list_elem_of_In | ].
      by apply buildQuery_where_matches.
  - apply (StronglySorted_merge_sort _).
Qed.

(** X21. [GetBeacons] without parameters returns every record: on a table
    whose RowIDs are distinct, a successful call with nil parameters reads
    one stored beacon from each record. *)
Theorem GetBeacons_without_parameters_returns_every_record (e : executor')
    (res : list StoredBeacon') :
  NoDup (RowID <$> db_rows e) →
  GetBeacons e None = inr res →
  ∃ rows, rows ≡ₚ select <$> db_rows e ∧ Forall2 scans_to rows res.
Proof.
  intros Hnd. unfold GetBeacons. simpl.
  destruct (db_fault e StmtSelectBeacons); [done | ].
  intros (read & -> & Hread)%GetBeacons_scan_reads.
  eexists. split; [ | exact Hread].
  rewrite distinct_NoDup; [done | ].
  apply (NoDup_fmap_1 sel_RowID). by rewrite <- list_fmap_compose.
Qed.
End StoreProperties.

(** ** [sort.Slice] on short slices meets the contract of [sort.Slice] *)

Section GoSortFacts.
Context {A : Type}.
Local Open Scope nat_scope.
Implicit Types (data pre post rest : list A) (x y : A).
Implicit Types (less : list A → nat → nat → bool).

Lemma Swap_Permutation data i j : GoSort.Swap data i j ≡ₚ data.
Proof.
  unfold GoSort.Swap. destruct (data !! i) as [x|] eqn:Hi; [ | done].
  destruct (data !! j) as [y|] eqn:Hj; [ | done].
  by apply Permutation_insert_swap.
Qed.

Lemma insertionSort_inner_Permutation less a j data :
  GoSort.insertionSort_inner less a j data ≡ₚ data.
Proof.
  revert data. induction j as [|j IH]; intros data; simpl; [done | ].
  destruct (_ && _); [ | done]. by rewrite IH, Swap_Permutation.
Qed.

Lemma insertionSort_outer_Permutation less a i left data :
  GoSort.insertionSort_outer less a i left data ≡ₚ data.
Proof.
  revert i data. induction left as [|left IH]; intros i data; simpl; [done | ].
  by rewrite IH, insertionSort_inner_Permutation.
Qed.

Lemma shellPass_Permutation less i left data : GoSort.shellPass less i left data ≡ₚ data.
Proof.
  revert i data. induction left as [|left IH]; intros i data; simpl; [done | ].
  rewrite IH. destruct (less data i (i - 6)); [ | done]. apply Swap_Permutation.
Qed.

Lemma Slice_Permutation (x : list A) less : GoSort.Slice x less ≡ₚ x.
Proof.
  unfold GoSort.Slice, GoSort.quickSort_func_small, GoSort.insertionSort_func.
  destruct (_ <? _)%nat; [ | done].
  by rewrite insertionSort_outer_Permutation, shellPass_Permutation.
Qed.

Lemma StrictWeakOrderOn_Permutation (l k : list A) lt :
  l ≡ₚ k → StrictWeakOrderOn l lt → StrictWeakOrderOn k lt.
Proof.
  intros Hp (Hirr & Htr & Hneg).
  split; [ | split]; intros *; rewrite <- ?Hp; eauto.
Qed.

Section sorts.
Context (lt : A → A → bool).

Lemma Swap_adjacent pre x y post :
  GoSort.Swap (pre ++ y :: x :: post) (S (length pre)) (length pre) =
    pre ++ x :: y :: post.
Proof.
  unfold GoSort.Swap.
  rewrite (lookup_app_r pre), (lookup_app_r pre) by lia.
  replace (S (length pre) - length pre)%nat with 1%nat by lia.
  rewrite Nat.sub_diag. simpl.
  rewrite !insert_app_r_alt by lia.
  replace (S (length pre) - length pre)%nat with 1%nat by lia.
  rewrite Nat.sub_diag. done.
Qed.

Lemma insertionSort_inner_inserts pre x post :
  ∃ p1 p2,
    pre = p1 ++ p2 ∧
    GoSort.insertionSort_inner (index_less lt) 0 (length pre) (pre ++ x :: post) =
      p1 ++ x :: p2 ++ post ∧
    Forall (fun y => lt x y = true) p2 ∧
    (∀ y, last p1 = Some y → lt x y = false).
Proof.
  revert post. induction pre as [|y pre IH] using rev_ind; intros post.
  - exists [], []. by repeat split.
  - rewrite length_app, Nat.add_1_r. cbn [GoSort.insertionSort_inner length].
    rewrite <- (app_assoc pre [y]). cbn [app].
    assert (index_less lt (pre ++ y :: x :: post) (S (length pre)) (length pre)
            = lt x y) as ->.
    { unfold index_less.
      rewrite (lookup_app_r pre), (lookup_app_r pre) by lia.
      replace (S (length pre) - length pre)%nat with 1%nat by lia.
      by rewrite Nat.sub_diag. }
    cbn [Nat.ltb Nat.leb andb]. destruct (lt x y) eqn:Hxy.
    + rewrite Swap_adjacent.
      destruct (IH (y :: post)) as (p1 & p2 & -> & Hins & Hp2 & Hlast).
      exists p1, (p2 ++ [y]). split; [by rewrite <- app_assoc | ].
      split; [ | split; [ | done]].
      * rewrite Hins. by rewrite <- (app_assoc p2 [y]).
      * apply Forall_app. split; [done | by constructor].
    + exists (pre ++ [y]), []. split; [by rewrite app_nil_r | ].
      split; [by rewrite <- app_assoc | ]. split; [done | ].
      intros z. rewrite last_snoc. by intros [= <-].
Qed.

Lemma insertionSort_inner_sorted pre x post :
  StrictWeakOrderOn (pre ++ x :: post) lt →
  StronglySorted (not_after lt) pre →
  ∃ pre', length pre' = S (length pre) ∧
    GoSort.insertionSort_inner (index_less lt) 0 (length pre) (pre ++ x :: post) =
      pre' ++ post ∧
    StronglySorted (not_after lt) pre'.
Proof.
  intros (Hirr & Htr & Hneg) Hpre.
  destruct (insertionSort_inner_inserts pre x post)
    as (p1 & p2 & -> & Hins & Hp2 & Hlast).
  exists (p1 ++ x :: p2). split; [rewrite !length_app; simpl; lia | ].
  split; [by rewrite Hins, <- app_assoc | ].
  apply StronglySorted_app in Hpre as (H12 & Hs1 & Hs2).
  assert (Hx : x ∈ (p1 ++ p2) ++ x :: post).
  { rewrite elem_of_app, elem_of_cons. auto. }
  apply StronglySorted_app. split; [ | split; [done | ]].
  - intros a c Ha [-> | Hc]%elem_of_cons; [ | by apply H12].
    unfold not_after.
    destruct (last p1) as [y|] eqn:Hy.
    2:{ apply last_None in Hy. subst p1. by apply elem_of_nil in Ha. }
    pose proof (Hlast y eq_refl) as Hxy.
    apply last_Some in Hy as [p1' ->].
    apply elem_of_app in Ha as [Ha | ->%list_elem_of_singleton]; [ | done].
    apply StronglySorted_app in Hs1 as (Hay & _ & _).
    apply (Hneg x y a); [done | | | done | ].
    + rewrite !elem_of_app, list_elem_of_singleton. auto.
    + rewrite !elem_of_app. auto.
    + apply (Hay a y); [done | by apply list_elem_of_singleton].
  - constructor; [done | ]. rewrite Forall_forall in Hp2 |- *.
    intros b Hb. unfold not_after.
    destruct (lt b x) eqn:Hbx; [ | done].
    assert (lt x x = true) as Hxx.
    { apply (Htr x b x); [done | | done | by apply Hp2 | done].
      rewrite !elem_of_app. auto. }
    by rewrite Hirr in Hxx.
Qed.

Lemma insertionSort_outer_sorted pre rest :
  StrictWeakOrderOn (pre ++ rest) lt →
  StronglySorted (not_after lt) pre →
  StronglySorted (not_after lt)
    (GoSort.insertionSort_outer (index_less lt) 0 (length pre) (length rest)
       (pre ++ rest)).
Proof.
  revert pre. induction rest as [|x post IH]; intros pre Hswo Hpre.
  - simpl. by rewrite app_nil_r.
  - cbn [length GoSort.insertionSort_outer].
    pose proof (insertionSort_inner_Permutation (index_less lt) 0 (length pre)
                  (pre ++ x :: post)) as Hp.
    destruct (insertionSort_inner_sorted pre x post Hswo Hpre)
      as (pre' & Hlen & Heq & Hpre').
    rewrite Heq in Hp |- *. rewrite <- Hlen. apply IH; [ | done].
    eapply StrictWeakOrderOn_Permutation; [ | exact Hswo]. done.
Qed.

Lemma Slice_sorted (x : list A) :
  StrictWeakOrderOn x lt →
  StronglySorted (not_after lt) (GoSort.Slice x (index_less lt)).
Proof.
  intros Hswo. unfold GoSort.Slice, GoSort.quickSort_func_small, GoSort.insertionSort_func.
  destruct (1 <? length x - 0)%nat eqn:Hlen.
  2:{ apply Nat.ltb_ge in Hlen. destruct x as [|a [|b x]]; simpl in *;
      [constructor | repeat constructor | lia]. }
  pose proof (shellPass_Permutation (index_less lt) (0 + 6) (length x - (0 + 6)) x) as Hp.
  set (data := GoSort.shellPass _ _ _ x) in *.
  assert (length data = length x) as Hl by by rewrite Hp.
  apply Nat.ltb_lt in Hlen.
  destruct data as [|a data]; [simpl in Hl; lia | ].
  simpl in Hl. rewrite <- Hl. cbn [Nat.add].
  replace (S (length data) - 1)%nat with (length data) by lia.
  apply (insertionSort_outer_sorted [a] data).
  - eapply StrictWeakOrderOn_Permutation; [symmetry; exact Hp | done].
  - repeat constructor.
Qed.
End sorts.
End GoSortFacts.

(** ** The PQA backend *)

Section BackendClaims.
Context {Quality Direction Metric : Type}.
Context `{!SegLib Quality Direction}.
Context `{!TargetPolicy Quality Direction Metric}.
Context `{!TargetStore Quality Direction}.
Context `{!BeaconsById Quality Direction}.
Context `{!SortLib}.
Abbreviation Beacon' := (Beacon Quality Direction).
Abbreviation PathSegment' := (PathSegment Quality Direction).
Abbreviation error' := (error Quality Direction).
Abbreviation Target' := (Target Quality Direction).
Abbreviation Backend := (PqaMemoryBackend.t Quality Direction).

Lemma getBeaconID_returns (e : executor Quality Direction) (bcn : Beacon')
    (seg : PathSegment') :
  Segment bcn = Some seg → ∃ r, getBeaconID e bcn = Ret r.
Proof.
  intros Hseg. unfold getBeaconID. rewrite Hseg.
  destruct (getBeaconMeta e (Segment_ID seg)) as [? | [?|]]; eauto.
Qed.

(** C10. Once the base insert has succeeded, [InsertBeacon] of the PQA
    backend indexes the first AS entry: on a segment without AS entries it
    panics, on any other it returns. It associates the beacon with a target
    only from the extension of that first entry; when the first entry has
    none, the target index is left as it was, whatever the later entries
    carry. *)
Theorem InsertBeacon_reads_first_ASEntry (b : Backend) (bcn : Beacon')
    (usage : Z) (now : Time) (seg : PathSegment')
    (beacons : executor Quality Direction) (stats : InsertStats) :
  Segment bcn = Some seg →
  InsertBeacon (PqaMemoryBackend.Beacons b) bcn usage now =
    Ret (beacons, stats, None) →
  (ASEntries seg = [] →
     PqaMemoryBackend.InsertBeacon b bcn usage now = Panic) ∧
  (ASEntries seg ≠ [] →
     ∃ r, PqaMemoryBackend.InsertBeacon b bcn usage now = Ret r) ∧
  (∀ asEntry0 rest,
     ASEntries seg = asEntry0 :: rest →
     Extensions_PqaExtension asEntry0 = None →
     ∃ log,
       PqaMemoryBackend.InsertBeacon b bcn usage now =
         Ret (PqaMemoryBackend.mk beacons (PqaMemoryBackend.Targets_ b),
              stats, None, log)) ∧
  (∀ b' stats' err log,
     PqaMemoryBackend.InsertBeacon b bcn usage now = Ret (b', stats', err, log) →
     PqaMemoryBackend.Targets_ b' = PqaMemoryBackend.Targets_ b ∨
     ∃ asEntry0 rest pqaExtension0 beaconID,
       ASEntries seg = asEntry0 :: rest ∧
       Extensions_PqaExtension asEntry0 = Some pqaExtension0 ∧
       getBeaconID beacons bcn = Ret (beaconID, None) ∧
       PqaMemoryBackend.Targets_ b' =
         AssociateBeacon (PqaMemoryBackend.Targets_ b) beaconID
           {| Target_Quality := ext_Quality pqaExtension0;
              Target_Direction := ext_Direction pqaExtension0;
              Target_Uniquifier := ext_Uniquifier pqaExtension0 mod 2 ^ 32;
              Target_IA := Local asEntry0 |}).
Proof.
  intros Hseg Hbase. unfold PqaMemoryBackend.InsertBeacon.
  rewrite Hbase. simpl. rewrite Hseg.
  split; [ | split; [ | split]].
  - by intros ->.
  - intros Hne. destruct (ASEntries seg) as [|asEntry0 rest] eqn:Has; [done | ].
    destruct (Extensions_PqaExtension asEntry0); [ | eauto].
    unfold FirstIA. rewrite Has. simpl.
    destruct (getBeaconID_returns beacons bcn seg Hseg) as [[id err] ->].
    simpl. destruct err; eauto.
  - intros asEntry0 rest -> ->. eauto.
  - intros b' stats' err log.
    destruct (ASEntries seg) as [|asEntry0 rest] eqn:Has; [done | ].
    destruct (Extensions_PqaExtension asEntry0) as [ext|] eqn:Hext.
    + unfold FirstIA. rewrite Has. simpl.
      destruct (getBeaconID beacons bcn) as [[id [e|]]|] eqn:Hid; simpl.
      * intros [= <- _ _ _]. by left.
      * intros [= <- _ _ _]. right. by exists asEntry0, rest, ext, id.
      * done.
    + intros [= <- _ _ _]. by left.
Qed.

Lemma less_index_less (target : Target') :
  PqaMemoryBackend.less target = index_less (better target).
Proof. reflexivity. Qed.

Lemma applyFilter_filter (bcns : list Beacon') (f : Beacon' → bool) :
  PqaMemoryBackend.applyFilter bcns f = List.filter f bcns.
Proof.
  unfold PqaMemoryBackend.applyFilter.
  enough (∀ acc, foldl (fun filtered bcn =>
                          if f bcn then filtered ++ [bcn] else filtered) acc bcns
                 = acc ++ List.filter f bcns) as Hgen by apply (Hgen []).
  induction bcns as [|x bcns IH]; intros acc; simpl.
  - by rewrite app_nil_r.
  - rewrite IH. destruct (f x); [by rewrite <- app_assoc | done].
Qed.

Lemma truncate_take {A : Type} (n : nat) (l : list A) :
  (if (n <? length l)%nat then take n l else l) = take n l.
Proof.
  destruct (n <? length l)%nat eqn:Hn; [done | ].
  apply Nat.ltb_ge in Hn. by rewrite take_ge.
Qed.

Lemma GetNBestsForGroup_unfold (b : Backend) (src : IA) (target : Target')
    (ingressIntfs : list Interface) (excludeLooping : IA) :
  let bcnIds := GetBeaconIdsForTarget (PqaMemoryBackend.Targets_ b) target in
  let fetched := GetBeaconsById (PqaMemoryBackend.Beacons b) bcnIds in
  PqaMemoryBackend.GetNBestsForGroup b src target ingressIntfs excludeLooping =
    if (length bcnIds =? 0)%nat then ([], None, [])
    else (take pqa_extension_N
            (sort_Slice (passing target ingressIntfs excludeLooping fetched.1)
                        (PqaMemoryBackend.less target)),
          None,
          match fetched.2 with
          | Some err => [mkLogEntry LvlError "Fetching beacons" (Some err) []]
          | None => []
          end).
Proof.
  intros bcnIds fetched. unfold PqaMemoryBackend.GetNBestsForGroup.
  fold bcnIds. destruct (length bcnIds =? 0)%nat; [done | ].
  fold fetched. destruct fetched as [bcnCandidates err]. simpl.
  by rewrite truncate_take, !applyFilter_filter.
Qed.

(** [GetNBestsForGroup] returns no error. *)
Lemma GetNBestsForGroup_no_error (b : Backend) (src : IA) (target : Target')
    (ingressIntfs : list Interface) (excludeLooping : IA) :
  (PqaMemoryBackend.GetNBestsForGroup b src target ingressIntfs
     excludeLooping).1.2 = None.
Proof.
  rewrite GetNBestsForGroup_unfold. by destruct (_ =? _)%nat.
Qed.

(** Every beacon [GetNBestsForGroup] returns was fetched and passes the
    three filters. *)
Lemma GetNBestsForGroup_passing (b : Backend) (src : IA) (target : Target')
    (ingressIntfs : list Interface) (excludeLooping : IA) (bcn : Beacon') :
  sort_Slice_permutes _ →
  bcn ∈ (PqaMemoryBackend.GetNBestsForGroup b src target ingressIntfs
           excludeLooping).1.1 →
  bcn ∈ passing target ingressIntfs excludeLooping
          (GetBeaconsById (PqaMemoryBackend.Beacons b)
             (GetBeaconIdsForTarget (PqaMemoryBackend.Targets_ b) target)).1.
Proof.
  intros Hperm. rewrite GetNBestsForGroup_unfold.
  destruct (_ =? _)%nat; simpl; [by intros ?%elem_of_nil | ].
  intros Hin%subseteq_take. by rewrite (Hperm _ _ _) in Hin.
Qed.

Lemma FilterLoop_traverses (bcn : Beacon') (x : IA) :
  FilterLoop bcn x true = None ↔ ¬ traverses bcn x.
Proof.
  unfold FilterLoop, traverses. destruct (Segment bcn) as [s|].
  - destruct (existsb _ _) eqn:Hex.
    + split; [done | ]. intros Hn. exfalso. apply Hn. exists s. split; [done | ].
      apply existsb_exists in Hex as (e & Hin & <-%IA_Equal_spec).
      apply list_elem_of_fmap. exists e. by rewrite list_elem_of_In.
    + split; [ | done]. intros _ (s' & [= <-] & Hin).
      apply list_elem_of_fmap in Hin as (e & -> & Hin).
      assert (existsb (fun e0 => IA_Equal (Local e0) (Local e)) (ASEntries s) = true)
        as Hex'; [ | congruence].
      apply existsb_exists. exists e. rewrite <- list_elem_of_In.
      split; [done | by apply IA_Equal_spec].
  - split; [ | done]. by intros _ (s' & ? & _).
Qed.

Lemma passing_would_not_loop (target : Target') (ingressIntfs : list Interface)
    (excludeLooping : IA) (fetched : list Beacon') (bcn : Beacon') :
  bcn ∈ passing target ingressIntfs excludeLooping fetched →
  bcn ∈ fetched ∧ ¬ traverses bcn excludeLooping ∧
  PqaMemoryBackend.entered_through ingressIntfs bcn = true ∧
  ShouldConsider target bcn = true.
Proof.
  unfold passing. rewrite !list_elem_of_In, !filter_In.
  intros [[[Hin Hent] Hloop] Hsc]. repeat split; [done | | done | done].
  apply FilterLoop_traverses. unfold PqaMemoryBackend.would_not_loop in Hloop.
  by destruct (FilterLoop bcn excludeLooping true).
Qed.
End BackendClaims.

Section BackendProperties.
Context {Quality Direction Metric : Type}.
Context `{!SegLib Quality Direction}.
Context `{!TargetPolicy Quality Direction Metric}.
Context `{!TargetStore Quality Direction}.
Context `{!BeaconsById Quality Direction}.
Context `{!SortLib}.
Abbreviation Beacon' := (Beacon Quality Direction).
Abbreviation PathSegment' := (PathSegment Quality Direction).
Abbreviation error' := (error Quality Direction).
Abbreviation LogEntry' := (LogEntry Quality Direction).
Abbreviation Target' := (Target Quality Direction).
Abbreviation Backend := (PqaMemoryBackend.t Quality Direction).

(** X22. The PQA backend stores and reports what the beacon store does:
    the store and the stats it returns are those of the base insert, and
    when the base insert fails it returns that error, logs nothing and
    leaves the target index as it was. *)
Theorem InsertBeacon_of_backend_follows_base_insert (b b' : Backend)
    (bcn : Beacon') (usage : Z) (now : Time) (stats : InsertStats)
    (err : option error') (log : list LogEntry') :
  PqaMemoryBackend.InsertBeacon b bcn usage now = Ret (b', stats, err, log) →
  ∃ err0,
    InsertBeacon (PqaMemoryBackend.Beacons b) bcn usage now =
      Ret (PqaMemoryBackend.Beacons b', stats, err0) ∧
    (is_Some err0 →
       err = err0 ∧ log = [] ∧
       PqaMemoryBackend.Targets_ b' = PqaMemoryBackend.Targets_ b).
Proof.
  unfold PqaMemoryBackend.InsertBeacon.
  destruct (InsertBeacon (PqaMemoryBackend.Beacons b) bcn usage now)
    as [[[beacons stats0] [err0|]]|]; simpl; [ | | done].
  - intros [= <- <- <- <-]. exists (Some err0). done.
  - intros Hrest. exists None.
    assert (PqaMemoryBackend.Beacons b' = beacons ∧ stats = stats0) as [-> ->].
    { destruct (Segment bcn) as [seg|]; [ | done].
      destruct (ASEntries seg) as [|asEntry0 rest]; [done | ].
      destruct (Extensions_PqaExtension asEntry0); [ | by injection Hrest as <- <- _ _].
      destruct (FirstIA seg); simpl in Hrest; [ | done].
      destruct (getBeaconID beacons bcn) as [[id [e|]]|]; simpl in Hrest;
        [ | | done]; by injection Hrest as <- <- _ _. }
    split; [done | ]. by intros [? [=]].
Qed.

(** X23. Every beacon [GetNBestsForGroup] returns was fetched for the target,
    came in through one of the ingress interfaces given, and is one the
    target considers; with no ingress interface the result is empty. *)
Theorem GetNBestsForGroup_returns_filtered_candidates :
  sort_Slice_permutes _ →
  ∀ (b : Backend) (src : IA) (target : Target')
    (ingressIntfs : list Interface) (X : IA),
    let group :=
      (PqaMemoryBackend.GetNBestsForGroup b src target ingressIntfs X).1.1 in
    (∀ bcn, bcn ∈ group →
       bcn ∈ (GetBeaconsById (PqaMemoryBackend.Beacons b)
                (GetBeaconIdsForTarget (PqaMemoryBackend.Targets_ b) target)).1 ∧
       (∃ ingressIntf, ingressIntf ∈ ingressIntfs ∧
                       TopoInfo_ID ingressIntf = InIfId bcn) ∧
       ShouldConsider target bcn = true) ∧
    (ingressIntfs = [] → group = []).
Proof.
  intros Hperm b src target ingressIntfs X group.
  assert (Hall : ∀ bcn, bcn ∈ group →
       bcn ∈ (GetBeaconsById (PqaMemoryBackend.Beacons b)
                (GetBeaconIdsForTarget (PqaMemoryBackend.Targets_ b) target)).1 ∧
       (∃ ingressIntf, ingressIntf ∈ ingressIntfs ∧
                       TopoInfo_ID ingressIntf = InIfId bcn) ∧
       ShouldConsider target bcn = true).
  { intros bcn Hin%GetNBestsForGroup_passing; [ | done].
    apply passing_would_not_loop in Hin as (Hf & _ & Hent & Hsc).
    split; [done | ]. split; [ | done].
    unfold PqaMemoryBackend.entered_through in Hent.
    apply existsb_exists in Hent as (intf & Hin & Heq).
    exists intf. split; [by apply list_elem_of_In | by apply Z.eqb_eq]. }
  split; [exact Hall | ].
  intros ->. destruct group as [|bcn group'] eqn:Hg; [done | exfalso].
  destruct (Hall bcn) as (_ & (intf & Hin & _) & _); [by left | ].
  by apply elem_of_nil in Hin.
Qed.

(** X24. [GetNBestsForGroup] drops candidates only to keep to the bound:
    for a target with beacon identifiers it returns min(N, number of
    candidates that pass the filters) beacons, and all of the candidates
    when there are at most N. *)
Theorem GetNBestsForGroup_keeps_as_many_as_N_allows :
  sort_Slice_permutes _ →
  ∀ (b : Backend) (src : IA) (target : Target')
    (ingressIntfs : list Interface) (X : IA),
    let bcnIds := GetBeaconIdsForTarget (PqaMemoryBackend.Targets_ b) target in
    let fetched := (GetBeaconsById (PqaMemoryBackend.Beacons b) bcnIds).1 in
    let candidates := passing target ingressIntfs X fetched in
    let group :=
      (PqaMemoryBackend.GetNBestsForGroup b src target ingressIntfs X).1.1 in
    (bcnIds = [] → group = []) ∧
    (bcnIds ≠ [] →
       length group = Nat.min pqa_extension_N (length candidates) ∧
       ((length candidates ≤ pqa_extension_N)%nat → group ≡ₚ candidates)).
Proof.
  intros Hperm b src target ingressIntfs X bcnIds fetched candidates group.
  unfold group. rewrite GetNBestsForGroup_unfold. fold bcnIds fetched candidates.
  split.
  - intros ->. done.
  - intros Hids. destruct (length bcnIds =? 0)%nat eqn:Hlen.
    { apply Nat.eqb_eq in Hlen. by destruct bcnIds. }
    simpl. pose proof (Hperm _ candidates (PqaMemoryBackend.less target)) as Hp.
    split.
    + rewrite length_take, Hp. lia.
    + intros Hle. rewrite take_ge; [done | ]. by rewrite Hp.
Qed.
End BackendProperties.

(** ** Orderings *)

Section OrderFacts.
Context {A : Type} (lt : A → A → bool).
Implicit Types (l k out : list A).

Lemma swaps_a_tie_not_stable l out :
  swaps_a_tie lt l out → ¬ keeps_tie_order lt l out.
Proof.
  intros (i & j & i' & j' & x & y & Hij & Hx & Hy & Hxy & Hyx & Hnd & Hx' & Hy' & Hlt)
    Hkeep.
  destruct (Hkeep i j x y Hij Hx Hy Hxy Hyx) as (i2 & j2 & Hlt2 & Hx2 & Hy2).
  assert (i2 = i') by by eapply NoDup_lookup.
  assert (j2 = j') by by eapply NoDup_lookup.
  lia.
Qed.

Lemma StrictWeakOrderOn_subseteq l k :
  l ⊆ k → StrictWeakOrderOn k lt → StrictWeakOrderOn l lt.
Proof.
  intros Hsub (Hirr & Htr & Hneg). split; [ | split]; intros *; eauto.
Qed.

Lemma StrictWeakOrderOn_rank (rank : A → Z) l :
  (∀ x y, x ∈ l → y ∈ l → lt x y = (rank x <? rank y)) →
  StrictWeakOrderOn l lt.
Proof.
  intros Hrank. split; [ | split].
  - intros x Hx. rewrite Hrank by done. apply Z.ltb_irrefl.
  - intros x y z Hx Hy Hz. rewrite !Hrank by done.
    rewrite !Z.ltb_lt. lia.
  - intros x y z Hx Hy Hz. rewrite !Hrank by done.
    rewrite !Z.ltb_ge. lia.
Qed.

Lemma StronglySorted_take (R : relation A) (n : nat) l :
  StronglySorted R l → StronglySorted R (take n l).
Proof.
  intros Hs. rewrite <- (take_drop n l) in Hs.
  by apply StronglySorted_app_1_l in Hs.
Qed.

Lemma StronglySorted_lookup_lt (R : relation A) l (i j : nat) (x y : A) :
  StronglySorted R l → (i < j)%nat →
  l !! i = Some x → l !! j = Some y → R x y.
Proof.
  intros Hs. revert i j. induction Hs as [|a l Hs IH Hall]; intros i j Hij.
  - done.
  - destruct j as [|j]; [lia | ]. destruct i as [|i]; simpl.
    + intros [= ->] Hy. rewrite Forall_forall in Hall. apply Hall.
      by eapply list_elem_of_lookup_2.
    + apply IH. lia.
Qed.

Lemma sorted_less_first out :
  StrictWeakOrderOn out lt → StronglySorted (not_after lt) out →
  less_first lt out.
Proof.
  intros (Hirr & _ & _) Hs i j x y Hx Hy Hxy.
  destruct (decide (i < j)%nat) as [ | Hge]; [done | exfalso].
  destruct (decide (i = j)) as [-> | Hne].
  - rewrite Hx in Hy. injection Hy as ->.
    rewrite Hirr in Hxy; [done | by eapply list_elem_of_lookup_2].
  - assert (not_after lt y x) as Hn.
    { eapply (StronglySorted_lookup_lt _ out j i); [done | lia | done | done]. }
    unfold not_after in Hn. congruence.
Qed.
End OrderFacts.

(** ** The propagation mechanism *)

Section MechanismClaims.
Context {Quality Direction Metric : Type}.
Context `{!SegLib Quality Direction}.
Context `{!TargetPolicy Quality Direction Metric}.
Context `{!TargetStore Quality Direction}.
Context `{!BeaconsById Quality Direction}.
Context `{!Collaborators Quality Direction}.
Context `{!SortLib}.
Abbreviation Beacon' := (Beacon Quality Direction).
Abbreviation error' := (error Quality Direction).
Abbreviation LogEntry' := (LogEntry Quality Direction).
Abbreviation Target' := (Target Quality Direction).
Abbreviation Backend := (PqaMemoryBackend.t Quality Direction).
Abbreviation Mech := (@Mechanism.t Quality Direction _).

Lemma getPropagationBatch_bcns_inv (target : Target') (egIntf : Interface)
    (bcns batch : list Beacon') (log : list LogEntry') :
  match Mechanism.getPropagationBatch_bcns target egIntf bcns batch log with
  | (inr batch', _) =>
      (∀ c, c ∈ bcns → Extend_error c egIntf = None) ∧
      batch' = batch ++ List.filter (ShouldConsider target)
                          ((fun c => extended c egIntf) <$> bcns)
  | (inl err, _) =>
      ∃ c e, c ∈ bcns ∧ Extend_error c egIntf = Some e ∧
             err = extension_error c egIntf e
  end.
Proof.
  revert batch log. induction bcns as [|c bcns IH]; intros batch log.
  - simpl. split; [by intros ? ?%elem_of_nil | by rewrite app_nil_r].
  - cbn [Mechanism.getPropagationBatch_bcns].
    destruct (Extender_Extend (Segment c) (InIfId c) (TopoInfo_ID egIntf))
      as [seg err] eqn:Hext.
    destruct err as [err|].
    + exists c, err. split; [by left | ].
      unfold Extend_error, extension_error, extended. by rewrite Hext.
    + match goal with
      | |- context [Mechanism.getPropagationBatch_bcns _ _ _ ?b ?l] =>
          specialize (IH b l);
          destruct (Mechanism.getPropagationBatch_bcns target egIntf bcns b l)
            as [[err' | batch'] log']
      end.
      * destruct IH as (c' & e & Hin & He & ->). exists c', e.
        split; [by right | done].
      * destruct IH as [Hall ->]. split.
        -- intros c' [-> | Hin]%elem_of_cons; [ | by apply Hall].
           unfold Extend_error. by rewrite Hext.
        -- rewrite fmap_cons. cbn [List.filter].
           replace (extended c egIntf)
             with (mkBeacon seg (InIfId c) (TopoInfo_ID egIntf))
             by (unfold extended; by rewrite Hext).
           destruct (ShouldConsider target _); [by rewrite <- app_assoc | done].
Qed.

Lemma getPropagationBatch_egIntfs_inv (m : Mech) (target : Target')
    (igIntfG : list Interface) (neigh src : IA) (egIntfG : list Interface)
    (batch : list Beacon') (log : list LogEntry') :
  let bcns := (Mechanism.getNBestFor m src target igIntfG neigh).1 in
  match Mechanism.getPropagationBatch_egIntfs m target igIntfG neigh src
          egIntfG batch log with
  | (inr batch', _) =>
      (∀ egIntf c, egIntf ∈ egIntfG → c ∈ bcns → Extend_error c egIntf = None) ∧
      (∀ x, x ∈ batch' →
         x ∈ batch ∨
         ∃ egIntf c, egIntf ∈ egIntfG ∧ c ∈ bcns ∧ x = extended c egIntf)
  | (inl err, _) =>
      ∃ egIntf c e, egIntf ∈ egIntfG ∧ c ∈ bcns ∧
                    Extend_error c egIntf = Some e ∧
                    err = extension_error c egIntf e
  end.
Proof.
  intros bcns. revert batch log.
  induction egIntfG as [|egIntf egIntfG IH]; intros batch log.
  - simpl. split; [by intros ? ? ?%elem_of_nil | auto].
  - cbn [Mechanism.getPropagationBatch_egIntfs].
    destruct (Mechanism.getNBestFor m src target igIntfG neigh)
      as [bcns' log'] eqn:Hn. subst bcns. cbn [fst] in *.
    pose proof (getPropagationBatch_bcns_inv target egIntf bcns' batch
                  (log ++ log')) as Hb.
    destruct (Mechanism.getPropagationBatch_bcns target egIntf bcns' batch
                (log ++ log')) as [[err | batch1] log1].
    + destruct Hb as (c & e & Hin & He & ->). exists egIntf, c, e.
      split; [by left | done].
    + destruct Hb as [Hall ->]. specialize (IH (batch ++ List.filter
        (ShouldConsider target) ((fun c => extended c egIntf) <$> bcns')) log1).
      destruct (Mechanism.getPropagationBatch_egIntfs m target igIntfG neigh
                  src egIntfG _ log1) as [[err | batch2] log2].
      * destruct IH as (eg & c & e & Hin & Hc & He & ->). exists eg, c, e.
        split; [by right | done].
      * destruct IH as [Hall' Hsub]. split.
        -- intros eg c [-> | Hin]%elem_of_cons Hc; [by apply Hall | ].
           by apply Hall'.
        -- intros x [Hx | (eg & c & Hin & Hc & ->)]%Hsub.
           ++ apply elem_of_app in Hx as [Hx | Hx]; [by left | right].
              apply list_elem_of_In, filter_In in Hx as [Hx _].
              apply list_elem_of_In, list_elem_of_fmap in Hx as (c & -> & Hc).
              exists egIntf, c. split; [by left | done].
           ++ right. exists eg, c. split; [by right | done].
Qed.

Lemma getPropagationBatch_igIntfGs_inv (m : Mech) (target : Target')
    (egIntfG : list Interface) (neigh src : IA)
    (igIntfGs : list (list Interface)) (batch : list Beacon')
    (log : list LogEntry') :
  let among igIntfG c :=
    igIntfG ∈ igIntfGs ∧
    c ∈ (Mechanism.getNBestFor m src target igIntfG neigh).1 in
  match Mechanism.getPropagationBatch_igIntfGs m target egIntfG neigh src
          igIntfGs batch log with
  | (inr batch', _) =>
      (∀ igIntfG egIntf c,
         among igIntfG c → egIntf ∈ egIntfG → Extend_error c egIntf = None) ∧
      (∀ x, x ∈ batch' →
         x ∈ batch ∨
         ∃ igIntfG egIntf c,
           among igIntfG c ∧ egIntf ∈ egIntfG ∧ x = extended c egIntf)
  | (inl err, _) =>
      ∃ igIntfG egIntf c e,
        among igIntfG c ∧ egIntf ∈ egIntfG ∧
        Extend_error c egIntf = Some e ∧ err = extension_error c egIntf e
  end.
Proof.
  intros among. subst among. revert batch log.
  induction igIntfGs as [|igIntfG igIntfGs IH]; intros batch log.
  - simpl. split; [by intros ? ? ? [?%elem_of_nil _] | auto].
  - cbn [Mechanism.getPropagationBatch_igIntfGs].
    pose proof (getPropagationBatch_egIntfs_inv m target igIntfG neigh src
                  egIntfG batch log) as Hb. cbn zeta in Hb.
    destruct (Mechanism.getPropagationBatch_egIntfs m target igIntfG neigh src
                egIntfG batch log) as [[err | batch1] log1].
    + destruct Hb as (eg & c & e & Hin & Hc & He & ->).
      exists igIntfG, eg, c, e. split; [split; [by left | done] | done].
    + destruct Hb as [Hall Hsub]. specialize (IH batch1 log1).
      destruct (Mechanism.getPropagationBatch_igIntfGs m target egIntfG neigh
                  src igIntfGs batch1 log1) as [[err | batch2] log2].
      * destruct IH as (ig & eg & c & e & [Hig Hc] & Hin & He & ->).
        exists ig, eg, c, e. split; [split; [by right | done] | done].
      * destruct IH as [Hall' Hsub']. split.
        -- intros ig eg c [[-> | Hig]%elem_of_cons Hc] Heg; [by apply Hall | ].
           by apply (Hall' ig).
        -- intros x [Hx | (ig & eg & c & [Hig Hc] & Heg & ->)]%Hsub'.
           ++ apply Hsub in Hx as [Hx | (eg & c & Heg & Hc & ->)]; [by left | ].
              right. exists igIntfG, eg, c. split; [split; [by left | done] | done].
           ++ right. exists ig, eg, c. split; [split; [by right | done] | done].
Qed.

Lemma getNBestFor_GetNBestsForGroup (m : Mech) (src : IA) (target : Target')
    (egIntfG : list Interface) (neigh : IA) :
  Mechanism.getNBestFor m src target egIntfG neigh =
    let r := PqaMemoryBackend.GetNBestsForGroup (Mechanism.DB m) src target
               egIntfG neigh in
    (r.1.1, r.2).
Proof.
  unfold Mechanism.getNBestFor.
  pose proof (GetNBestsForGroup_no_error (Mechanism.DB m) src target egIntfG
                neigh) as Hno.
  destruct (PqaMemoryBackend.GetNBestsForGroup _ _ _ _ _) as [[bcns err] log].
  simpl in *. by subst err.
Qed.

Lemma getNBest_take (m : Mech) (target : Target') (bcn : list Beacon') :
  Mechanism.getNBest m target bcn =
    take pqa_extension_N (sort_Slice bcn (PqaMemoryBackend.less target)).
Proof. unfold Mechanism.getNBest. apply truncate_take. Qed.

(** C6. With [excludeLooping = X], [GetNBestsForGroup] returns no beacon
    whose segment traverses the AS [X], and every beacon of a batch built
    towards the neighbour [X] is the extension of a candidate whose segment
    does not traverse [X]; the quality metric plays no part in this. *)
Theorem looping_beacons_are_excluded :
  sort_Slice_permutes _ →
  ∀ (b : Backend) (m : Mech) (src : IA) (target : Target')
    (ingressIntfs egIntfG : list Interface) (X : IA),
    (∀ bcn,
       bcn ∈ (PqaMemoryBackend.GetNBestsForGroup b src target ingressIntfs X).1.1 →
       ¬ traverses bcn X) ∧
    (∀ batch log bcn,
       Mechanism.getPropagationBatch m target egIntfG X src = (batch, None, log) →
       bcn ∈ batch →
       ∃ cand egIntf,
         candidate m target egIntfG X src cand egIntf ∧
         ¬ traverses cand X ∧ bcn = extended cand egIntf).
Proof.
  intros Hperm b m src target ingressIntfs egIntfG X.
  assert (Hgroup : ∀ (b0 : Backend) ig bcn,
            bcn ∈ (PqaMemoryBackend.GetNBestsForGroup b0 src target ig X).1.1 →
            ¬ traverses bcn X).
  { intros b0 ig bcn Hin%GetNBestsForGroup_passing; [ | done].
    by apply passing_would_not_loop in Hin as (_ & ? & _). }
  split; [apply Hgroup | ].
  intros batch log bcn. unfold Mechanism.getPropagationBatch.
  pose proof (getPropagationBatch_igIntfGs_inv m target egIntfG X src
                (Mechanism.getIntfGroups m target) [] []) as Hinv.
  cbn zeta in Hinv.
  destruct (Mechanism.getPropagationBatch_igIntfGs _ _ _ _ _ _ _ _)
    as [[err | batch'] log']; [done | ].
  intros [= <- <-]. rewrite getNBest_take. intros Hin%subseteq_take.
  rewrite (Hperm _ _ _) in Hin. destruct Hinv as [_ Hsub].
  apply Hsub in Hin as [?%elem_of_nil | (ig & eg & c & [Hig Hc] & Heg & ->)];
    [done | ].
  exists c, eg. split; [by exists ig | ]. split; [ | done].
  rewrite getNBestFor_GetNBestsForGroup in Hc. by apply Hgroup in Hc.
Qed.

(** C7. When the extender fails on a candidate, [getPropagationBatch]
    returns a nil batch together with the error of a failed extension,
    wrapped with the ingress interface, the egress interface and the
    segment; a batch is returned only when every extension succeeded. *)
Theorem extension_failure_aborts_batch (m : Mech) (target : Target')
    (egIntfG : list Interface) (neigh src : IA) :
  (∃ cand egIntf,
     candidate m target egIntfG neigh src cand egIntf ∧
     is_Some (Extend_error cand egIntf)) →
  ∃ cand egIntf seg err log,
    candidate m target egIntfG neigh src cand egIntf ∧
    Extender_Extend (Segment cand) (InIfId cand) (TopoInfo_ID egIntf) =
      (seg, Some err) ∧
    Mechanism.getPropagationBatch m target egIntfG neigh src =
      ([], Some (serrors_WrapStr "extending beacons" err
                   [("ingress"%string, CtxInt (InIfId cand));
                    ("egress"%string, CtxInt (TopoInfo_ID egIntf));
                    ("seg"%string, CtxSeg seg)]), log).
Proof.
  intros (cand & egIntf & (ig & Hig & Heg & Hc) & Hfail).
  unfold Mechanism.getPropagationBatch.
  pose proof (getPropagationBatch_igIntfGs_inv m target egIntfG neigh src
                (Mechanism.getIntfGroups m target) [] []) as Hinv.
  cbn zeta in Hinv.
  destruct (Mechanism.getPropagationBatch_igIntfGs _ _ _ _ _ _ _ _)
    as [[err | batch'] log'].
  - destruct Hinv as (ig' & eg' & c' & e & [Hig' Hc'] & Heg' & He & ->).
    exists c', eg', (Segment (extended c' eg')), e, log'.
    split; [by exists ig' | ]. split; [ | done].
    unfold Extend_error in He. unfold extended. simpl.
    destruct (Extender_Extend _ _ _) as [seg' err']. simpl in *. by subst.
  - destruct Hinv as [Hall _].
    rewrite (Hall ig egIntf cand) in Hfail by done.
    by destruct Hfail.
Qed.


Lemma sorted_candidates (target : Target') (l : list Beacon') :
  sort_Slice_permutes _ → sort_Slice_sorts _ →
  StrictWeakOrderOn l (better target) →
  let sorted := sort_Slice l (PqaMemoryBackend.less target) in
  sorted ≡ₚ l ∧ StronglySorted (not_after (better target)) sorted ∧
  less_first (better target) sorted.
Proof.
  intros Hperm Hsorts Hswo sorted.
  assert (sorted ≡ₚ l) as Hp by apply Hperm.
  assert (StronglySorted (not_after (better target)) sorted) as Hs
    by by apply Hsorts.
  split; [done | ]. split; [done | ].
  apply sorted_less_first; [ | done].
  eapply StrictWeakOrderOn_subseteq; [ | exact Hswo]. by rewrite Hp.
Qed.

(** C1, as the code has it. Sorting by [target.Quality.Less], in
    [GetNBestsForGroup] and in [getNBest], keeps every beacon and places a
    beacon that is better than another before it. [sort.Slice] promises no
    more: the order in which it leaves beacons of equal metric is not
    determined by the order they came in. *)
Theorem sort_by_Less_places_better_beacons_first :
  sort_Slice_permutes _ → sort_Slice_sorts _ →
  ∀ (b : Backend) (m : Mech) (src : IA) (target : Target')
    (ingressIntfs : list Interface) (X : IA) (bcn : list Beacon'),
    let bcnIds := GetBeaconIdsForTarget (PqaMemoryBackend.Targets_ b) target in
    let fetched := (GetBeaconsById (PqaMemoryBackend.Beacons b) bcnIds).1 in
    let candidates := passing target ingressIntfs X fetched in
    (bcnIds ≠ [] → StrictWeakOrderOn candidates (better target) →
     ∃ sorted,
       sorted ≡ₚ candidates ∧ less_first (better target) sorted ∧
       (PqaMemoryBackend.GetNBestsForGroup b src target ingressIntfs X).1.1 =
         take pqa_extension_N sorted) ∧
    (StrictWeakOrderOn bcn (better target) →
     ∃ sorted,
       sorted ≡ₚ bcn ∧ less_first (better target) sorted ∧
       Mechanism.getNBest m target bcn = take pqa_extension_N sorted).
Proof.
  intros Hperm Hsorts b m src target ingressIntfs X bcn bcnIds fetched candidates.
  split.
  - intros Hids Hswo.
    destruct (sorted_candidates target candidates Hperm Hsorts Hswo)
      as (Hp & _ & Hlf).
    eexists. split; [exact Hp | ]. split; [exact Hlf | ].
    rewrite GetNBestsForGroup_unfold. fold bcnIds.
    destruct (length bcnIds =? 0)%nat eqn:Hlen; [ | done].
    apply Nat.eqb_eq in Hlen. by destruct bcnIds.
  - intros Hswo.
    destruct (sorted_candidates target bcn Hperm Hsorts Hswo) as (Hp & _ & Hlf).
    eexists. split; [exact Hp | ]. split; [exact Hlf | ].
    apply getNBest_take.
Qed.

Lemma five_ranked_sorted (target : Target') (rank : Beacon' → Z)
    (b1 b2 b3 b4 b5 : Beacon') (sorted : list Beacon') :
  rank <$> [b5; b1; b4; b2; b3] = [5; 1; 4; 2; 3] →
  (∀ x y, x ∈ [b5; b1; b4; b2; b3] → y ∈ [b5; b1; b4; b2; b3] →
     better target x y = (rank x <? rank y)) →
  sorted ≡ₚ [b5; b1; b4; b2; b3] →
  StronglySorted (not_after (better target)) sorted →
  sorted = [b1; b2; b3; b4; b5].
Proof.
  intros [= H5 H1 H4 H2 H3] Hrank Hp Hs.
  assert (Hmem : ∀ x, x ∈ [b1; b2; b3; b4; b5] ↔ x ∈ [b5; b1; b4; b2; b3]).
  { intros x. rewrite !elem_of_cons. tauto. }
  apply (StronglySorted_unique_strong (not_after (better target))); [ | done | | ].
  - intros x y Hx Hy. rewrite Hp in Hx. rewrite Hmem in Hy.
    unfold not_after. rewrite !Hrank by done. rewrite !Z.ltb_ge. intros Hle Hge.
    assert (rank x = rank y) as Heq by lia. clear Hle Hge.
    rewrite !elem_of_cons in Hx, Hy.
    destruct Hx as [-> | [-> | [-> | [-> | [-> | ?%elem_of_nil]]]]]; [ | | | | | done];
    (destruct Hy as [-> | [-> | [-> | [-> | [-> | ?%elem_of_nil]]]]]; [ | | | | | done]);
    first [done | lia].
  - repeat (constructor; [ | repeat (constructor;
      [unfold not_after; rewrite Hrank by (rewrite !elem_of_cons; tauto);
       apply Z.ltb_ge; lia | ]); by constructor]).
    constructor.
  - rewrite Hp. apply NoDup_Permutation.
    + rewrite !NoDup_cons, !elem_of_cons. repeat split; try apply NoDup_nil_2;
        rewrite ?elem_of_nil; intros Hn; destruct_or!; try done; subst; lia.
    + rewrite !NoDup_cons, !elem_of_cons. repeat split; try apply NoDup_nil_2;
        rewrite ?elem_of_nil; intros Hn; destruct_or!; try done; subst; lia.
    + intros x. by rewrite Hmem.
Qed.

(** C5. [GetNBestsForGroup] and [getNBest] return at most [N] beacons, in
    an order in which no beacon is better than one before it. With a policy
    for which the lower metric is the better one, candidates of metric
    5, 1, 4, 2, 3 and N = 3, the result is the beacons of metric 1, 2, 3
    in this order. *)
Theorem N_best_in_better_first_order :
  sort_Slice_permutes _ → sort_Slice_sorts _ →
  ∀ (b : Backend) (m : Mech) (src : IA) (target : Target')
    (ingressIntfs : list Interface) (X : IA) (bcn : list Beacon'),
    let bcnIds := GetBeaconIdsForTarget (PqaMemoryBackend.Targets_ b) target in
    let fetched := (GetBeaconsById (PqaMemoryBackend.Beacons b) bcnIds).1 in
    let candidates := passing target ingressIntfs X fetched in
    let group :=
      (PqaMemoryBackend.GetNBestsForGroup b src target ingressIntfs X).1.1 in
    let final := Mechanism.getNBest m target bcn in
    (length group ≤ pqa_extension_N)%nat ∧
    (length final ≤ pqa_extension_N)%nat ∧
    (StrictWeakOrderOn candidates (better target) →
     StronglySorted (not_after (better target)) group) ∧
    (StrictWeakOrderOn bcn (better target) →
     StronglySorted (not_after (better target)) final) ∧
    (∀ (rank : Beacon' → Z) b1 b2 b3 b4 b5,
       let l := [b5; b1; b4; b2; b3] in
       rank <$> l = [5; 1; 4; 2; 3] →
       (∀ x y, x ∈ l → y ∈ l → better target x y = (rank x <? rank y)) →
       pqa_extension_N = 3%nat →
       (bcn = l → final = [b1; b2; b3]) ∧
       (bcnIds ≠ [] → candidates = l → group = [b1; b2; b3])).
Proof.
  intros Hperm Hsorts b m src target ingressIntfs X bcn bcnIds fetched
    candidates group final.
  assert (Hgroup : group = if (length bcnIds =? 0)%nat then []
            else take pqa_extension_N
                   (sort_Slice candidates (PqaMemoryBackend.less target))).
  { unfold group. rewrite GetNBestsForGroup_unfold. fold bcnIds.
    by destruct (length bcnIds =? 0)%nat. }
  assert (Hfinal : final = take pqa_extension_N
                             (sort_Slice bcn (PqaMemoryBackend.less target)))
    by apply getNBest_take.
  split; [ | split; [ | split; [ | split]]].
  - rewrite Hgroup. destruct (_ =? _)%nat; simpl; [lia | ].
    rewrite length_take. lia.
  - rewrite Hfinal, length_take. lia.
  - intros Hswo. rewrite Hgroup. destruct (_ =? _)%nat; [constructor | ].
    apply StronglySorted_take. by apply Hsorts.
  - intros Hswo. rewrite Hfinal. apply StronglySorted_take. by apply Hsorts.
  - intros rank b1 b2 b3 b4 b5 l Hranks Hrank HN.
    pose proof (StrictWeakOrderOn_rank (better target) rank l Hrank) as Hswo.
    assert (sort_Slice l (PqaMemoryBackend.less target) = [b1; b2; b3; b4; b5])
      as Hsorted.
    { apply (five_ranked_sorted target rank); [done | done | apply Hperm | ].
      by apply Hsorts. }
    split.
    + intros ->. by rewrite Hfinal, Hsorted, HN.
    + intros Hids Hc. rewrite Hgroup, Hc, Hsorted, HN.
      destruct (length bcnIds =? 0)%nat eqn:Hlen; [ | done].
      apply Nat.eqb_eq in Hlen. by destruct bcnIds.
Qed.

Lemma foldl_snoc {A : Type} (res l : list A) :
  foldl (fun res x => res ++ [x]) res l = res ++ l.
Proof.
  revert res. induction l as [|x l IH]; intros res; simpl.
  - by rewrite app_nil_r.
  - by rewrite IH, <- app_assoc.
Qed.

Lemma neighbour_set_keys (intfs : list Interface) (set : gmap IA bool) (ia : IA) :
  is_Some (foldl (fun set neigh => <[TopoInfo_IA neigh := true]> set) set intfs
           !! ia) ↔
  is_Some (set !! ia) ∨ ∃ intf, intf ∈ intfs ∧ TopoInfo_IA intf = ia.
Proof.
  revert set. induction intfs as [|intf intfs IH]; intros set; simpl.
  - split; [by left | ]. intros [? | (? & ?%elem_of_nil & _)]; done.
  - rewrite IH, lookup_insert_is_Some. split.
    + intros [[Heq | [_ ?]] | (intf' & Hin & Heq)].
      * right. exists intf. split; [by left | done].
      * by left.
      * right. exists intf'. split; [by right | done].
    + intros [? | (intf' & [-> | Hin]%elem_of_cons & Heq)].
      * left. destruct (decide (TopoInfo_IA intf = ia)); [by left | by right].
      * left. by left.
      * right. by exists intf'.
Qed.

(** X29. What [getNeighbouringASs] returns: the distinct remote ASes of the
    interfaces, each once, after as many zero-valued entries as there are
    of them. *)
Lemma getNeighbouringASs_shape (m : Mech) :
  ∃ keys,
    NoDup keys ∧
    (∀ ia, ia ∈ keys ↔
           ∃ intf, intf ∈ Mechanism.AllInterfaces_All m ∧ TopoInfo_IA intf = ia) ∧
    Mechanism.getNeighbouringASs m = replicate (length keys) IA_zero ++ keys.
Proof.
  unfold Mechanism.getNeighbouringASs.
  set (set := foldl _ ∅ (Mechanism.AllInterfaces_All m)).
  exists (map_to_list set).*1. split; [apply NoDup_fst_map_to_list | ]. split.
  - intros ia. rewrite list_elem_of_fmap. split.
    + intros ([ia' v] & -> & Hin). apply elem_of_map_to_list in Hin.
      assert (is_Some (set !! ia')) as Hs by by eexists.
      apply neighbour_set_keys in Hs as [[? Hs] | Hs]; [ | done].
      by rewrite lookup_empty in Hs.
    + intros Hex.
      assert (is_Some (set !! ia)) as [v Hv]
        by (apply neighbour_set_keys; by right).
      exists (ia, v). split; [done | by apply elem_of_map_to_list].
  - by rewrite foldl_snoc, length_fmap, length_map_to_list.
Qed.

(** C2 on the code: with a single interface, [getNeighbouringASs] returns
    the zero-valued AS followed by the interface's remote AS, instead of
    the remote AS alone. *)
Theorem getNeighbouringASs_prepends_zero_entries (db : Backend)
    (intf : Interface) :
  Mechanism.getNeighbouringASs (Mechanism.mk db [intf]) =
    [IA_zero; TopoInfo_IA intf].
Proof.
  unfold Mechanism.getNeighbouringASs. simpl.
  rewrite insert_empty, map_size_singleton, map_to_list_singleton. done.
Qed.
End MechanismClaims.

Section MechanismProperties.
Context {Quality Direction Metric : Type}.
Context `{!SegLib Quality Direction}.
Context `{!TargetPolicy Quality Direction Metric}.
Context `{!TargetStore Quality Direction}.
Context `{!BeaconsById Quality Direction}.
Context `{!Collaborators Quality Direction}.
Context `{!SortLib}.
Abbreviation Beacon' := (Beacon Quality Direction).
Abbreviation error' := (error Quality Direction).
Abbreviation LogEntry' := (LogEntry Quality Direction).
Abbreviation Target' := (Target Quality Direction).
Abbreviation Backend := (PqaMemoryBackend.t Quality Direction).
Abbreviation Mech := (@Mechanism.t Quality Direction _).

Lemma foldl_filter_snoc {A : Type} (f : A → bool) (acc l : list A) :
  foldl (fun acc x => if f x then acc ++ [x] else acc) acc l =
    acc ++ List.filter f l.
Proof.
  revert acc. induction l as [|x l IH]; intros acc; simpl.
  - by rewrite app_nil_r.
  - rewrite IH. destruct (f x); [by rewrite <- app_assoc | done].
Qed.

(** X25. [getIntfSubgroups] answers group by group: it returns one subgroup
    for every interface group of the target, in the order of the groups,
    holding the interfaces of that group towards [to] in their order; a
    group without such an interface gives an empty subgroup. *)
Theorem getIntfSubgroups_one_per_group (m : Mech) (target : Target') (to : IA) :
  Mechanism.getIntfSubgroups m target to =
    (fun intfG => List.filter (fun intf => bool_decide (TopoInfo_IA intf = to)) intfG)
      <$> Mechanism.getIntfGroups m target ∧
  length (Mechanism.getIntfSubgroups m target to) =
    length (Mechanism.getIntfGroups m target).
Proof.
  assert (Mechanism.getIntfSubgroups m target to =
    (fun intfG => List.filter (fun intf => bool_decide (TopoInfo_IA intf = to)) intfG)
      <$> Mechanism.getIntfGroups m target) as Heq.
  { unfold Mechanism.getIntfSubgroups.
    enough (∀ res, foldl (fun res intfG =>
        res ++ [foldl (fun intfSubg intf =>
                         if bool_decide (TopoInfo_IA intf = to)
                         then intfSubg ++ [intf] else intfSubg) [] intfG]) res
        (Mechanism.getIntfGroups m target) =
      res ++ ((fun intfG => List.filter
                 (fun intf => bool_decide (TopoInfo_IA intf = to)) intfG)
                <$> Mechanism.getIntfGroups m target)) as Hgen by apply (Hgen []).
    induction (Mechanism.getIntfGroups m target) as [|g gs IH]; intros res; simpl.
    - by rewrite app_nil_r.
    - rewrite IH, foldl_filter_snoc, <- app_assoc. done. }
  split; [exact Heq | ]. by rewrite Heq, length_fmap.
Qed.

(** X26. [getNBest] returns min(N, len(bcn)) of the beacons it is given, and
    all of them when there are at most N. *)
Theorem getNBest_keeps_as_many_as_N_allows :
  sort_Slice_permutes _ →
  ∀ (m : Mech) (target : Target') (bcn : list Beacon'),
    length (Mechanism.getNBest m target bcn) =
      Nat.min pqa_extension_N (length bcn) ∧
    (∀ x, x ∈ Mechanism.getNBest m target bcn → x ∈ bcn) ∧
    ((length bcn ≤ pqa_extension_N)%nat → Mechanism.getNBest m target bcn ≡ₚ bcn).
Proof.
  intros Hperm m target bcn. rewrite getNBest_take.
  pose proof (Hperm _ bcn (PqaMemoryBackend.less target)) as Hp.
  split; [rewrite length_take, Hp; lia | ]. split.
  - intros x Hx%subseteq_take. by rewrite Hp in Hx.
  - intros Hle. rewrite take_ge; [done | ]. by rewrite Hp.
Qed.

(** What the three loops of [getPropagationBatch] add to the batch. *)
Lemma getPropagationBatch_bcns_adds (target : Target') (egIntf : Interface)
    (bcns batch batch' : list Beacon') (log log' : list LogEntry')
    (P : Beacon' → Prop) :
  (∀ c, c ∈ bcns → ShouldConsider target (extended c egIntf) = true →
        P (extended c egIntf)) →
  Forall P batch →
  Mechanism.getPropagationBatch_bcns target egIntf bcns batch log =
    (inr batch', log') →
  Forall P batch'.
Proof.
  intros HP Hbatch Hrun.
  pose proof (getPropagationBatch_bcns_inv target egIntf bcns batch log) as Hinv.
  rewrite Hrun in Hinv. destruct Hinv as [_ ->].
  apply Forall_app. split; [done | ]. apply Forall_forall.
  intros x [Hx Hsc]%list_elem_of_In%filter_In.
  apply list_elem_of_In, list_elem_of_fmap in Hx as (c & -> & Hc). by apply HP.
Qed.

Lemma getPropagationBatch_egIntfs_adds (m : Mech) (target : Target')
    (igIntfG : list Interface) (neigh src : IA) (egIntfG : list Interface)
    (batch batch' : list Beacon') (log log' : list LogEntry')
    (P : Beacon' → Prop) :
  (∀ c egIntf, c ∈ (Mechanism.getNBestFor m src target igIntfG neigh).1 →
     egIntf ∈ egIntfG → ShouldConsider target (extended c egIntf) = true →
     P (extended c egIntf)) →
  Forall P batch →
  Mechanism.getPropagationBatch_egIntfs m target igIntfG neigh src egIntfG
    batch log = (inr batch', log') →
  Forall P batch'.
Proof.
  revert batch log. induction egIntfG as [|egIntf egIntfG IH];
    intros batch log HP Hbatch; simpl.
  - by intros [= <- _].
  - destruct (Mechanism.getNBestFor m src target igIntfG neigh)
      as [bcns logN] eqn:Hn. simpl in HP.
    destruct (Mechanism.getPropagationBatch_bcns target egIntf bcns batch
                (log ++ logN)) as [[err | batch1] log1] eqn:Hb; [done | ].
    apply IH.
    + intros c eg Hc Heg. apply HP; [done | by right].
    + eapply getPropagationBatch_bcns_adds; [ | exact Hbatch | exact Hb].
      intros c Hc. apply HP; [done | by left].
Qed.

Lemma getPropagationBatch_igIntfGs_adds (m : Mech) (target : Target')
    (egIntfG : list Interface) (neigh src : IA)
    (igIntfGs : list (list Interface))
    (batch batch' : list Beacon') (log log' : list LogEntry')
    (P : Beacon' → Prop) :
  (∀ igIntfG c egIntf, igIntfG ∈ igIntfGs →
     c ∈ (Mechanism.getNBestFor m src target igIntfG neigh).1 →
     egIntf ∈ egIntfG → ShouldConsider target (extended c egIntf) = true →
     P (extended c egIntf)) →
  Forall P batch →
  Mechanism.getPropagationBatch_igIntfGs m target egIntfG neigh src igIntfGs
    batch log = (inr batch', log') →
  Forall P batch'.
Proof.
  revert batch log. induction igIntfGs as [|igIntfG igIntfGs IH];
    intros batch log HP Hbatch; simpl.
  - by intros [= <- _].
  - destruct (Mechanism.getPropagationBatch_egIntfs m target igIntfG neigh src
                egIntfG batch log) as [[err | batch1] log1] eqn:Hb; [done | ].
    apply IH.
    + intros ig c eg Hig. apply HP. by right.
    + eapply getPropagationBatch_egIntfs_adds; [ | exact Hbatch | exact Hb].
      intros c eg. apply HP. by left.
Qed.

(** X27. A batch [getPropagationBatch] returns has at most N beacons; each
    was extended without error from a candidate of [getNBestFor], is one the
    target considers after the extension, keeps the ingress interface of
    its candidate and has as [EgIfId] the identifier of the egress
    interface it was extended for. *)
Theorem getPropagationBatch_returns_considered_extensions :
  sort_Slice_permutes _ →
  ∀ (m : Mech) (target : Target') (egIntfG : list Interface) (neigh src : IA)
    (batch : list Beacon') (log : list LogEntry'),
    Mechanism.getPropagationBatch m target egIntfG neigh src =
      (batch, None, log) →
    (length batch ≤ pqa_extension_N)%nat ∧
    ∀ bcn, bcn ∈ batch →
      ShouldConsider target bcn = true ∧
      ∃ cand egIntf,
        candidate m target egIntfG neigh src cand egIntf ∧
        Extender_Extend (Segment cand) (InIfId cand) (TopoInfo_ID egIntf) =
          (Segment bcn, None) ∧
        InIfId bcn = InIfId cand ∧ EgIfId bcn = TopoInfo_ID egIntf.
Proof.
  intros Hperm m target egIntfG neigh src batch log.
  unfold Mechanism.getPropagationBatch.
  pose proof (getPropagationBatch_igIntfGs_inv m target egIntfG neigh src
                (Mechanism.getIntfGroups m target) [] []) as Hinv.
  cbn zeta in Hinv.
  destruct (Mechanism.getPropagationBatch_igIntfGs m target egIntfG neigh src
              (Mechanism.getIntfGroups m target) [] [])
    as [[err | batch'] log'] eqn:Hrun; [done | ].
  intros [= <- <-]. rewrite getNBest_take.
  split; [rewrite length_take; lia | ].
  intros bcn Hin%subseteq_take. rewrite (Hperm _ _ _) in Hin.
  destruct Hinv as [Hok _].
  set (P := fun bcn : Beacon' =>
    ShouldConsider target bcn = true ∧
    ∃ cand egIntf,
      candidate m target egIntfG neigh src cand egIntf ∧
      Extender_Extend (Segment cand) (InIfId cand) (TopoInfo_ID egIntf) =
        (Segment bcn, None) ∧
      InIfId bcn = InIfId cand ∧ EgIfId bcn = TopoInfo_ID egIntf).
  assert (Forall P batch') as Hall.
  { eapply (getPropagationBatch_igIntfGs_adds m target egIntfG neigh src
              (Mechanism.getIntfGroups m target) [] batch' [] log' P);
      [ | constructor | exact Hrun].
    intros ig c eg Hig Hc Heg Hsc. split; [done | ].
    exists c, eg. split; [by exists ig | ].
    specialize (Hok ig eg c (conj Hig Hc) Heg). unfold Extend_error in Hok.
    unfold extended. simpl.
    destruct (Extender_Extend (Segment c) (InIfId c) (TopoInfo_ID eg))
      as [seg' err']. simpl in *. by subst. }
  rewrite Forall_forall in Hall. by apply Hall.
Qed.

(** X30. [getSourceIAs] does not fail: an error of the store is logged and
    the result is empty; what it returns has no duplicates and holds only
    origins of records of the store. *)
Theorem getSourceIAs_logs_a_store_error (m : Mech) :
  let e := PqaMemoryBackend.Beacons (Mechanism.DB m) in
  (∀ err, BeaconSources e = inl err →
     Mechanism.getSourceIAs m =
       ([], [mkLogEntry LvlError "getting beacon sources" (Some err) []])) ∧
  (∀ ias, BeaconSources e = inr ias → Mechanism.getSourceIAs m = (ias, [])) ∧
  NoDup (Mechanism.getSourceIAs m).1 ∧
  (∀ ia, ia ∈ (Mechanism.getSourceIAs m).1 →
     ∃ r, r ∈ db_rows e ∧ StartIsd r = IA_I ia ∧ StartAs r = IA_A ia).
Proof.
  intros e. unfold Mechanism.getSourceIAs. fold e.
  destruct (BeaconSources e) as [err | ias] eqn:Hsrc; simpl.
  - split; [by intros ? [= <-] | ]. split; [done | ].
    split; [constructor | by intros ? ?%elem_of_nil].
  - destruct (BeaconSources_are_the_distinct_origins_aux e ias Hsrc) as [Hnd Hmem].
    split; [done | ]. split; [by intros ? [= <-] | ]. split; [done | ].
    intros ia. apply Hmem.
Qed.

Lemma getPropagationBatch_bcns_log (target : Target') (egIntf : Interface)
    (bcns batch : list Beacon') (log log' : list LogEntry')
    (r : error' + list Beacon') :
  Mechanism.getPropagationBatch_bcns target egIntf bcns batch log = (r, log') →
  (∀ l, l ∈ log → l ∈ log') ∧
  (∀ batch', r = inr batch' → TopoInfo_ID egIntf = 0 →
     ∀ c, c ∈ bcns → egress_zero_line c ∈ log').
Proof.
  revert batch log. induction bcns as [|c bcns IH]; intros batch log.
  - simpl. intros [= <- <-]. split; [done | ]. by intros ? _ _ ? ?%elem_of_nil.
  - cbn [Mechanism.getPropagationBatch_bcns].
    destruct (Extender_Extend (Segment c) (InIfId c) (TopoInfo_ID egIntf))
      as [seg [err|]].
    + intros [= <- <-]. split; [ | done].
      intros l Hl. destruct (TopoInfo_ID egIntf =? 0); [ | done].
      apply elem_of_app. by left.
    + intros [Hsub Hzero]%IH. split.
      * intros l Hl. apply Hsub. destruct (TopoInfo_ID egIntf =? 0); [ | done].
        apply elem_of_app. by left.
      * intros batch' Hr Hz c' [-> | Hc']%elem_of_cons; [ | by eapply Hzero].
        apply Hsub. rewrite Hz. simpl. apply elem_of_app. right. by left.
Qed.

Lemma getPropagationBatch_egIntfs_log (m : Mech) (target : Target')
    (igIntfG : list Interface) (neigh src : IA) (egIntfG : list Interface)
    (batch : list Beacon') (log log' : list LogEntry')
    (r : error' + list Beacon') :
  Mechanism.getPropagationBatch_egIntfs m target igIntfG neigh src egIntfG
    batch log = (r, log') →
  (∀ l, l ∈ log → l ∈ log') ∧
  (∀ batch', r = inr batch' →
     ∀ egIntf c, egIntf ∈ egIntfG → TopoInfo_ID egIntf = 0 →
       c ∈ (Mechanism.getNBestFor m src target igIntfG neigh).1 →
       egress_zero_line c ∈ log').
Proof.
  revert batch log. induction egIntfG as [|egIntf egIntfG IH]; intros batch log.
  - simpl. intros [= <- <-]. split; [done | ]. by intros ? _ ? ? ?%elem_of_nil.
  - cbn [Mechanism.getPropagationBatch_egIntfs].
    destruct (Mechanism.getNBestFor m src target igIntfG neigh)
      as [bcns logN] eqn:Hn. cbn [fst].
    destruct (Mechanism.getPropagationBatch_bcns target egIntf bcns batch
                (log ++ logN)) as [[err | batch1] log1] eqn:Hb.
    + intros [= <- <-]. apply getPropagationBatch_bcns_log in Hb as [Hsub _].
      split; [ | done]. intros l Hl. apply Hsub, elem_of_app. by left.
    + apply getPropagationBatch_bcns_log in Hb as [Hsub Hzero].
      intros [Hsub' Hzero']%IH. split.
      * intros l Hl. apply Hsub', Hsub, elem_of_app. by left.
      * intros batch' Hr eg c [-> | Heg]%elem_of_cons Hz Hc.
        -- apply Hsub'. by eapply Hzero.
        -- by eapply Hzero'.
Qed.

Lemma getPropagationBatch_igIntfGs_log (m : Mech) (target : Target')
    (egIntfG : list Interface) (neigh src : IA)
    (igIntfGs : list (list Interface))
    (batch : list Beacon') (log log' : list LogEntry')
    (r : error' + list Beacon') :
  Mechanism.getPropagationBatch_igIntfGs m target egIntfG neigh src igIntfGs
    batch log = (r, log') →
  (∀ l, l ∈ log → l ∈ log') ∧
  (∀ batch', r = inr batch' →
     ∀ igIntfG egIntf c, igIntfG ∈ igIntfGs → egIntf ∈ egIntfG →
       TopoInfo_ID egIntf = 0 →
       c ∈ (Mechanism.getNBestFor m src target igIntfG neigh).1 →
       egress_zero_line c ∈ log').
Proof.
  revert batch log. induction igIntfGs as [|igIntfG igIntfGs IH]; intros batch log.
  - simpl. intros [= <- <-]. split; [done | ]. by intros ? _ ? ? ? ?%elem_of_nil.
  - cbn [Mechanism.getPropagationBatch_igIntfGs].
    destruct (Mechanism.getPropagationBatch_egIntfs m target igIntfG neigh src
                egIntfG batch log) as [[err | batch1] log1] eqn:Hb.
    + intros [= <- <-]. apply getPropagationBatch_egIntfs_log in Hb as [Hsub _].
      split; [done | done].
    + apply getPropagationBatch_egIntfs_log in Hb as [Hsub Hzero].
      intros [Hsub' Hzero']%IH. split.
      * intros l Hl. by apply Hsub', Hsub.
      * intros batch' Hr ig eg c [-> | Hig]%elem_of_cons Heg Hz Hc.
        -- apply Hsub'. by eapply Hzero.
        -- by eapply Hzero'.
Qed.

(** X28. An egress interface with identifier 0 is reported, not refused:
    when [getPropagationBatch] returns a batch, its log has the line
    "egress interface ID is 0" for every candidate it extended towards such
    an interface. *)
Theorem egress_zero_is_logged_not_refused (m : Mech) (target : Target')
    (egIntfG : list Interface) (neigh src : IA) (batch : list Beacon')
    (log : list LogEntry') (cand : Beacon') (egIntf : Interface) :
  Mechanism.getPropagationBatch m target egIntfG neigh src = (batch, None, log) →
  candidate m target egIntfG neigh src cand egIntf →
  TopoInfo_ID egIntf = 0 →
  egress_zero_line cand ∈ log.
Proof.
  unfold Mechanism.getPropagationBatch.
  destruct (Mechanism.getPropagationBatch_igIntfGs m target egIntfG neigh src
              (Mechanism.getIntfGroups m target) [] [])
    as [[err | batch'] log'] eqn:Hrun; [done | ].
  intros [= _ <-] (ig & Hig & Heg & Hc) Hz.
  apply getPropagationBatch_igIntfGs_log in Hrun as [_ Hzero].
  by eapply Hzero.
Qed.
End MechanismProperties.

(** * The properties on the test bed *)

Import TestBed.

Lemma goSort_permutes : sort_Slice_permutes goSort.
Proof. intros A x less. apply Slice_Permutation. Qed.

Lemma goSort_sorts : sort_Slice_sorts goSort.
Proof. intros A x lt Hswo. by apply Slice_sorted. Qed.

(** C9 on the test bed. Beacon A against beacon B. Beacon C against beacon
    D: the link (1-1,7) of C differs from the link of D in the ingress
    interface alone and the link (1-2,5) in the AS alone, so both count;
    the link (1-1,5) is the link of D, whatever the egress interfaces, and
    does not count. A beacon without a segment has diversity 0 either
    way. *)
Lemma Diversity_of_A_and_B :
  (Diversity beaconA beaconB = 1 ∧ Diversity beaconB beaconA = 0) ∧
  (Diversity beaconC beaconD = 2 ∧ Diversity beaconD beaconC = 0) ∧
  (Diversity beaconA no_segment = 0 ∧ Diversity no_segment beaconA = 0).
Proof.
  split; [ | split; split].
  - destruct (Diversity_counts_links_absent_from_other beaconA beaconB)
      as (_ & _ & _ & H).
    exact (H _ _ (mkIA 1 1) (mkIA 1 2) eq_refl eq_refl eq_refl eq_refl).
  - destruct (Diversity_counts_links_absent_from_other beaconC beaconD)
      as (H & _).
    rewrite H. vm_compute. reflexivity.
  - destruct (Diversity_counts_links_absent_from_other beaconD beaconC)
      as (H & _).
    rewrite H. vm_compute. reflexivity.
  - destruct (Diversity_counts_links_absent_from_other beaconA no_segment)
      as (_ & _ & H & _).
    apply H. by right.
  - destruct (Diversity_counts_links_absent_from_other no_segment beaconA)
      as (_ & _ & H & _).
    apply H. by left.
Defined.

(** C3 on the test bed: a first insert, an insert of the same segment
    originated later, and one originated earlier. *)
Lemma InsertBeacon_three_cases :
  (∃ e' row,
     InsertBeacon (PqaMemoryBackend.Beacons empty) hops2 1 (time_Unix 60 0) =
       Ret (e', {| Inserted := 1; Updated := 0 |}, None) ∧
     db_rows e' = [row] ∧ RowID row = 1 ∧ InfoTime row = 50) ∧
  (∃ e' r',
     InsertBeacon store1 (beacon_via 70 [141] 2) 3 (time_Unix 80 0) =
       Ret (e', {| Inserted := 0; Updated := 1 |}, None) ∧
     record_of e' (seg_via 70 [141]) = Some r' ∧
     RowID r' = 1 ∧ InfoTime r' = 70 ∧ InIntfID r' = 2 ∧ Usage r' = 3) ∧
  InsertBeacon store1 (beacon_via 40 [141] 2) 3 (time_Unix 80 0) =
    Ret (store1, {| Inserted := 0; Updated := 0 |}, None).
Proof.
  split; [ | split].
  - pose proof (InsertBeacon_inserts_updates_or_leaves
                  (PqaMemoryBackend.Beacons empty) hops2 1 (time_Unix 60 0)
                  (seg_via 50 [141]) eq_refl eq_refl) as H.
    assert (record_of (PqaMemoryBackend.Beacons empty) (seg_via 50 [141]) = None)
      as Hr by reflexivity.
    rewrite Hr in H.
    destruct (H _ _ eq_refl eq_refl eq_refl) as (e' & row & Heq & Hrows & _ & ->).
    eexists e', _. split; [exact Heq | ]. split; [exact Hrows | ]. split; reflexivity.
  - pose proof (InsertBeacon_inserts_updates_or_leaves
                  store1 (beacon_via 70 [141] 2) 3 (time_Unix 80 0)
                  (seg_via 70 [141]) eq_refl eq_refl) as H.
    assert (∃ r, record_of store1 (seg_via 70 [141]) = Some r ∧
                 RowID r = 1 ∧ InfoTime r = 50) as (r & Hr & Hid & Ht)
      by (eexists; split; [vm_compute; reflexivity | split; reflexivity]).
    rewrite Hr, Ht in H.
    assert (Time_After (Info_Timestamp (seg_via 70 [141])) (time_Unix 50 0) = true)
      as Ha by reflexivity.
    rewrite Ha in H.
    destruct (H _ eq_refl eq_refl)
      as (e' & r' & Heq & Hrec & [= Hid' _ _ _] & [= _ Hif _ Hinfo] & [= _ _ Hu _] & _).
    exists e', r'. split; [exact Heq | ]. split; [exact Hrec | ].
    split; [congruence | ]. split; [exact Hinfo | ]. split; [exact Hif | exact Hu].
  - pose proof (InsertBeacon_inserts_updates_or_leaves
                  store1 (beacon_via 40 [141] 2) 3 (time_Unix 80 0)
                  (seg_via 40 [141]) eq_refl eq_refl) as H.
    assert (∃ r, record_of store1 (seg_via 40 [141]) = Some r ∧ InfoTime r = 50)
      as (r & Hr & Ht)
      by (eexists; split; [vm_compute; reflexivity | reflexivity]).
    rewrite Hr, Ht in H. exact H.
Defined.

(** C4 on the test bed: the two shortest of the five beacons. *)
Lemma CandidateBeacons_two_shortest :
  CandidateBeacons store5 2 1 origin (time_Unix 60 0) = Ret (inr [hops1; hops2]) ∧
  ∃ rows,
    Forall2 decodes_to rows [hops1; hops2] ∧
    (∀ r, r ∈ rows → r ∈ db_rows store5 ∧ Z.land (Usage r) 1 = 1) ∧
    StronglySorted by_HopsLength rows.
Proof.
  assert (CandidateBeacons store5 2 1 origin (time_Unix 60 0) =
            Ret (inr [hops1; hops2])) as Hrun by (vm_compute; reflexivity).
  split; [exact Hrun | ].
  destruct (CandidateBeacons_selects_by_usage_and_source store5 2 1 origin
              (time_Unix 60 0) [hops1; hops2] Hrun)
    as (rows & Hdec & _ & Hsel & Hsorted & _).
  exists rows. split; [exact Hdec | ]. split; [ | exact Hsorted].
  intros r Hr. destruct (Hsel r Hr) as (Hin & Hu & _). by split.
Defined.

(** C4 as stated fails: more than six hours after the five beacons were
    originated, every record of the store has expired, and
    [CandidateBeacons] still returns two of them. *)
Lemma CandidateBeacons_returns_expired_records :
  Forall (fun r => ExpirationTime r < Time_Unix (time_Unix 30000 0))
         (db_rows store5) ∧
  CandidateBeacons store5 2 1 origin (time_Unix 30000 0) =
    Ret (inr [hops1; hops2]).
Proof.
  split; [ | vm_compute; reflexivity].
  apply (bool_decide_unpack _). vm_compute. exact I.
Qed.

(** C10 on the test bed: the extension of the second entry leads to no
    association, and the segment without entries to a panic. *)
Lemma InsertBeacon_of_late_extension_and_of_no_entries :
  (∃ beacons stats log,
     InsertBeacon (PqaMemoryBackend.Beacons empty) late_extension 1
       (time_Unix 60 0) = Ret (beacons, stats, None) ∧
     PqaMemoryBackend.InsertBeacon empty late_extension 1 (time_Unix 60 0) =
       Ret (PqaMemoryBackend.mk beacons (PqaMemoryBackend.Targets_ empty),
            stats, None, log)) ∧
  (∃ beacons stats,
     InsertBeacon (PqaMemoryBackend.Beacons with_empty_identity) no_entries 1
       (time_Unix 60 0) = Ret (beacons, stats, None) ∧
     PqaMemoryBackend.InsertBeacon with_empty_identity no_entries 1
       (time_Unix 60 0) = Panic).
Proof.
  split.
  - assert (∃ beacons stats,
              InsertBeacon (PqaMemoryBackend.Beacons empty) late_extension 1
                (time_Unix 60 0) = Ret (beacons, stats, None))
      as (beacons & stats & Hbase) by (eexists _, _; vm_compute; reflexivity).
    destruct (InsertBeacon_reads_first_ASEntry empty late_extension 1
                (time_Unix 60 0) _ beacons stats eq_refl Hbase)
      as (_ & _ & Hnone & _).
    destruct (Hnone _ _ eq_refl eq_refl) as [log Hrun].
    by exists beacons, stats, log.
  - assert (∃ beacons stats,
              InsertBeacon (PqaMemoryBackend.Beacons with_empty_identity)
                no_entries 1 (time_Unix 60 0) = Ret (beacons, stats, None))
      as (beacons & stats & Hbase) by (eexists _, _; vm_compute; reflexivity).
    destruct (InsertBeacon_reads_first_ASEntry with_empty_identity no_entries 1
                (time_Unix 60 0) _ beacons stats eq_refl Hbase)
      as (Hpanic & _).
    exists beacons, stats. split; [exact Hbase | by apply Hpanic].
Defined.

(** ** Selection of the three best *)

Section ThreeBest.
#[local] Existing Instance policy3.

(** C5 on the test bed: of the beacons of 5, 1, 4, 2 and 3 hops, inserted
    in this order, the three best are those of 1, 2 and 3 hops. *)
Lemma three_best_of_five :
  (PqaMemoryBackend.GetNBestsForGroup (backend_of five) origin target7 [if1]
     neighbour).1.1 = [hops1; hops2; hops3] ∧
  Mechanism.getNBest m5 target7 five = [hops1; hops2; hops3] ∧
  GetMetric target7 <$> [hops1; hops2; hops3] = [1; 2; 3].
Proof.
  destruct (N_best_in_better_first_order goSort_permutes goSort_sorts
              (backend_of five) m5 origin target7 [if1] neighbour five)
    as (_ & _ & _ & _ & H).
  assert (GetMetric target7 <$> [hops5; hops1; hops4; hops2; hops3] =
            [5; 1; 4; 2; 3]) as Hmetrics by (vm_compute; reflexivity).
  destruct (H (GetMetric target7) hops1 hops2 hops3 hops4 hops5 Hmetrics
              (fun x y _ _ => eq_refl) eq_refl) as [Hfinal Hgroup].
  split; [ | split; [by apply Hfinal | reflexivity]].
  apply Hgroup; [vm_compute; discriminate | vm_compute; reflexivity].
Defined.

(** C6 on the test bed: the beacon of 2 hops runs through AS 1-141; it is
    better than the beacons of 3 and 4 hops and is left out when AS 1-141
    is the one to avoid. *)
Lemma beacon_through_the_neighbour_is_left_out :
  traverses hops2 (mkIA 1 141) ∧
  better target7 hops2 hops3 = true ∧
  hops2 ∉ (PqaMemoryBackend.GetNBestsForGroup (backend_of five) origin target7
             [if1] (mkIA 1 141)).1.1.
Proof.
  assert (traverses hops2 (mkIA 1 141)) as Htr.
  { eexists. split; [reflexivity | ]. simpl. set_solver. }
  split; [exact Htr | ]. split; [reflexivity | ].
  intros Hin.
  destruct (looping_beacons_are_excluded goSort_permutes (backend_of five) m5
              origin target7 [if1] [if11] (mkIA 1 141)) as [Hgroup _].
  exact (Hgroup hops2 Hin Htr).
Defined.

(** C7 on the test bed: interface 12 is down, and the batch towards the
    interfaces 11 and 12 is not built. *)
Lemma batch_over_the_interface_that_is_down :
  ∃ cand egIntf seg err log,
    candidate m5 target7 [if11; if12] neighbour origin cand egIntf ∧
    Extender_Extend (Segment cand) (InIfId cand) (TopoInfo_ID egIntf) =
      (seg, Some err) ∧
    Mechanism.getPropagationBatch m5 target7 [if11; if12] neighbour origin =
      ([], Some (serrors_WrapStr "extending beacons" err
                   [("ingress"%string, CtxInt (InIfId cand));
                    ("egress"%string, CtxInt (TopoInfo_ID egIntf));
                    ("seg"%string, CtxSeg seg)]), log).
Proof.
  apply extension_failure_aborts_batch.
  exists hops1, if12. split; [ | by eexists].
  exists [if1]. split; [simpl; set_solver | ]. split; [set_solver | ].
  assert ((Mechanism.getNBestFor m5 origin target7 [if1] neighbour).1 =
            [hops1; hops2; hops3]) as -> by (vm_compute; reflexivity).
  set_solver.
Defined.

End ThreeBest.

(** ** Selection after a failed fetch *)

Section FailedFetch.
#[local] Existing Instance policy3.
#[local] Existing Instance beaconsById_so_far | 0.


End FailedFetch.

(** ** Selection of the ten best *)

Section TenBest.
#[local] Existing Instance policy10.

(** C1, as the code has it, on the test bed: the beacons of 2 hops come
    after the beacon of 1 hop. *)
Lemma seven_sorted_better_first :
  (∃ sorted,
     sorted ≡ₚ seven ∧ less_first (better target7) sorted ∧
     (PqaMemoryBackend.GetNBestsForGroup (backend_of seven) origin target7 [if1]
        neighbour).1.1 = take 10 sorted) ∧
  (∃ sorted,
     sorted ≡ₚ seven ∧ less_first (better target7) sorted ∧
     Mechanism.getNBest m7 target7 seven = take 10 sorted).
Proof.
  destruct (sort_by_Less_places_better_beacons_first goSort_permutes
              goSort_sorts (backend_of seven) m7 origin target7 [if1] neighbour
              seven) as [Hgroup Hfinal].
  split.
  - assert (passing target7 [if1] neighbour
              (GetBeaconsById (PqaMemoryBackend.Beacons (backend_of seven))
                 (GetBeaconIdsForTarget
                    (PqaMemoryBackend.Targets_ (backend_of seven)) target7)).1
            = seven) as Hc by (vm_compute; reflexivity).
    rewrite Hc in Hgroup. apply Hgroup; [vm_compute; discriminate | ].
    apply (StrictWeakOrderOn_rank _ (GetMetric target7)). reflexivity.
  - apply Hfinal.
    apply (StrictWeakOrderOn_rank _ (GetMetric target7)). reflexivity.
Defined.

(** C1 as stated fails: [sort.Slice] as run on short slices meets the
    contract of [sort.Slice], and the first two of the seven beacons have
    2 hops each; sorted, in [GetNBestsForGroup] and in [getNBest], the
    first of them comes last and the second stays second. *)
Lemma sort_swaps_tied_beacons :
  sort_Slice_permutes goSort ∧ sort_Slice_sorts goSort ∧
  swaps_a_tie (better target7) seven
    (PqaMemoryBackend.GetNBestsForGroup (backend_of seven) origin target7 [if1]
       neighbour).1.1 ∧
  swaps_a_tie (better target7) seven (Mechanism.getNBest m7 target7 seven) ∧
  Mechanism.getNBest m7 target7 seven =
    [hops1; tied 162; tied 163; tied 164; tied 165; tied 166; tied 161].
Proof.
  split; [exact goSort_permutes | ]. split; [exact goSort_sorts | ].
  split; [ | split]; [ | | vm_compute; reflexivity];
    exists 0%nat, 1%nat, 6%nat, 1%nat, (tied 161), (tied 162);
    (split; [lia | ]);
    (split; [vm_compute; reflexivity | ]);
    (split; [vm_compute; reflexivity | ]);
    (split; [vm_compute; reflexivity | ]);
    (split; [vm_compute; reflexivity | ]);
    (split; [apply (bool_decide_unpack _); vm_compute; exact I | ]);
    (split; [vm_compute; reflexivity | ]);
    (split; [vm_compute; reflexivity | lia]).
Qed.
End TenBest.

(** ** The beacon entity and the store *)

(** X3 on the two beacons: beacon A has no more diversity against itself
    than against beacon B, whose links are among its own. *)
Lemma Diversity_of_A_against_A_and_B :
  Diversity beaconA beaconB = 1 ∧
  Diversity beaconA beaconA ≤ Diversity beaconA beaconB.
Proof.
  split; [reflexivity | ].
  apply (Diversity_shrinks_as_other_grows beaconA beaconB beaconA
           _ _ _ eq_refl eq_refl eq_refl).
  intros l ->%list_elem_of_singleton. by left.
Defined.

(** X4 on the test bed: the driver refuses the INSERT, and the store is as
    it was. *)
Lemma refused_insert_leaves_store :
  ∃ e' stats err,
    InsertBeacon refusing_inserts hops2 1 (time_Unix 60 0) =
      Ret (e', stats, Some err) ∧
    e' = refusing_inserts ∧ stats = {| Inserted := 0; Updated := 0 |}.
Proof.
  eexists _, _, _. split; [vm_compute; reflexivity | ].
  apply (InsertBeacon_error_leaves_store refusing_inserts _ hops2 1
           (time_Unix 60 0) _ (db_NewWriteError "insert beacon"
                                 (ErrExternal "disk full"))).
  vm_compute. reflexivity.
Defined.

Lemma InsertBeacon_into_store5 :
  InsertBeacon store5 hops2_again 3 (time_Unix 80 0) =
    Ret (store5_updated, {| Inserted := 0; Updated := 1 |}, None).
Proof. vm_compute. reflexivity. Qed.

Lemma InsertBeacon_into_empty :
  InsertBeacon (PqaMemoryBackend.Beacons empty) hops2 1 (time_Unix 60 0) =
    Ret (store1, {| Inserted := 1; Updated := 0 |}, None).
Proof. vm_compute. reflexivity. Qed.

Lemma DeleteExpiredBeacons_at_21700 :
  DeleteExpiredBeacons early_and_late (time_Unix 21700 0) = (swept, 1, None).
Proof. vm_compute. reflexivity. Qed.

(** X5 on the test bed: the store of the five beacons and the beacon of 2
    hops, originated again at second 70. *)
Lemma SegID_unique_after_update :
  SegID_unique store5 ∧ SegID_unique store5_updated.
Proof.
  assert (SegID_unique store5) as Hu
    by (apply (bool_decide_unpack _); vm_compute; exact I).
  split; [exact Hu | ].
  exact (InsertBeacon_keeps_SegID_unique _ _ _ _ _ _ _ Hu
           InsertBeacon_into_store5).
Defined.

(** X6 on the test bed: the update leaves five records, with the
    identifiers they had. *)
Lemma five_records_after_update :
  Z.of_nat (length (db_rows store5_updated)) =
    Z.of_nat (length (db_rows store5)) + 0 ∧
  ∀ i r, db_rows store5 !! i = Some r →
    ∃ r', db_rows store5_updated !! i = Some r' ∧
          (RowID r', SegID r', StartIsd r', StartAs r') =
            (RowID r, SegID r, StartIsd r, StartAs r).
Proof.
  destruct (InsertBeacon_keeps_every_record _ _ _ _ _ _ _
              InsertBeacon_into_store5) as (Hlen & _ & Hrows).
  split; [exact Hlen | exact Hrows].
Defined.

(** X7 on the test bed: the update of the beacon of 2 hops leaves the
    records of the other four beacons as they were. *)
Lemma update_leaves_the_other_four :
  NoDup (RowID <$> db_rows store5) ∧
  ∀ i r, db_rows store5 !! i = Some r →
         SegID r ≠ Segment_ID (seg_via 70 [141]) →
         db_rows store5_updated !! i = Some r.
Proof.
  assert (NoDup (RowID <$> db_rows store5)) as Hnd
    by (apply (bool_decide_unpack _); vm_compute; exact I).
  split; [exact Hnd | ].
  exact (InsertBeacon_leaves_other_records store5 store5_updated hops2_again 3
           _ _ None (seg_via 70 [141]) Hnd eq_refl InsertBeacon_into_store5).
Defined.

(** X8 on the test bed: the beacon of 2 hops is inserted into the empty
    store, and a second time with another usage a minute later. *)
Lemma second_insert_changes_nothing :
  InsertBeacon store1 hops2 3 (time_Unix 120 0) =
    Ret (store1, {| Inserted := 0; Updated := 0 |}, None).
Proof.
  exact (InsertBeacon_again_changes_nothing _ _ hops2 1 3 _ (time_Unix 120 0) _
           (seg_via 50 [141]) eq_refl eq_refl InsertBeacon_into_empty).
Defined.

(** X9 on the test bed: the inserted beacon of 2 hops is found. *)
Lemma inserted_beacon_is_found :
  ∃ r, getBeaconID store1 hops2 = Ret (RowID r, None) ∧
       r ∈ db_rows store1 ∧ SegID r = Segment_ID (seg_via 50 [141]).
Proof.
  exact (getBeaconID_finds_inserted_beacon _ store1 store1 hops2 1 _ _
           (seg_via 50 [141]) eq_refl InsertBeacon_into_empty eq_refl eq_refl).
Defined.

(** X10 on the test bed: the inserted beacon of 2 hops is fetched by its
    identifier as it was stored. *)
Lemma inserted_beacon_is_fetched :
  ∃ id, getBeaconID store1 hops2 = Ret (id, None) ∧
        GetBeaconById store1 id = inr hops2.
Proof.
  destruct (GetBeaconById_returns_inserted_beacon _ store1 hops2 1 _ _
              (seg_via 50 [141]) eq_refl InsertBeacon_into_empty)
    as (id & packed & Hid & Hpack & Hfetch); [done | reflexivity | reflexivity | ].
  exists id. split; [exact Hid | ].
  injection Hpack as <-. apply (Hfetch (seg_via 50 [141])).
  vm_compute. reflexivity.
Defined.

(** X11 on the test bed: a sweep at second 21700 removes the record that
    expired at second 21650 and keeps the one that expires at second
    21800. *)
Lemma sweep_removes_the_early_record :
  DeleteExpiredBeacons early_and_late (time_Unix 21700 0) = (swept, 1, None) ∧
  Z.of_nat (length (db_rows swept)) + 1 =
    Z.of_nat (length (db_rows early_and_late)) ∧
  ∀ r, r ∈ db_rows swept ↔
       r ∈ db_rows early_and_late ∧
       Time_Unix (time_Unix 21700 0) ≤ ExpirationTime r.
Proof.
  split; [exact DeleteExpiredBeacons_at_21700 | ].
  destruct (DeleteExpiredBeacons_removes_the_expired _ _ _ _
              DeleteExpiredBeacons_at_21700) as (_ & Hmem & _ & Hlen).
  split; [exact Hlen | exact Hmem].
Defined.

(** X12 on the test bed: a second sweep, a hundred seconds earlier, removes
    nothing. *)
Lemma second_sweep_removes_nothing :
  DeleteExpiredBeacons swept (time_Unix 21600 0) = (swept, 0, None).
Proof.
  apply (DeleteExpiredBeacons_again_removes_nothing _ _ _ _ _
           DeleteExpiredBeacons_at_21700).
  vm_compute. discriminate.
Defined.

(** X13 on the test bed: after the sweep at second 21700 the candidates are
    the one beacon that is live. *)
Lemma candidates_after_sweep_are_live :
  CandidateBeacons swept 2 1 origin (time_Unix 21700 0) = Ret (inr [late]) ∧
  ∃ rows,
    Forall2 decodes_to rows [late] ∧
    ∀ r, r ∈ rows →
         r ∈ db_rows early_and_late ∧
         Time_Unix (time_Unix 21700 0) ≤ ExpirationTime r.
Proof.
  assert (CandidateBeacons swept 2 1 origin (time_Unix 21700 0) =
            Ret (inr [late])) as Hcand by (vm_compute; reflexivity).
  split; [exact Hcand | ].
  exact (CandidateBeacons_after_sweep_are_live _ _ _ _ _ _ _ _ _
           DeleteExpiredBeacons_at_21700 Hcand).
Defined.

(** X14 on the test bed: after the sweep at second 21700 the beacon of 2
    hops is not found. *)
Lemma swept_beacon_is_not_found :
  getBeaconID swept hops2 =
    Ret (-1, Some (serrors_New "beacon not found"
                     [("segID"%string,
                       CtxBytes (Segment_ID (seg_via 50 [141])))])).
Proof.
  apply (getBeaconID_after_sweep_finds_nothing _ _ hops2 _ _ (seg_via 50 [141])
           eq_refl DeleteExpiredBeacons_at_21700 eq_refl).
  assert (Forall (fun r => SegID r = Segment_ID (seg_via 50 [141]) →
                           ExpirationTime r < Time_Unix (time_Unix 21700 0))
                 (db_rows early_and_late)) as Hall.
  { apply (bool_decide_unpack _). vm_compute. exact I. }
  rewrite Forall_forall in Hall. exact Hall.
Defined.

(** X15 on the test bed: of the five beacons that match, two are
    returned for [setSize] 2. *)
Lemma two_of_five_candidates :
  CandidateBeacons store5 2 1 origin (time_Unix 60 0) =
    Ret (inr [hops1; hops2]) ∧
  length (List.filter (CandidateBeacons_where 1 origin) (db_rows store5)) = 5%nat ∧
  Z.of_nat (length [hops1; hops2]) =
    Z.min 2 (Z.of_nat (length (List.filter (CandidateBeacons_where 1 origin)
                                 (db_rows store5)))).
Proof.
  assert (CandidateBeacons store5 2 1 origin (time_Unix 60 0) =
            Ret (inr [hops1; hops2])) as Hrun by (vm_compute; reflexivity).
  split; [exact Hrun | ]. split; [vm_compute; reflexivity | ].
  exact (CandidateBeacons_returns_as_many_as_setSize_allows _ _ _ _ _ _ Hrun).
Defined.

(** X16 on the test bed: the second record does not unpack, and the call
    fails although the first does. *)
Lemma corrupt_record_fails_the_call :
  ∃ cause,
    CandidateBeacons corrupt 5 1 origin (time_Unix 60 0) =
      Ret (inl (db_NewDataError ErrParse cause)).
Proof.
  destruct (CandidateBeacons_fails_on_a_corrupt_record corrupt 5 1 origin
              (time_Unix 60 0)
              (mkRow 2 [Byte.x01] [] 1 100 1 1 50 21650 60000000000 1 [])
              (ErrExternal "empty beacon") eq_refl eq_refl ltac:(lia))
    as (r' & cause' & _ & _ & Hrun).
  - apply (bool_decide_unpack _). vm_compute. exact I.
  - reflexivity.
  - by exists cause'.
Defined.

(** X17 on the test bed: the five beacons have one origin. *)
Lemma sources_of_the_five :
  BeaconSources store5 = inr [origin] ∧ NoDup [origin] ∧
  ∀ ia, ia ∈ [origin] ↔
        ∃ r, r ∈ db_rows store5 ∧ StartIsd r = IA_I ia ∧ StartAs r = IA_A ia.
Proof.
  assert (BeaconSources store5 = inr [origin]) as Hrun
    by (vm_compute; reflexivity).
  split; [exact Hrun | ].
  destruct (BeaconSources_are_the_distinct_origins store5 [origin] Hrun)
    as (Hnd & Hmem & _).
  split; [exact Hnd | exact Hmem].
Defined.

(** X18 on the test bed: the origin of the first beacon inserted becomes a
    source. *)
Lemma first_insert_adds_its_origin :
  BeaconSources (PqaMemoryBackend.Beacons empty) = inr [] ∧
  BeaconSources store1 = inr [origin] ∧ origin ∈ [origin].
Proof.
  assert (BeaconSources (PqaMemoryBackend.Beacons empty) = inr []) as Hsrc
    by (vm_compute; reflexivity).
  assert (BeaconSources store1 = inr [origin]) as Hsrc'
    by (vm_compute; reflexivity).
  split; [exact Hsrc | ]. split; [exact Hsrc' | ].
  destruct (BeaconSources_grow_with_InsertBeacon _ _ _ _ _ _ _ _ _
              InsertBeacon_into_empty Hsrc Hsrc') as [_ Hnew].
  exact (Hnew eq_refl (seg_via 50 [141]) origin eq_refl eq_refl).
Defined.

(** ** The queries and the backend *)

(** X20 on the test bed: of the two records, the one originated at second
    50 is valid at second 100. *)
Lemma beacons_valid_at_100 :
  ∃ res rows,
    GetBeacons early_and_late (Some valid_at_100) = inr res ∧
    sb_Beacon <$> res = [hops2] ∧
    Forall2 scans_to rows res ∧
    ∀ s, s ∈ rows ↔
         ∃ r, r ∈ db_rows early_and_late ∧ matches valid_at_100 r ∧ s = select r.
Proof.
  assert (∃ res, GetBeacons early_and_late (Some valid_at_100) = inr res ∧
                 sb_Beacon <$> res = [hops2]) as (res & Hrun & Hres)
    by (eexists; split; vm_compute; reflexivity).
  destruct (GetBeacons_returns_the_records_asked_for _ _ _ Hrun)
    as (rows & Hscan & _ & Hmem & _).
  exists res, rows. split; [exact Hrun | ]. split; [exact Hres | ].
  split; [exact Hscan | exact Hmem].
Defined.

(** X21 on the test bed: without parameters both records are returned. *)
Lemma beacons_without_parameters :
  ∃ res rows,
    GetBeacons early_and_late None = inr res ∧
    sb_Beacon <$> res = [hops2; late] ∧
    rows ≡ₚ select <$> db_rows early_and_late ∧ Forall2 scans_to rows res.
Proof.
  assert (∃ res, GetBeacons early_and_late None = inr res ∧
                 sb_Beacon <$> res = [hops2; late]) as (res & Hrun & Hres)
    by (eexists; split; vm_compute; reflexivity).
  destruct (GetBeacons_without_parameters_returns_every_record
              early_and_late res) as (rows & Hperm & Hscan); [ | exact Hrun | ].
  - apply (bool_decide_unpack _). vm_compute. exact I.
  - exists res, rows. split; [exact Hrun | ]. split; [exact Hres | ].
    split; [exact Hperm | exact Hscan].
Defined.

(** X22 on the test bed: the backend returns what the refusing store
    returns. *)
Lemma backend_returns_the_refusal :
  ∃ b' stats err log err0,
    PqaMemoryBackend.InsertBeacon
      (PqaMemoryBackend.mk refusing_inserts ([] : list (Z * Target')))
      hops2 1 (time_Unix 60 0) = Ret (b', stats, err, log) ∧
    InsertBeacon refusing_inserts hops2 1 (time_Unix 60 0) =
      Ret (PqaMemoryBackend.Beacons b', stats, Some err0) ∧
    err = Some err0 ∧ log = [].
Proof.
  assert (∃ b' stats err log,
            PqaMemoryBackend.InsertBeacon
              (PqaMemoryBackend.mk refusing_inserts ([] : list (Z * Target')))
              hops2 1 (time_Unix 60 0) = Ret (b', stats, err, log))
    as (b' & stats & err & log & Hrun)
    by (eexists _, _, _, _; vm_compute; reflexivity).
  destruct (InsertBeacon_of_backend_follows_base_insert _ _ _ _ _ _ _ _ Hrun)
    as (err0 & Hbase & Hfail).
  destruct err0 as [err0|].
  - destruct (Hfail (mk_is_Some _ _ eq_refl)) as (-> & -> & _).
    by exists b', stats, (Some err0), [], err0.
  - exfalso. simpl in Hbase.
    assert (∃ e s x, InsertBeacon refusing_inserts hops2 1 (time_Unix 60 0) =
                       Ret (e, s, Some x)) as (e & s & x & Hx)
      by (eexists _, _, _; vm_compute; reflexivity).
    rewrite Hx in Hbase. discriminate.
Defined.

(** ** The three best, continued *)

Section ThreeBestProperties.
#[local] Existing Instance policy3.

(** X23 on the test bed: the three best of the five came in through
    interface 1 and are considered; with no ingress interface there is no
    candidate. *)
Lemma three_best_came_in_through_if1 :
  (PqaMemoryBackend.GetNBestsForGroup (backend_of five) origin target7 [if1]
     neighbour).1.1 = [hops1; hops2; hops3] ∧
  (∀ bcn, bcn ∈ [hops1; hops2; hops3] →
     (∃ ingressIntf, ingressIntf ∈ [if1] ∧
                     TopoInfo_ID ingressIntf = InIfId bcn) ∧
     ShouldConsider target7 bcn = true) ∧
  (PqaMemoryBackend.GetNBestsForGroup (backend_of five) origin target7 []
     neighbour).1.1 = [].
Proof.
  assert ((PqaMemoryBackend.GetNBestsForGroup (backend_of five) origin target7
             [if1] neighbour).1.1 = [hops1; hops2; hops3]) as Hgroup
    by (vm_compute; reflexivity).
  split; [exact Hgroup | ]. split.
  - destruct (GetNBestsForGroup_returns_filtered_candidates goSort_permutes
                (backend_of five) origin target7 [if1] neighbour) as [Hall _].
    intros bcn Hbcn. rewrite <- Hgroup in Hbcn.
    destruct (Hall bcn Hbcn) as (_ & Hin & Hsc). by split.
  - destruct (GetNBestsForGroup_returns_filtered_candidates goSort_permutes
                (backend_of five) origin target7 [] neighbour) as [_ Hnil].
    by apply Hnil.
Defined.

(** X24 on the test bed: of the five candidates, three are kept. *)
Lemma three_of_five_candidates_are_kept :
  length (PqaMemoryBackend.GetNBestsForGroup (backend_of five) origin target7
            [if1] neighbour).1.1 = Nat.min 3 5 ∧
  (PqaMemoryBackend.GetNBestsForGroup (backend_of five) origin target7
     [if1] neighbour).1.1 = [hops1; hops2; hops3].
Proof.
  split; [ | vm_compute; reflexivity].
  destruct (GetNBestsForGroup_keeps_as_many_as_N_allows goSort_permutes
              (backend_of five) origin target7 [if1] neighbour) as [_ Hsome].
  destruct Hsome as [Hlen _]; [vm_compute; discriminate | ].
  rewrite Hlen. vm_compute. reflexivity.
Defined.

(** X26 on the test bed: of the five beacons, [getNBest] keeps three. *)
Lemma best_three_of_five_beacons :
  length (Mechanism.getNBest m5 target7 five) = Nat.min 3 5 ∧
  ∀ x, x ∈ Mechanism.getNBest m5 target7 five → x ∈ five.
Proof.
  destruct (getNBest_keeps_as_many_as_N_allows goSort_permutes m5 target7 five)
    as (Hlen & Hsub & _).
  split; [exact Hlen | exact Hsub].
Defined.

(** X27 on the test bed: the batch towards interface 11 is the three best,
    extended by the hop of the local AS. *)
Lemma batch_towards_if11 :
  ∃ batch log,
    Mechanism.getPropagationBatch m5 target7 [if11] neighbour origin =
      (batch, None, log) ∧
    EgIfId <$> batch = [11; 11; 11] ∧ InIfId <$> batch = [1; 1; 1] ∧
    (length batch ≤ 3)%nat ∧
    ∀ bcn, bcn ∈ batch →
      ShouldConsider target7 bcn = true ∧
      ∃ cand egIntf,
        candidate m5 target7 [if11] neighbour origin cand egIntf ∧
        Extender_Extend (Segment cand) (InIfId cand) (TopoInfo_ID egIntf) =
          (Segment bcn, None) ∧
        InIfId bcn = InIfId cand ∧ EgIfId bcn = TopoInfo_ID egIntf.
Proof.
  assert (∃ batch log,
            Mechanism.getPropagationBatch m5 target7 [if11] neighbour origin =
              (batch, None, log) ∧
            EgIfId <$> batch = [11; 11; 11] ∧ InIfId <$> batch = [1; 1; 1])
    as (batch & log & Hrun & Heg & Hin)
    by (eexists _, _; split; [ | split]; vm_compute; reflexivity).
  exists batch, log. split; [exact Hrun | ]. split; [exact Heg | ].
  split; [exact Hin | ].
  exact (getPropagationBatch_returns_considered_extensions goSort_permutes
           m5 target7 [if11] neighbour origin batch log Hrun).
Defined.

(** X28 on the test bed: towards the interface with identifier 0 the batch
    is built, and the log has the line for the best beacon. *)
Lemma batch_towards_if0_is_logged :
  ∃ batch log,
    Mechanism.getPropagationBatch m5 target7 [if0] neighbour origin =
      (batch, None, log) ∧
    EgIfId <$> batch = [0; 0; 0] ∧
    egress_zero_line hops1 ∈ log.
Proof.
  assert (candidate m5 target7 [if0] neighbour origin hops1 if0) as Hcand.
  { exists [if1]. split; [by left | ]. split; [by left | ].
    assert ((Mechanism.getNBestFor m5 origin target7 [if1] neighbour).1 =
              [hops1; hops2; hops3]) as -> by (vm_compute; reflexivity).
    by left. }
  assert (∃ batch log,
            Mechanism.getPropagationBatch m5 target7 [if0] neighbour origin =
              (batch, None, log) ∧
            EgIfId <$> batch = [0; 0; 0])
    as (batch & log & Hrun & Heg)
    by (eexists _, _; split; vm_compute; reflexivity).
  exists batch, log. split; [exact Hrun | ]. split; [exact Heg | ].
  exact (egress_zero_is_logged_not_refused m5 target7 [if0] neighbour origin
           batch log hops1 if0 Hrun Hcand eq_refl).
Defined.
End ThreeBestProperties.
